(** * bb-box: the orchestration engine of [src/bbox.ts]

    A shallow embedding of the [Bbox] class: the module/service registry,
    the staging functions, [executeStaged], the build and migration
    runners and the value-provider resolver, followed by the properties
    proved about them.

    Conventions of the embedding.
    - JS strings are [string]; a character stands for one code unit, and
      the default [Array.prototype.sort] order is the lexicographic order
      on code units, [String.le].
    - A plain JS object used as a dictionary is a [gmap string _] holding
      its own properties; properties inherited from [Object.prototype] are
      outside the model. Where the enumeration order of an object matters
      ([Object.values(module.services)]) the object is the association
      list of its entries in enumeration order.
    - Module objects are mutable and shared by reference (the registry,
      [service.module] and the staged entries all point to them): they
      live in a store addressed by [ModRef]. Service objects are never
      written to by the engine and are plain values.
    - Every call that leaves the engine (process manager, state
      persistence, in-process runnables) is recorded in a trace; whether
      it returns or throws is decided by a [collaborator] oracle that sees
      the trace so far. Such calls are opaque: they do not write to the
      registry or to the staged queue.
    - An error is represented by the place that throws it; [message]
      gives the text of the JS [Error].
    - The one recursion that need not end, the dependency walk, takes
      fuel; running out of fuel is the outcome [Diverge].
    - [console.log] output is not modelled, and [init], which fills the
      registry from the discovery collaborator, is represented by its
      result: [modules] is [None] before it and the list of discovered
      modules after. *)

From Stdlib Require Import ZArith Ascii String.
From stdpp Require Import base sorting option strings functions gmap fin_maps list.

(** ** JS values and strings *)

(** Values of type [any] found in specs and returned by collaborators.
    Numbers are restricted to integers. *)
Inductive JsValue :=
| VUndefined
| VNull
| VBool (b : bool)
| VNum (z : Z)
| VStr (s : string)
| VObj (id : nat).

(** ToBoolean. *)
Definition truthy (v : JsValue) : bool :=
  match v with
  | VUndefined | VNull => false
  | VBool b => b
  | VNum z => negb (z =? 0)%Z
  | VStr s => negb (String.eqb s EmptyString)
  | VObj _ => true
  end.

(** [obj[key]] on a dictionary: a missing property reads as [undefined]. *)
Definition prop (obj : gmap string JsValue) (key : string) : JsValue :=
  default VUndefined (obj !! key).

(** [s.split('.')]. *)
Fixpoint split_dot (s : string) : list string :=
  match s with
  | EmptyString => [EmptyString]
  | String c rest =>
      if Ascii.eqb c "."%char then EmptyString :: split_dot rest
      else match split_dot rest with
           | h :: t => String c h :: t
           | [] => [String c EmptyString]
           end
  end.

(** The double-quote character, as a string. *)
Definition dquote : string := String (ascii_of_nat 34) EmptyString.

(** [names.join(', ')]. *)
Definition join (sep : string) (l : list string) : string := String.concat sep l.

(** lodash [difference(array, values)]: the elements of [array] that do not
    occur in [values], in the order of [array]. *)
Definition difference (array values : list string) : list string :=
  filter (λ x, x ∉ values) array.

(** ** Data model *)

(** Reference to a module object. *)
Definition ModRef := nat.

(** Identity of an in-process runnable (a [RunnableFn]). *)
Definition FnId := nat.

Inductive ServiceProcessStatus := Unknown | Online | Offline.

Definition status_name (st : ServiceProcessStatus) : string :=
  match st with
  | Unknown => "Unknown"
  | Online => "Online"
  | Offline => "Offline"
  end.

(** [Runnable = string | RunnableFn], [RunnableSpec = Runnable | Runnable[]]. *)
Inductive Runnable :=
| RCmd (cmd : string)
| RFn (f : FnId).

Inductive RunnableSpec :=
| One (r : Runnable)
| Many (rs : list Runnable).

(** Truthiness of an optional runnable field ([!module.spec.build]): a
    missing field and the empty command string are falsy; functions and
    arrays, the empty array included, are truthy. *)
Definition runnable_truthy (r : option RunnableSpec) : bool :=
  match r with
  | None => false
  | Some (One (RCmd cmd)) => negb (String.eqb cmd EmptyString)
  | Some _ => true
  end.

(** The fields of [ServiceSpec] the engine reads. *)
Module ServiceSpec.
Record t := {
  name : string;
  env : gmap string JsValue;
  dependencies : option (list string);
  valueProviders : option (gmap string string);
  values : option (gmap string JsValue)
}.
End ServiceSpec.

Module ModuleState.
Record t := {
  ranMigrations : list string;
  ranAllMigrations : bool;
  built : bool
}.
End ModuleState.

(** The fields of [ModuleSpec] the engine reads. *)
Module ModuleSpec.
Record t := {
  name : string;
  build : option RunnableSpec;
  migrations : option (gmap string RunnableSpec)
}.
End ModuleSpec.

Module ServiceState.
Record t := { processStatus : ServiceProcessStatus }.
End ServiceState.

Module Service.
Record t := {
  module : ModRef;
  name : string;
  spec : ServiceSpec.t;
  state : ServiceState.t
}.
End Service.

(** The class [Module]; [services] lists the entries of the [services]
    object in enumeration order. *)
Module Module_.
Record t := {
  name : string;
  spec : ModuleSpec.t;
  state : ModuleState.t;
  services : list (string * Service.t)
}.
End Module_.

(** [Partial<ModuleState>] and [Partial<ServiceState>]: [None] is an absent
    (or [undefined]) field. *)
Module PartialModuleState.
Record t := {
  ranMigrations : option (list string);
  ranAllMigrations : option bool;
  built : option bool
}.
End PartialModuleState.

Module PartialServiceState.
Record t := { processStatus : option ServiceProcessStatus }.
End PartialServiceState.

(** One element of [ctx.stagedStates]. *)
Module Staged.
Record t := {
  service : option (Service.t * PartialServiceState.t);
  module : option (ModRef * PartialModuleState.t)
}.
End Staged.

(** Calls that leave the engine. *)
Inductive Effect :=
| PmRunInteractive (m : ModRef) (runnable : option string)
| FnCall (f : FnId) (m : ModRef)
| PmRun (m : ModRef) (runnable : string) (env : gmap string JsValue)
| PmStartAndWait (s : Service.t)
| PmStopAndWait (s : Service.t)
| PmFindServiceProcess (s : Service.t)
| SaveState (m : ModRef) (st : ModuleState.t).

Inductive Reply :=
| Returns (v : JsValue)
| Throws (msg : string).

(** Errors, by the place that throws them; [message] is the [message] of
    the JS [Error] object. *)
Inductive Error :=
| ModulesNotInitialized
| ModuleNotFound (name : string) (known : list string)
| ServiceNotFound (serviceName : string)
| NoBuildAction
| NoMigrations
| UnhandledServiceProcessStatus (st : ServiceProcessStatus)
| ValueProviderNotFound (providerName : string)
| CouldNotGetValue (valueName : string) (cause : Error)
| External (msg : string).

Fixpoint message (e : Error) : string :=
  match e with
  | ModulesNotInitialized => "Modules not initialized"
  | ModuleNotFound name known =>
      "Module " +:+ dquote +:+ name +:+ dquote +:+ " not found. All discovered modules: "
        +:+ join ", " known
  | ServiceNotFound serviceName => "Service " +:+ dquote +:+ serviceName +:+ dquote +:+ " not found."
  | NoBuildAction => "Module has not build action specified"
  | NoMigrations => "Module has migrations specified"
  | UnhandledServiceProcessStatus st => "Unhandled ServiceProcessStatus " +:+ status_name st
  | ValueProviderNotFound providerName => "Value provider " +:+ providerName +:+ " not found"
  | CouldNotGetValue valueName cause =>
      "Could not get " +:+ valueName +:+ " value: " +:+ message cause
  | External msg => msg
  end.

(** ** State and control *)

(** What the engine reads and writes during one invocation: the module
    objects, [this.modules] of the [Bbox] instance ([None] until [init]
    has assigned it), [ctx.stagedStates], and the trace of collaborator
    calls. *)
Record BboxState := {
  heap : ModRef → Module_.t;
  modules : option (list ModRef);
  stagedStates : list Staged.t;
  trace : list Effect
}.

(** How a call ends: it returns, it throws, or (for the recursive
    dependency walk) it never returns. *)
Inductive Result (A : Type) :=
| Ok (a : A)
| Throw (e : Error)
| Diverge.
Arguments Ok {A} a.
Arguments Throw {A} e.
Arguments Diverge {A}.

Definition M (A : Type) : Type := BboxState → Result A * BboxState.

Definition ret {A} (a : A) : M A := λ s, (Ok a, s).

Definition bind {A B} (c : M A) (k : A → M B) : M B := λ s,
  match c s with
  | (Ok a, s') => k a s'
  | (Throw e, s') => (Throw e, s')
  | (Diverge, s') => (Diverge, s')
  end.

Definition throw {A} (e : Error) : M A := λ s, (Throw e, s).

Definition diverge {A} : M A := λ s, (Diverge, s).

Definition gets {A} (f : BboxState → A) : M A := λ s, (Ok (f s), s).

Definition modify (f : BboxState → BboxState) : M unit := λ s, (Ok tt, f s).

(** [try { c } catch (e) { h e }]. *)
Definition try_catch {A} (c : M A) (h : Error → M A) : M A := λ s,
  match c s with
  | (Throw e, s') => h e s'
  | r => r
  end.

Declare Scope bbox_scope.
Delimit Scope bbox_scope with bbox.
Notation "x <- c ;; k" := (bind c (λ x, k))
  (at level 100, c at next level, right associativity) : bbox_scope.
Notation "c ;;; k" := (bind c (λ _, k))
  (at level 100, right associativity) : bbox_scope.
Local Open Scope bbox_scope.

(** [for (const x of l) { await body(x) }]. *)
Fixpoint for_of {A} (l : list A) (body : A → M unit) : M unit :=
  match l with
  | [] => ret tt
  | x :: rest => body x ;;; for_of rest body
  end.

Definition set_heap (h : ModRef → Module_.t) (s : BboxState) : BboxState :=
  {| heap := h; modules := modules s; stagedStates := stagedStates s; trace := trace s |}.

Definition set_stagedStates (q : list Staged.t) (s : BboxState) : BboxState :=
  {| heap := heap s; modules := modules s; stagedStates := q; trace := trace s |}.

Definition set_trace (t : list Effect) (s : BboxState) : BboxState :=
  {| heap := heap s; modules := modules s; stagedStates := stagedStates s; trace := t |}.

(** [module.state = st] on the object [m] points to. *)
Definition set_state (m : ModRef) (st : ModuleState.t) (h : ModRef → Module_.t)
  : ModRef → Module_.t :=
  <[m := {| Module_.name := Module_.name (h m);
            Module_.spec := Module_.spec (h m);
            Module_.state := st;
            Module_.services := Module_.services (h m) |}]> h.

Definition with_built (b : bool) (st : ModuleState.t) : ModuleState.t :=
  {| ModuleState.ranMigrations := ModuleState.ranMigrations st;
     ModuleState.ranAllMigrations := ModuleState.ranAllMigrations st;
     ModuleState.built := b |}.

Definition with_ranAllMigrations (b : bool) (st : ModuleState.t) : ModuleState.t :=
  {| ModuleState.ranMigrations := ModuleState.ranMigrations st;
     ModuleState.ranAllMigrations := b;
     ModuleState.built := ModuleState.built st |}.

(** [st.ranMigrations.push(migId)]. *)
Definition push_ranMigration (migId : string) (st : ModuleState.t) : ModuleState.t :=
  {| ModuleState.ranMigrations := ModuleState.ranMigrations st ++ [migId];
     ModuleState.ranAllMigrations := ModuleState.ranAllMigrations st;
     ModuleState.built := ModuleState.built st |}.

Definition update_state (m : ModRef) (f : ModuleState.t → ModuleState.t) : M unit :=
  modify (λ s, set_heap (set_state m (f (Module_.state (heap s m))) (heap s)) s).

(** ** Pure parts of the engine *)

(** [modules.find(module => module.name === name)]. *)
Definition find_module (h : ModRef → Module_.t) (mods : list ModRef) (name : string)
  : option ModRef :=
  List.find (λ r, String.eqb (Module_.name (h r)) name) mods.

(** The loop of [getService]: the first module, in registry order, that
    owns a service of that name, with the first such service. *)
Fixpoint find_service (h : ModRef → Module_.t) (mods : list ModRef) (serviceName : string)
  : option (ModRef * Service.t) :=
  match mods with
  | [] => None
  | r :: rest =>
      match List.find (λ sv, String.eqb (Service.name sv) serviceName)
                      (map snd (Module_.services (h r))) with
      | Some sv => Some (r, sv)
      | None => find_service h rest serviceName
      end
  end.

(** [Object.keys(migrations).sort()]: the own keys, each once, in code-unit
    order; sorting makes the result independent of the enumeration order. *)
Definition sorted_keys (migrations : gmap string RunnableSpec) : list string :=
  merge_sort String.le (map fst (map_to_list migrations)).

Definition getNotAppliedMigrations (module : Module_.t) : list string :=
  match ModuleSpec.migrations (Module_.spec module) with
  | None => []
  | Some migrations =>
      let migrationIds := sorted_keys migrations in
      difference migrationIds (ModuleState.ranMigrations (Module_.state module))
  end.

Definition module_entry (m : ModRef) (st : PartialModuleState.t) : Staged.t :=
  {| Staged.service := None; Staged.module := Some (m, st) |}.

Definition service_entry (sv : Service.t) (st : PartialServiceState.t) : Staged.t :=
  {| Staged.service := Some (sv, st); Staged.module := None |}.

(** The object literals [{built: true}], [{ranAllMigrations: true}] and
    [{processStatus: st}]. *)
Definition built_true : PartialModuleState.t :=
  {| PartialModuleState.ranMigrations := None;
     PartialModuleState.ranAllMigrations := None;
     PartialModuleState.built := Some true |}.

Definition ranAllMigrations_true : PartialModuleState.t :=
  {| PartialModuleState.ranMigrations := None;
     PartialModuleState.ranAllMigrations := Some true;
     PartialModuleState.built := None |}.

Definition processStatus_is (st : ServiceProcessStatus) : PartialServiceState.t :=
  {| PartialServiceState.processStatus := Some st |}.

(** [serviceSpec.values && serviceSpec.values[providerName]], as a
    condition and as the value read. *)
Definition has_static_value (serviceSpec : ServiceSpec.t) (providerName : string) : bool :=
  match ServiceSpec.values serviceSpec with
  | Some values => truthy (prop values providerName)
  | None => false
  end.

Definition static_value (serviceSpec : ServiceSpec.t) (providerName : string) : JsValue :=
  match ServiceSpec.values serviceSpec with
  | Some values => prop values providerName
  | None => VUndefined
  end.

(** [serviceSpec.valueProviders && serviceSpec.valueProviders[providerName]]:
    a provider that is the empty string is falsy. *)
Definition has_value_provider (serviceSpec : ServiceSpec.t) (providerName : string) : bool :=
  match ServiceSpec.valueProviders serviceSpec with
  | Some valueProviders =>
      match valueProviders !! providerName with
      | Some provider => negb (String.eqb provider EmptyString)
      | None => false
      end
  | None => false
  end.

Definition value_provider (serviceSpec : ServiceSpec.t) (providerName : string) : string :=
  match ServiceSpec.valueProviders serviceSpec with
  | Some valueProviders => default EmptyString (valueProviders !! providerName)
  | None => EmptyString
  end.

(** ** The engine *)

Section Engine.

(** The outside world: given the calls made so far, how the next one
    ends. *)
Variable collaborator : list Effect → Effect → Reply.

(** A collaborator call: it is recorded, then it returns or throws. *)
Definition call (e : Effect) : M JsValue := λ s,
  let s' := set_trace (trace s ++ [e]) s in
  match collaborator (trace s) e with
  | Returns v => (Ok v, s')
  | Throws msg => (Throw (External msg), s')
  end.

(** [this.fileManager.saveState(module)]. *)
Definition saveState (m : ModRef) : M unit :=
  st <- gets (λ s, Module_.state (heap s m)) ;;
  call (SaveState m st) ;;;
  ret tt.

(** *** Registry *)

Definition getAllModules : M (list ModRef) :=
  mods <- gets modules ;;
  match mods with
  | None => throw ModulesNotInitialized
  | Some mods => ret mods
  end.

Definition getModule (name : string) : M ModRef :=
  mods <- getAllModules ;;
  h <- gets heap ;;
  match find_module h mods name with
  | None => throw (ModuleNotFound name (map (λ m, Module_.name (h m)) mods))
  | Some module => ret module
  end.

Definition getService (serviceName : string) : M (ModRef * Service.t) :=
  mods <- getAllModules ;;
  h <- gets heap ;;
  match find_service h mods serviceName with
  | Some found => ret found
  | None => throw (ServiceNotFound serviceName)
  end.

(** *** Staging *)

Definition stageServiceState (service : Service.t) (state : PartialServiceState.t)
  : M unit :=
  modify (λ s, set_stagedStates (stagedStates s ++ [service_entry service state]) s).

Definition stageModuleState (module : ModRef) (state : PartialModuleState.t) : M unit :=
  modify (λ s, set_stagedStates (stagedStates s ++ [module_entry module state]) s).

Definition stageBuild (module : ModRef) : M unit :=
  update_state module (with_built false) ;;;
  stageModuleState module built_true.

Definition stageBuildIfNeeded (module : ModRef) : M unit :=
  h <- gets heap ;;
  if ModuleState.built (Module_.state (h module))
     || negb (runnable_truthy (ModuleSpec.build (Module_.spec (h module))))
  then ret tt
  else stageModuleState module built_true.

Definition stageMigrationsIfNeeded (module : ModRef) : M unit :=
  h <- gets heap ;;
  match getNotAppliedMigrations (h module) with
  | [] => ret tt
  | _ :: _ => stageModuleState module ranAllMigrations_true
  end.

Definition stageStart (service : Service.t) : M unit :=
  stageBuildIfNeeded (Service.module service) ;;;
  stageMigrationsIfNeeded (Service.module service) ;;;
  stageServiceState service (processStatus_is Online).

(** The recursion follows the registry and need not end (a dependency
    cycle recurses for ever): [fuel] bounds its depth, and running out
    of it is [Diverge]. *)
Fixpoint stageStartDependenciesIfNeeded (fuel : nat) (service : Service.t) : M unit :=
  match fuel with
  | O => diverge
  | S fuel =>
      match ServiceSpec.dependencies (Service.spec service) with
      | None => ret tt
      | Some dependencies =>
          for_of dependencies (λ serviceDependencyName,
            found <- getService serviceDependencyName ;;
            stageStartDependenciesIfNeeded fuel (snd found) ;;;
            stageStart (snd found))
      end
  end.

(** *** Runnables, build, migrations *)

Definition run_one (module : ModRef) (runnable : Runnable) : M unit :=
  match runnable with
  | RFn f => call (FnCall f module) ;;; ret tt
  | RCmd cmd => call (PmRunInteractive module (Some cmd)) ;;; ret tt
  end.

(** [runnable] is [None] when the caller read a missing property: such a
    value is neither an array nor a function and goes to the process
    manager as it is. *)
Definition runInteractive (module : ModRef) (runnable : option RunnableSpec) : M unit :=
  match runnable with
  | Some (Many rs) => for_of rs (run_one module)
  | Some (One r) => run_one module r
  | None => call (PmRunInteractive module None) ;;; ret tt
  end.

Definition runBuild (module : ModRef) : M unit :=
  h <- gets heap ;;
  let build := ModuleSpec.build (Module_.spec (h module)) in
  if negb (runnable_truthy build) then throw NoBuildAction
  else
    runInteractive module build ;;;
    update_state module (with_built true) ;;;
    saveState module.

(** One round of the loop of [runMigrate]; its [catch] only logs and
    rethrows. *)
Definition migrate_one (module : ModRef) (migrations : gmap string RunnableSpec)
    (migId : string) : M unit :=
  runInteractive module (migrations !! migId) ;;;
  update_state module (push_ranMigration migId) ;;;
  saveState module.

Definition runMigrate (module : ModRef) : M unit :=
  h <- gets heap ;;
  match ModuleSpec.migrations (Module_.spec (h module)) with
  | None => throw NoMigrations
  | Some migrations =>
      match getNotAppliedMigrations (h module) with
      | [] => ret tt
      | diff =>
          for_of diff (migrate_one module migrations) ;;;
          update_state module (with_ranAllMigrations true) ;;;
          saveState module
      end
  end.

(** *** Applying the staged queue *)

Definition apply_module (module : ModRef) (state : PartialModuleState.t) : M unit :=
  match PartialModuleState.built state with
   | Some built =>
       h <- gets heap ;;
       if built && negb (ModuleState.built (Module_.state (h module)))
       then runBuild module
       else ret tt
   | None => ret tt
   end ;;;
  match PartialModuleState.ranAllMigrations state with
  | Some _ => runMigrate module
  | None => ret tt
  end.

Definition apply_service (service : Service.t) (state : PartialServiceState.t) : M unit :=
  match PartialServiceState.processStatus state with
  | None => ret tt
  | Some Online => call (PmStartAndWait service) ;;; ret tt
  | Some Offline => call (PmStopAndWait service) ;;; ret tt
  | Some st => throw (UnhandledServiceProcessStatus st)
  end.

(** The body of the loop of [executeStaged]. *)
Definition apply_staged (moduleOrService : Staged.t) : M unit :=
  match Staged.module moduleOrService with
   | Some (module, state) => apply_module module state
   | None => ret tt
   end ;;;
  match Staged.service moduleOrService with
  | Some (service, state) => apply_service service state
  | None => ret tt
  end.

(** Nothing that runs inside the loop pushes to [ctx.stagedStates], so
    the loop walks the queue as it is on entry. *)
Definition executeStaged : M unit :=
  queue <- gets stagedStates ;;
  for_of queue apply_staged.

(** *** Values *)

Definition provideValue (valueName : string) : M JsValue :=
  try_catch
    (let parts := split_dot valueName in
     let serviceName := nth 0 parts "undefined" in
     let providerName := nth 1 parts "undefined" in
     found <- getService serviceName ;;
     let module := fst found in
     let serviceSpec := Service.spec (snd found) in
     if has_static_value serviceSpec providerName
     then ret (static_value serviceSpec providerName)
     else if negb (has_value_provider serviceSpec providerName)
     then throw (ValueProviderNotFound providerName)
     else
       stageBuildIfNeeded module ;;;
       executeStaged ;;;
       call (PmRun module (value_provider serviceSpec providerName)
                   (ServiceSpec.env serviceSpec)))
    (λ e, throw (CouldNotGetValue valueName e)).

(** [provideValues]: [values] lists the entries of the object in the order
    [for (const envName in values)] enumerates them; [filled] is the
    object [ret] as filled so far. *)
Fixpoint provideValues_from (filled : gmap string JsValue) (values : list (string * string))
  : M (gmap string JsValue) :=
  match values with
  | [] => ret filled
  | (envName, valueName) :: rest =>
      v <- provideValue valueName ;;
      provideValues_from (<[envName := v]> filled) rest
  end.

Definition provideValues (values : list (string * string)) : M (gmap string JsValue) :=
  provideValues_from ∅ values.

(** *** Top-level operations

    Each takes the one name its validated parameters carry
    ([params.services[0]]); the [validateParams] decorator rejects any
    other shape before the body runs. *)

Definition build (name : string) : M unit :=
  module <- getModule name ;;
  stageBuild module ;;;
  executeStaged.

Definition start (fuel : nat) (name : string) : M unit :=
  found <- getService name ;;
  stageStartDependenciesIfNeeded fuel (snd found) ;;;
  stageStart (snd found) ;;;
  executeStaged.

Definition stop (name : string) : M unit :=
  found <- getService name ;;
  stageServiceState (snd found) (processStatus_is Offline) ;;;
  executeStaged.

Definition migrate (name : string) : M unit :=
  module <- getModule name ;;
  stageMigrationsIfNeeded module ;;;
  executeStaged.

(** [value] prints what [provideValue] returns; here it returns it. *)
Definition value (valueName : string) : M JsValue :=
  provideValue valueName.

(** The method [list]. *)
Definition list_ : M unit :=
  mods <- getAllModules ;;
  h <- gets heap ;;
  for_of mods (λ module,
    for_of (map snd (Module_.services (h module))) (λ service,
      call (PmFindServiceProcess service) ;;; ret tt)).

Definition run (module runnable : string) : M unit :=
  m <- getModule module ;;
  runInteractive m (Some (One (RCmd runnable))).

(** The operations of the public interface that look modules or
    services up. *)
Inductive Operation :=
| Start (service : string)
| Stop (service : string)
| Build (module : string)
| Migrate (module : string)
| Value (valueName : string)
| List
| Run (module runnable : string).

Definition perform (fuel : nat) (op : Operation) : M unit :=
  match op with
  | Start service => start fuel service
  | Stop service => stop service
  | Build module => build module
  | Migrate module => migrate module
  | Value valueName => value valueName ;;; ret tt
  | List => list_
  | Run module runnable => run module runnable
  end.

End Engine.

(** * Vocabulary of the properties *)

(** The collaborator calls a runnable consists of, in the order
    [runInteractive] makes them. *)
Definition runnable_call (module : ModRef) (r : Runnable) : Effect :=
  match r with
  | RFn f => FnCall f module
  | RCmd cmd => PmRunInteractive module (Some cmd)
  end.

Definition runnable_calls (module : ModRef) (runnable : option RunnableSpec) : list Effect :=
  match runnable with
  | Some (Many rs) => map (runnable_call module) rs
  | Some (One r) => [runnable_call module r]
  | None => [PmRunInteractive module None]
  end.

(** The durable writes of a trace: which module, and the state written. *)
Definition saves (t : list Effect) : list (ModRef * ModuleState.t) :=
  omap (λ e, match e with SaveState m st => Some (m, st) | _ => None end) t.

(** The services started along a trace. *)
Definition started (t : list Effect) : list Service.t :=
  omap (λ e, match e with PmStartAndWait sv => Some sv | _ => None end) t.

(** Calls that start or stop a service. *)
Definition is_service_call (e : Effect) : Prop :=
  match e with
  | PmStartAndWait _ | PmStopAndWait _ => True
  | _ => False
  end.

(** The services a staged queue asks to start, in queue order. *)
Definition starts_of (q : list Staged.t) : list Service.t :=
  omap (λ entry,
          match Staged.service entry with
          | Some (service, state) =>
              match PartialServiceState.processStatus state with
              | Some Online => Some service
              | _ => None
              end
          | None => None
          end) q.

(** The service-state changes of a staged queue, in queue order. *)
Definition service_changes (q : list Staged.t)
  : list (Service.t * PartialServiceState.t) :=
  omap Staged.service q.

(** What [stageStart] pushes for a service, given the module objects. *)
Definition start_entries (h : ModRef → Module_.t) (service : Service.t) : list Staged.t :=
  let module := Service.module service in
  (if ModuleState.built (Module_.state (h module))
      || negb (runnable_truthy (ModuleSpec.build (Module_.spec (h module))))
   then [] else [module_entry module built_true])
  ++ (match getNotAppliedMigrations (h module) with
      | [] => []
      | _ :: _ => [module_entry module ranAllMigrations_true]
      end)
  ++ [service_entry service (processStatus_is Online)].

(** A staged entry whose service part, if any, asks for [Online] or
    [Offline]. *)
Definition handled_change (e : Staged.t) : Prop :=
  match Staged.service e with
  | Some (_, state) =>
      PartialServiceState.processStatus state = Some Online
      ∨ PartialServiceState.processStatus state = Some Offline
  | None => True
  end.

(** The error comes from the default branch of the [processStatus] switch
    of [executeStaged], possibly wrapped by [provideValue]. *)
Fixpoint from_default_branch (e : Error) : Prop :=
  match e with
  | UnhandledServiceProcessStatus _ => True
  | CouldNotGetValue _ cause => from_default_branch cause
  | _ => False
  end.

(** Along every run of [c] the staged queue keeps holding handled changes
    only, and no error of [c] comes from the default branch. *)
Definition keeps_handled {A} (c : M A) : Prop :=
  ∀ s, Forall handled_change (stagedStates s) →
       Forall handled_change (stagedStates (c s).2) ∧
       ∀ e, (c s).1 = Throw e → ¬ from_default_branch e.

(** A relation between the state before and the state after holds along
    every run of [c]. *)
Definition steps (R : relation BboxState) {A} (c : M A) : Prop :=
  ∀ s, R s (c s).2.

(** [shape_kept]: the registry and everything of a module but its [state]
    stay as they are. [queue_kept]: nothing is pushed to or removed from
    the staged queue. *)
Definition shape_kept (s s' : BboxState) : Prop :=
  modules s' = modules s ∧
  ∀ r, Module_.name (heap s' r) = Module_.name (heap s r) ∧
       Module_.spec (heap s' r) = Module_.spec (heap s r) ∧
       Module_.services (heap s' r) = Module_.services (heap s r).

Definition queue_kept (s s' : BboxState) : Prop :=
  stagedStates s' = stagedStates s.

(** The run has started no service. *)
Definition same_started (s s' : BboxState) : Prop :=
  started (trace s') = started (trace s).

(** [c] returns or throws. *)
Definition ends {A} (c : M A) : Prop := ∀ s, (c s).1 ≠ Diverge.

(** The services [stageStartDependenciesIfNeeded] stages a start for, in
    the order it stages them: for each declared dependency in turn, first
    what that dependency needs, then the dependency itself. [None] when a
    declared name is unknown or the fuel does not reach the leaves. *)
Fixpoint staged_dependencies (fuel : nat) (h : ModRef → Module_.t) (mods : list ModRef)
    (service : Service.t) : option (list Service.t) :=
  match fuel with
  | O => None
  | S fuel =>
      match ServiceSpec.dependencies (Service.spec service) with
      | None => Some []
      | Some names =>
          foldr (λ name rest,
                   match find_service h mods name with
                   | None => None
                   | Some (_, dependency) =>
                       before ← staged_dependencies fuel h mods dependency;
                       after ← rest;
                       Some (before ++ [dependency] ++ after)
                   end)
                (Some []) names
      end
  end.

(** The staged queue has grown at its end, if at all. *)
Definition queue_extended (s s' : BboxState) : Prop :=
  stagedStates s `prefix_of` stagedStates s'.

(** [ranMigrations] of every module has grown at its end, if at all, and
    [ranAllMigrations], once true, is still true. *)
Definition migrations_kept (s s' : BboxState) : Prop :=
  ∀ r, ModuleState.ranMigrations (Module_.state (heap s r))
         `prefix_of` ModuleState.ranMigrations (Module_.state (heap s' r)) ∧
       (ModuleState.ranAllMigrations (Module_.state (heap s r)) = true →
        ModuleState.ranAllMigrations (Module_.state (heap s' r)) = true).

(** [built], once true, is still true. *)
Definition built_kept (s s' : BboxState) : Prop :=
  ∀ r, ModuleState.built (Module_.state (heap s r)) = true →
       ModuleState.built (Module_.state (heap s' r)) = true.

(** No collaborator was called and no module object was written. *)
Definition nothing_done (s s' : BboxState) : Prop :=
  heap s' = heap s ∧ modules s' = modules s ∧ trace s' = trace s.

(** [st] with [ids] pushed to [ranMigrations]. *)
Definition with_ran (ids : list string) (st : ModuleState.t) : ModuleState.t :=
  {| ModuleState.ranMigrations := ModuleState.ranMigrations st ++ ids;
     ModuleState.ranAllMigrations := ModuleState.ranAllMigrations st;
     ModuleState.built := ModuleState.built st |}.

(** The calls of a migration round that returns: the runnable, then the
    write of the state with the id pushed. *)
Definition round_calls (module : ModRef) (migrations : gmap string RunnableSpec)
    (st : ModuleState.t) (migId : string) : list Effect :=
  runnable_calls module (migrations !! migId)
  ++ [SaveState module (push_ranMigration migId st)].

(** The calls of a batch of rounds that all return, starting from the
    module state [st]. *)
Fixpoint batch_calls (module : ModRef) (migrations : gmap string RunnableSpec)
    (st : ModuleState.t) (ids : list string) : list Effect :=
  match ids with
  | [] => []
  | migId :: rest =>
      round_calls module migrations st migId
      ++ batch_calls module migrations (push_ranMigration migId st) rest
  end.

(** All services of the registry, module by module, each module's services
    in enumeration order. *)
Definition all_services (h : ModRef → Module_.t) (mods : list ModRef) : list Service.t :=
  concat (map (λ m, map snd (Module_.services (h m))) mods).

(** [a.b]. *)
Definition dotted (a b : string) : string := a +:+ "." +:+ b.

(** No [.] in the string. *)
Fixpoint dotless (s : string) : bool :=
  match s with
  | EmptyString => true
  | String c rest => negb (Ascii.eqb c "."%char) && dotless rest
  end.

(** The error was thrown while looking a module or a service up. *)
Definition lookup_error (e : Error) : Prop :=
  match e with
  | ModulesNotInitialized | ModuleNotFound _ _ | ServiceNotFound _ => True
  | _ => False
  end.

(** The provider call that resolves [valueName], with the module that
    owns the service: [None] when the service is unknown, when the value
    is a truthy static one, or when no provider is declared for it. *)
Definition provider_call (h : ModRef → Module_.t) (mods : list ModRef) (valueName : string)
  : option (ModRef * Effect) :=
  let parts := split_dot valueName in
  let providerName := nth 1 parts "undefined" in
  match find_service h mods (nth 0 parts "undefined") with
  | Some (module, service) =>
      if has_static_value (Service.spec service) providerName then None
      else if has_value_provider (Service.spec service) providerName
      then Some (module,
                 PmRun module (value_provider (Service.spec service) providerName)
                   (ServiceSpec.env (Service.spec service)))
      else None
  | None => None
  end.

(** Service [a] of the registry declares [b] as a dependency. *)
Definition depends (h : ModRef → Module_.t) (mods : list ModRef) (a b : string) : Prop :=
  ∃ module service dependencies,
    find_service h mods a = Some (module, service) ∧
    ServiceSpec.dependencies (Service.spec service) = Some dependencies ∧
    b ∈ dependencies.

(** [rank] goes down along every declared dependency of every service of
    the registry: the dependency graph has no cycle. *)
Definition ranked (rank : string → nat) (h : ModRef → Module_.t) (mods : list ModRef)
  : Prop :=
  Forall (λ service,
            Forall (λ d, rank d < rank (Service.name service))
                   (default [] (ServiceSpec.dependencies (Service.spec service))))
         (all_services h mods).

(** Every error [c] throws satisfies [P]. *)
Definition throws (P : Error → Prop) {A} (c : M A) : Prop :=
  ∀ s e, (c s).1 = Throw e → P e.

(** The state of [m] that the file manager holds after the trace [t]: the
    last one written for [m], if any was. *)
Definition persisted (t : list Effect) (m : ModRef) : option ModuleState.t :=
  last (omap (λ e, match e with
                   | SaveState m' st => if decide (m' = m) then Some st else None
                   | _ => None
                   end) t).

(** What was last written for [m], if anything, is the state [m] has in
    memory. *)
Definition sync_at (s : BboxState) (m : ModRef) : Prop :=
  ∀ st, persisted (trace s) m = Some st → Module_.state (heap s m) = st.

Definition in_sync (s : BboxState) : Prop := ∀ m, sync_at s m.

(** In sync, but for the module [dirty] while its [built] is reset. *)
Definition synced (dirty : option ModRef) (s : BboxState) : Prop :=
  ∀ m, sync_at s m
       ∨ (dirty = Some m ∧ ModuleState.built (Module_.state (heap s m)) = false).

(** [c] keeps [I] when it returns. *)
Definition keeps (I : BboxState → Prop) {A} (c : M A) : Prop :=
  ∀ s, I s → match (c s).1 with Ok _ => I (c s).2 | _ => True end.

(** The error says that the module has no migrations or, if [build_too],
    that it has no build action; possibly wrapped by [provideValue]. *)
Fixpoint missing_action (build_too : bool) (e : Error) : Prop :=
  match e with
  | NoMigrations => True
  | NoBuildAction => build_too = true
  | CouldNotGetValue _ cause => missing_action build_too cause
  | _ => False
  end.

(** A staged module change that asks for migrations names a module that
    declares migrations and, if [build_too], one that asks for a build
    names a module that has a build action. *)
Definition has_action (build_too : bool) (h : ModRef → Module_.t) (e : Staged.t) : Prop :=
  match Staged.module e with
  | Some (m, st) =>
      (PartialModuleState.ranAllMigrations st ≠ None →
       ModuleSpec.migrations (Module_.spec (h m)) ≠ None) ∧
      (build_too = true → PartialModuleState.built st ≠ None →
       runnable_truthy (ModuleSpec.build (Module_.spec (h m))) = true)
  | None => True
  end.

(** Along every run of [c] the staged changes keep having their actions,
    and no error of [c] is a missing action. *)
Definition finds_actions (build_too : bool) {A} (c : M A) : Prop :=
  ∀ s, Forall (has_action build_too (heap s)) (stagedStates s) →
       Forall (has_action build_too (heap (c s).2)) (stagedStates (c s).2) ∧
       ∀ e, (c s).1 = Throw e → ¬ missing_action build_too e.

(** A fresh [ctx] for the next top-level operation. *)
Definition fresh_context (s : BboxState) : BboxState := set_stagedStates [] s.

(** * A sample project

    Two modules. [app] (reference 0) has a build command, three migrations
    and the services [web] and [api]; [infra] (reference 1) has neither
    build nor migrations and owns [db]. [web] depends on [api], which
    depends on [db]. Any other reference denotes [infra]. *)

Definition sample_service (module : ModRef) (name : string)
    (dependencies : option (list string)) (values : option (gmap string JsValue))
    (valueProviders : option (gmap string string)) : Service.t :=
  {| Service.module := module;
     Service.name := name;
     Service.spec := {| ServiceSpec.name := name;
                        ServiceSpec.env := ∅;
                        ServiceSpec.dependencies := dependencies;
                        ServiceSpec.valueProviders := valueProviders;
                        ServiceSpec.values := values |};
     Service.state := {| ServiceState.processStatus := Unknown |} |}.

Definition web : Service.t :=
  sample_service 0 "web" (Some ["api"])
    (Some {[ "port" := VNum 0; "host" := VStr "localhost" ]}) None.

Definition api : Service.t :=
  sample_service 0 "api" (Some ["db"]) None (Some {[ "token" := "make-token" ]}).

Definition db : Service.t := sample_service 1 "db" None None None.

(** A service that lists itself as a dependency. *)
Definition loop : Service.t := sample_service 2 "loop" (Some ["loop"]) None None.

Definition fresh_state : ModuleState.t :=
  {| ModuleState.ranMigrations := [];
     ModuleState.ranAllMigrations := false;
     ModuleState.built := false |}.

Definition app_migrations : gmap string RunnableSpec :=
  {[ "003" := One (RCmd "003.sql");
     "001" := One (RCmd "001.sql");
     "002" := Many [RCmd "002a.sql"; RCmd "002b.sql"] ]}.

Definition app : Module_.t :=
  {| Module_.name := "app";
     Module_.spec :=
       {| ModuleSpec.name := "app";
          ModuleSpec.build := Some (One (RCmd "make"));
          ModuleSpec.migrations := Some app_migrations |};
     Module_.state := fresh_state;
     Module_.services := [("web", web); ("api", api)] |}.

Definition infra : Module_.t :=
  {| Module_.name := "infra";
     Module_.spec := {| ModuleSpec.name := "infra";
                        ModuleSpec.build := None;
                        ModuleSpec.migrations := None |};
     Module_.state := fresh_state;
     Module_.services := [("db", db)] |}.

Definition cyclic : Module_.t :=
  {| Module_.name := "cyclic";
     Module_.spec := {| ModuleSpec.name := "cyclic";
                        ModuleSpec.build := None;
                        ModuleSpec.migrations := None |};
     Module_.state := fresh_state;
     Module_.services := [("loop", loop)] |}.

Definition sample_heap : ModRef → Module_.t :=
  λ r, match r with 0 => app | 2 => cyclic | _ => infra end.

(** The state a top-level operation starts from after [init], with a
    fresh context. *)
Definition sample : BboxState :=
  {| heap := sample_heap; modules := Some [0; 1]; stagedStates := []; trace := [] |}.

(** The same with the module [cyclic] (reference 2) in the registry. *)
Definition sample_with_cycle : BboxState :=
  {| heap := sample_heap; modules := Some [0; 1; 2]; stagedStates := []; trace := [] |}.

(** A third project: the module [solo] (reference 3) has the build command
    and the migrations of [app] and owns [worker], which depends on
    nothing. *)
Definition worker : Service.t := sample_service 3 "worker" None None None.

Definition solo : Module_.t :=
  {| Module_.name := "solo";
     Module_.spec :=
       {| ModuleSpec.name := "solo";
          ModuleSpec.build := Some (One (RCmd "make"));
          ModuleSpec.migrations := Some app_migrations |};
     Module_.state := fresh_state;
     Module_.services := [("worker", worker)] |}.

Definition sample_solo : BboxState :=
  {| heap := λ r, match r with 3 => solo | _ => sample_heap r end;
     modules := Some [0; 1; 3]; stagedStates := []; trace := [] |}.

(** The state before [init]. *)
Definition uninitialised : BboxState :=
  {| heap := sample_heap; modules := None; stagedStates := []; trace := [] |}.

(** A world in which every call returns. *)
Definition all_return : list Effect → Effect → Reply := λ _ _, Returns VUndefined.

(** A world in which the command [002b.sql] fails and every other call
    returns. *)
Definition fails_002b : list Effect → Effect → Reply := λ _ e,
  match e with
  | PmRunInteractive _ (Some cmd) =>
      if String.eqb cmd "002b.sql" then Throws "syntax error" else Returns VUndefined
  | _ => Returns VUndefined
  end.

(** A world in which the command [make] fails and every other call
    returns. *)
Definition fails_make : list Effect → Effect → Reply := λ _ e,
  match e with
  | PmRunInteractive _ (Some cmd) =>
      if String.eqb cmd "make" then Throws "make: error" else Returns VUndefined
  | _ => Returns VUndefined
  end.

(** * Properties *)

(** ** Pending migrations *)

Lemma StronglySorted_filter {A} (R : relation A) (P : A → Prop)
    `{∀ x, Decision (P x)} (l : list A) :
  StronglySorted R l → StronglySorted R (filter P l).
Proof.
  induction 1 as [|x l Hl IH Hx]; [constructor|].
  rewrite filter_cons. case_decide; [|done].
  constructor; [done|].
  rewrite Forall_forall in Hx |- *.
  intros y [_ Hy]%list_elem_of_filter. by apply Hx.
Qed.

Lemma elem_of_sorted_keys (migrations : gmap string RunnableSpec) (id : string) :
  id ∈ sorted_keys migrations ↔ is_Some (migrations !! id).
Proof.
  unfold sorted_keys. rewrite merge_sort_Permutation, list_elem_of_fmap. split.
  - intros [[k v] [-> Hkv%elem_of_map_to_list]]. by exists v.
  - intros [v Hv]. exists (id, v). split; [done|]. by apply elem_of_map_to_list.
Qed.

Lemma NoDup_sorted_keys (migrations : gmap string RunnableSpec) :
  NoDup (sorted_keys migrations).
Proof.
  unfold sorted_keys. rewrite merge_sort_Permutation. apply NoDup_fst_map_to_list.
Qed.

Lemma StronglySorted_sorted_keys (migrations : gmap string RunnableSpec) :
  StronglySorted String.le (sorted_keys migrations).
Proof. apply (StronglySorted_merge_sort _). Qed.

(** The keys of an object do not depend on how it was built: the sorted
    key list is the only duplicate-free sorted list with these members. *)
Lemma sorted_keys_unique (migrations : gmap string RunnableSpec) (l : list string) :
  StronglySorted String.le l → NoDup l →
  (∀ id, id ∈ l ↔ is_Some (migrations !! id)) →
  l = sorted_keys migrations.
Proof.
  intros Hs Hn Hl. apply (StronglySorted_unique String.le); [done| |].
  - apply StronglySorted_sorted_keys.
  - apply NoDup_Permutation; [done|apply NoDup_sorted_keys|].
    intros id. by rewrite Hl, elem_of_sorted_keys.
Qed.

(** C4. [getNotAppliedMigrations] returns a list sorted in lexicographic
    order, without duplicates, whose members are exactly the migration ids
    declared in [module.spec.migrations] that do not occur in
    [module.state.ranMigrations]; when the module declares no migrations
    object the list is empty. *)
Theorem getNotAppliedMigrations_sorted_difference (module : Module_.t) :
  let pending := getNotAppliedMigrations module in
  StronglySorted String.le pending ∧
  NoDup pending ∧
  match ModuleSpec.migrations (Module_.spec module) with
  | None => pending = []
  | Some migrations =>
      ∀ id, id ∈ pending ↔
            is_Some (migrations !! id) ∧
            id ∉ ModuleState.ranMigrations (Module_.state module)
  end.
Proof.
  unfold getNotAppliedMigrations, difference.
  destruct (ModuleSpec.migrations (Module_.spec module)) as [migrations|]; simpl.
  - split_and!.
    + apply StronglySorted_filter, StronglySorted_sorted_keys.
    + apply NoDup_filter, NoDup_sorted_keys.
    + intros id. rewrite list_elem_of_filter, elem_of_sorted_keys. tauto.
  - split_and!; [constructor|constructor|done].
Qed.

(** ** Running engine code *)

Lemma bind_ok {A B} (c : M A) (k : A → M B) s a s' :
  c s = (Ok a, s') → bind c k s = k a s'.
Proof. unfold bind. by intros ->. Qed.

Lemma bind_throw {A B} (c : M A) (k : A → M B) s e s' :
  c s = (Throw e, s') → bind c k s = (Throw e, s').
Proof. unfold bind. by intros ->. Qed.

Lemma bind_diverge {A B} (c : M A) (k : A → M B) s s' :
  c s = (Diverge, s') → bind c k s = (Diverge, s').
Proof. unfold bind. by intros ->. Qed.

Lemma bind_ret {A B} (a : A) (k : A → M B) s : bind (ret a) k s = k a s.
Proof. done. Qed.

Lemma bind_gets {A B} (f : BboxState → A) (k : A → M B) s : bind (gets f) k s = k (f s) s.
Proof. done. Qed.

Lemma bind_modify {B} (f : BboxState → BboxState) (k : unit → M B) s :
  bind (modify f) k s = k tt (f s).
Proof. done. Qed.

Lemma bind_assoc {A B C} (c : M A) (k1 : A → M B) (k2 : B → M C) s :
  bind (bind c k1) k2 s = bind c (λ a, bind (k1 a) k2) s.
Proof. unfold bind. by destruct (c s) as [[a| |] s1]. Qed.

Lemma bind_ret_unit (c : M unit) s : bind c (λ _, ret tt) s = c s.
Proof. unfold bind. by destruct (c s) as [[[]| |] s1]. Qed.

(** Symbolic execution of the state-only steps at the head of a run. *)
Tactic Notation "run" :=
  repeat (first [ rewrite bind_assoc | rewrite bind_modify | rewrite bind_gets
                | rewrite bind_ret | rewrite bind_ret_unit ];
          cbv beta).

Tactic Notation "run" "in" hyp(H) :=
  repeat (first [ rewrite bind_assoc in H | rewrite bind_modify in H
                | rewrite bind_gets in H | rewrite bind_ret in H
                | rewrite bind_ret_unit in H ];
          cbv beta in H).

Lemma for_of_app {A} (l1 l2 : list A) (body : A → M unit) s :
  for_of (l1 ++ l2) body s = (for_of l1 body ;;; for_of l2 body) s.
Proof.
  revert s. induction l1 as [|x l1 IH]; intros s; simpl; [done|].
  unfold bind in *. destruct (body x s) as [[[]| |] s1]; [|done|done].
  apply IH.
Qed.

Lemma for_of_ext {A} (l : list A) (f g : A → M unit) s :
  (∀ x s, f x s = g x s) → for_of l f s = for_of l g s.
Proof.
  intros Hfg. revert s. induction l as [|x l IH]; intros s; simpl; [done|].
  unfold bind. rewrite Hfg. destruct (g x s) as [[[]| |] s1]; [apply IH|done|done].
Qed.

Lemma for_of_fmap {A B} (h : A → B) (l : list A) (f : B → M unit) s :
  for_of (map h l) f s = for_of l (λ x, f (h x)) s.
Proof.
  revert s. induction l as [|x l IH]; intros s; simpl; [done|].
  unfold bind. destruct (f (h x) s) as [[[]| |] s1]; [apply IH|done|done].
Qed.

Lemma set_stagedStates_same s : set_stagedStates (stagedStates s) s = s.
Proof. by destruct s. Qed.

Section steps.
Context (R : relation BboxState) `{!PreOrder R}.

Lemma steps_ret {A} (a : A) : steps R (ret a).
Proof. by intros s. Qed.

Lemma steps_throw {A} e : steps R (@throw A e).
Proof. by intros s. Qed.

Lemma steps_diverge {A} : steps R (@diverge A).
Proof. by intros s. Qed.

Lemma steps_gets {A} (f : BboxState → A) : steps R (gets f).
Proof. by intros s. Qed.

Lemma steps_modify f : (∀ s, R s (f s)) → steps R (modify f).
Proof. intros Hf s. apply Hf. Qed.

Lemma steps_bind {A B} (c : M A) (k : A → M B) :
  steps R c → (∀ a, steps R (k a)) → steps R (bind c k).
Proof.
  intros Hc Hk s. unfold bind. specialize (Hc s).
  destruct (c s) as [[a| |] s1]; simpl in *; [|done|done].
  etrans; [done|apply Hk].
Qed.

Lemma steps_try_catch {A} (c : M A) (h : Error → M A) :
  steps R c → (∀ e, steps R (h e)) → steps R (try_catch c h).
Proof.
  intros Hc Hh s. unfold try_catch. specialize (Hc s).
  destruct (c s) as [[a|e|] s1]; simpl in *; [done| |done].
  etrans; [done|apply Hh].
Qed.

Lemma steps_for_of {A} (l : list A) (body : A → M unit) :
  (∀ x, steps R (body x)) → steps R (for_of l body).
Proof.
  intros Hb. induction l as [|x l IH]; simpl; [apply steps_ret|].
  by apply steps_bind.
Qed.

End steps.

#[local] Instance shape_kept_po : PreOrder shape_kept.
Proof.
  split.
  - by intros s.
  - intros s1 s2 s3 [Hm Hh] [Hm' Hh']. split; [congruence|].
    intros r. destruct (Hh r) as (?&?&?), (Hh' r) as (?&?&?).
    split_and!; congruence.
Qed.

#[local] Instance queue_kept_po : PreOrder queue_kept.
Proof. split; unfold queue_kept; [by intros s|intros s1 s2 s3; congruence]. Qed.

Lemma set_state_lookup m st h r :
  set_state m st h r =
  if decide (m = r)
  then {| Module_.name := Module_.name (h m); Module_.spec := Module_.spec (h m);
          Module_.state := st; Module_.services := Module_.services (h m) |}
  else h r.
Proof.
  unfold set_state. case_decide as Hr.
  - subst. by rewrite fn_lookup_insert.
  - by rewrite fn_lookup_insert_ne.
Qed.

Lemma set_state_eq m st h : Module_.state (set_state m st h m) = st.
Proof. rewrite set_state_lookup. by rewrite decide_True. Qed.

Lemma set_state_spec m st h r : Module_.spec (set_state m st h r) = Module_.spec (h r).
Proof. rewrite set_state_lookup. case_decide; by subst. Qed.

Create HintDb steps.

Ltac steps_go :=
  repeat match goal with
  | |- ∀ _, _ => intro
  | |- PreOrder _ => typeclasses eauto
  | |- steps _ (ret _) => apply steps_ret
  | |- steps _ (throw _) => apply steps_throw
  | |- steps _ diverge => apply steps_diverge
  | |- steps _ (gets _) => apply steps_gets
  | |- steps _ (bind _ _) => apply steps_bind
  | |- steps _ (try_catch _ _) => apply steps_try_catch
  | |- steps _ (for_of _ _) => apply steps_for_of
  | |- steps _ (modify _) => apply steps_modify
  | |- steps _ (match ?x with _ => _ end) => destruct x
  | |- steps _ (let _ := _ in _) => cbv zeta
  | |- steps _ _ => solve [eauto with steps]
  end.

Section frames.
Variable collaborator : list Effect → Effect → Reply.
Context (R : relation BboxState) `{!PreOrder R}.

(** *** Lookups change nothing *)

Lemma getAllModules_steps : steps R getAllModules.
Proof. unfold getAllModules. steps_go. Qed.
#[local] Hint Resolve getAllModules_steps : steps.

Lemma getModule_steps name : steps R (getModule name).
Proof. unfold getModule. steps_go. Qed.

Lemma getService_steps name : steps R (getService name).
Proof. unfold getService. steps_go. Qed.
#[local] Hint Resolve getModule_steps getService_steps : steps.

(** *** Staging only pushes to the queue *)

Section staging.
Hypothesis R_push : ∀ s e, R s (set_stagedStates (stagedStates s ++ [e]) s).

Lemma stageServiceState_steps sv st : steps R (stageServiceState sv st).
Proof. unfold stageServiceState. steps_go. apply R_push. Qed.

Lemma stageModuleState_steps m st : steps R (stageModuleState m st).
Proof. unfold stageModuleState. steps_go. apply R_push. Qed.
#[local] Hint Resolve stageServiceState_steps stageModuleState_steps : steps.

Lemma stageBuildIfNeeded_steps m : steps R (stageBuildIfNeeded m).
Proof. unfold stageBuildIfNeeded. steps_go. Qed.

Lemma stageMigrationsIfNeeded_steps m : steps R (stageMigrationsIfNeeded m).
Proof. unfold stageMigrationsIfNeeded. steps_go. Qed.
#[local] Hint Resolve stageBuildIfNeeded_steps stageMigrationsIfNeeded_steps : steps.

Lemma stageStart_steps sv : steps R (stageStart sv).
Proof. unfold stageStart. steps_go. Qed.
#[local] Hint Resolve stageStart_steps : steps.

Lemma stageStartDependenciesIfNeeded_steps fuel sv :
  steps R (stageStartDependenciesIfNeeded fuel sv).
Proof. revert sv. induction fuel as [|fuel IH]; intros sv; simpl; steps_go. Qed.

End staging.

(** *** Applying only calls collaborators and updates module states *)

Section applying.
Hypothesis R_call :
  ∀ s e, ¬ is_service_call e → R s (set_trace (trace s ++ [e]) s).
Hypothesis R_update : ∀ s m st, R s (set_heap (set_state m st (heap s)) s).

Lemma call_steps e : ¬ is_service_call e → steps R (call collaborator e).
Proof. intros He s. unfold call. destruct (collaborator _ _); by apply R_call. Qed.

Lemma update_state_steps m f : steps R (update_state m f).
Proof. intros s. apply R_update. Qed.
#[local] Hint Resolve call_steps update_state_steps : steps.
#[local] Hint Extern 1 (¬ is_service_call _) => solve [simpl; tauto] : steps.

Lemma saveState_steps m : steps R (saveState collaborator m).
Proof. unfold saveState. steps_go. Qed.

Lemma run_one_steps m r : steps R (run_one collaborator m r).
Proof. unfold run_one. steps_go. Qed.
#[local] Hint Resolve saveState_steps run_one_steps : steps.

Lemma runInteractive_steps m r : steps R (runInteractive collaborator m r).
Proof. unfold runInteractive. steps_go. Qed.
#[local] Hint Resolve runInteractive_steps : steps.

Lemma runBuild_steps m : steps R (runBuild collaborator m).
Proof. unfold runBuild. steps_go. Qed.

Lemma migrate_one_steps m migs id : steps R (migrate_one collaborator m migs id).
Proof. unfold migrate_one. steps_go. Qed.
#[local] Hint Resolve runBuild_steps migrate_one_steps : steps.

Lemma runMigrate_steps m : steps R (runMigrate collaborator m).
Proof. unfold runMigrate. steps_go. Qed.
#[local] Hint Resolve runMigrate_steps : steps.

Lemma apply_module_steps m st : steps R (apply_module collaborator m st).
Proof. unfold apply_module. steps_go. Qed.
#[local] Hint Resolve apply_module_steps : steps.

Section service_calls.
Hypothesis R_service :
  ∀ s e, is_service_call e → R s (set_trace (trace s ++ [e]) s).

Lemma call_service_steps e : is_service_call e → steps R (call collaborator e).
Proof. intros He s. unfold call. destruct (collaborator _ _); by apply R_service. Qed.
#[local] Hint Resolve call_service_steps : steps.
#[local] Hint Extern 1 (is_service_call _) => exact I : steps.

Lemma apply_staged_steps e : steps R (apply_staged collaborator e).
Proof. unfold apply_staged, apply_service. steps_go. Qed.
#[local] Hint Resolve apply_staged_steps : steps.

Lemma executeStaged_steps : steps R (executeStaged collaborator).
Proof. unfold executeStaged. steps_go. Qed.

End service_calls.

End applying.

End frames.

#[local] Hint Resolve getAllModules_steps getModule_steps getService_steps
  stageServiceState_steps stageModuleState_steps stageBuildIfNeeded_steps
  stageMigrationsIfNeeded_steps stageStart_steps stageStartDependenciesIfNeeded_steps
  call_steps call_service_steps update_state_steps saveState_steps runInteractive_steps
  runBuild_steps runMigrate_steps apply_staged_steps executeStaged_steps : steps.
#[local] Hint Extern 1 (¬ is_service_call _) => solve [simpl; tauto] : steps.
#[local] Hint Extern 1 (is_service_call _) => exact I : steps.

Section operations.
Variable collaborator : list Effect → Effect → Reply.
Context (R : relation BboxState) `{!PreOrder R}.
Hypothesis R_push : ∀ s e, R s (set_stagedStates (stagedStates s ++ [e]) s).
Hypothesis R_call : ∀ s e, R s (set_trace (trace s ++ [e]) s).
Hypothesis R_update : ∀ s m st, R s (set_heap (set_state m st (heap s)) s).

Lemma stageBuild_steps m : steps R (stageBuild m).
Proof. unfold stageBuild. steps_go. Qed.

Lemma provideValue_steps v : steps R (provideValue collaborator v).
Proof. unfold provideValue. steps_go. Qed.
#[local] Hint Resolve stageBuild_steps provideValue_steps : steps.

Lemma perform_steps fuel op : steps R (perform collaborator fuel op).
Proof.
  destruct op; simpl; unfold start, stop, build, migrate, value, list_, run; steps_go.
Qed.

End operations.

(** The staged queue after [executeStaged], and after each of its parts,
    is the queue before. *)
Lemma executeStaged_queue collaborator s :
  stagedStates (executeStaged collaborator s).2 = stagedStates s.
Proof.
  by apply (executeStaged_steps collaborator queue_kept).
Qed.

Lemma shape_kept_push s e : shape_kept s (set_stagedStates (stagedStates s ++ [e]) s).
Proof. done. Qed.

Lemma shape_kept_call s e : shape_kept s (set_trace (trace s ++ [e]) s).
Proof. done. Qed.

Lemma shape_kept_set_state s m st : shape_kept s (set_heap (set_state m st (heap s)) s).
Proof.
  split; [done|]. intros r. simpl. rewrite set_state_lookup. case_decide; by subst.
Qed.

(** Every operation leaves the registry and the names, specs and services
    of the modules as they are, so lookups give the same answers after it. *)
Lemma perform_shape collaborator fuel op s :
  shape_kept s (perform collaborator fuel op s).2.
Proof.
  apply (perform_steps collaborator shape_kept shape_kept_push shape_kept_call
           shape_kept_set_state).
Qed.

Lemma shape_kept_find_module s s' mods name :
  shape_kept s s' → find_module (heap s') mods name = find_module (heap s) mods name.
Proof.
  intros [_ Hh]. unfold find_module. induction mods as [|r mods IH]; simpl; [done|].
  destruct (Hh r) as (-> & _ & _). by rewrite IH.
Qed.

Lemma shape_kept_find_service s s' mods name :
  shape_kept s s' → find_service (heap s') mods name = find_service (heap s) mods name.
Proof.
  intros [_ Hh]. induction mods as [|r mods IH]; simpl; [done|].
  destruct (Hh r) as (_ & _ & ->). by rewrite IH.
Qed.

Lemma shape_kept_getModule s s' name :
  shape_kept s s' → (getModule name s').1 = (getModule name s).1.
Proof.
  intros Hs. unfold getModule, getAllModules, bind, gets. simpl.
  pose proof Hs as [Hm Hh]. rewrite Hm. destruct (modules s) as [mods|]; simpl; [|done].
  rewrite (shape_kept_find_module s s') by done.
  destruct (find_module _ _ _); simpl; [done|].
  do 2 f_equal. apply map_ext. intros r. by destruct (Hh r) as (-> & _).
Qed.

Lemma getModule_state name s : (getModule name s).2 = s.
Proof.
  unfold getModule, getAllModules, bind, gets. simpl.
  destruct (modules s); simpl; [|done]. by destruct (find_module _ _ _).
Qed.

Lemma getService_state name s : (getService name s).2 = s.
Proof.
  unfold getService, getAllModules, bind, gets. simpl.
  destruct (modules s); simpl; [|done]. by destruct (find_service _ _ _).
Qed.

(** ** The registry must be initialised *)

(** C9. While [this.modules] is unset, each of start, stop, build, migrate,
    value, list and run throws [Modules not initialized] ([value] wraps it
    as it wraps every failure, the message ending in that text), and the
    state is what it was: nothing is staged, no collaborator is called,
    no module state is written. *)
Theorem uninitialised_registry_fails collaborator (fuel : nat) (op : Operation)
    (s : BboxState) :
  modules s = None →
  ∃ e, perform collaborator fuel op s = (Throw e, s) ∧
       e = match op with
           | Value valueName => CouldNotGetValue valueName ModulesNotInitialized
           | _ => ModulesNotInitialized
           end ∧
       message e = match op with
                   | Value valueName =>
                       "Could not get " +:+ valueName +:+ " value: Modules not initialized"
                   | _ => "Modules not initialized"
                   end.
Proof.
  intros Hm.
  assert (Hall : getAllModules s = (Throw ModulesNotInitialized, s)).
  { unfold getAllModules, bind, gets. by rewrite Hm. }
  assert (Hmod : ∀ name, getModule name s = (Throw ModulesNotInitialized, s)).
  { intros name. unfold getModule. by rewrite (bind_throw _ _ _ _ _ Hall). }
  assert (Hsv : ∀ name, getService name s = (Throw ModulesNotInitialized, s)).
  { intros name. unfold getService. by rewrite (bind_throw _ _ _ _ _ Hall). }
  destruct op; simpl; eexists; (split; [|split; [reflexivity|reflexivity]]).
  - unfold start. by rewrite (bind_throw _ _ _ _ _ (Hsv _)).
  - unfold stop. by rewrite (bind_throw _ _ _ _ _ (Hsv _)).
  - unfold build. by rewrite (bind_throw _ _ _ _ _ (Hmod _)).
  - unfold migrate. by rewrite (bind_throw _ _ _ _ _ (Hmod _)).
  - unfold value, provideValue, try_catch, bind at 1. simpl.
    by rewrite (bind_throw _ _ _ _ _ (Hsv _)).
  - unfold list_. by rewrite (bind_throw _ _ _ _ _ Hall).
  - unfold run. by rewrite (bind_throw _ _ _ _ _ (Hmod _)).
Qed.

Lemma uninitialised_registry_fails_witness :
  modules uninitialised = None ∧
  ∃ e, perform all_return 0 (Start "web") uninitialised = (Throw e, uninitialised) ∧
       e = ModulesNotInitialized ∧
       message e = "Modules not initialized".
Proof.
  split; [reflexivity|].
  apply (uninitialised_registry_fails all_return 0 (Start "web") uninitialised).
  reflexivity.
Defined.

(** ** Migrating with nothing pending *)

(** C8. When the module has no pending migration, [migrate] stages
    nothing: it does what [executeStaged] alone would do on the same
    context, and on a context with an empty queue it returns with the
    state untouched: no collaborator call, no state written,
    [ranMigrations] and [ranAllMigrations] as they were. *)
Theorem migrate_nothing_pending collaborator (name : string) (module : ModRef)
    (s : BboxState) :
  getModule name s = (Ok module, s) →
  getNotAppliedMigrations (heap s module) = [] →
  migrate collaborator name s = executeStaged collaborator s ∧
  (stagedStates s = [] → migrate collaborator name s = (Ok tt, s)).
Proof.
  intros Hm Hp.
  assert (Heq : migrate collaborator name s = executeStaged collaborator s).
  { unfold migrate. rewrite (bind_ok _ _ _ _ _ Hm).
    unfold stageMigrationsIfNeeded, bind at 1 2, gets. simpl. by rewrite Hp. }
  split; [done|]. intros Hq. rewrite Heq.
  unfold executeStaged, bind, gets. by rewrite Hq.
Qed.

Lemma migrate_nothing_pending_witness :
  getModule "infra" sample = (Ok 1, sample) ∧
  getNotAppliedMigrations (heap sample 1) = [] ∧
  migrate all_return "infra" sample = executeStaged all_return sample ∧
  (stagedStates sample = [] → migrate all_return "infra" sample = (Ok tt, sample)).
Proof.
  split; [reflexivity|]. split; [reflexivity|].
  apply (migrate_nothing_pending all_return "infra" 1 sample); reflexivity.
Defined.

(** ** Lookups that fail *)

(** [getModule] puts the names of all modules of the registry, in registry
    order, into the message. *)
Lemma getModule_not_found (name : string) (mods : list ModRef) (s : BboxState) :
  modules s = Some mods →
  find_module (heap s) mods name = None →
  getModule name s
  = (Throw (ModuleNotFound name (map (λ m, Module_.name (heap s m)) mods)), s).
Proof.
  intros Hm Hf. unfold getModule, getAllModules, bind, gets. simpl.
  rewrite Hm. simpl. by rewrite Hf.
Qed.

(** The message of a failed [getService] is made of the requested name
    alone: it is the same whatever the registry holds. *)
Lemma getService_not_found (serviceName : string) (mods : list ModRef) (s : BboxState) :
  modules s = Some mods →
  find_service (heap s) mods serviceName = None →
  getService serviceName s = (Throw (ServiceNotFound serviceName), s) ∧
  message (ServiceNotFound serviceName)
  = "Service " +:+ dquote +:+ serviceName +:+ dquote +:+ " not found.".
Proof.
  intros Hm Hf. split; [|done]. unfold getService, getAllModules, bind, gets. simpl.
  rewrite Hm. simpl. by rewrite Hf.
Qed.

(** C6. In the sample project no module and no service is called [cache].
    [getModule] fails with a message that lists the modules [app] and
    [infra]; [getService] fails with a message that names [cache] only and
    lists none of the services [web], [api], [db]. *)
Theorem getService_message_lists_no_names :
  getModule "cache" sample = (Throw (ModuleNotFound "cache" ["app"; "infra"]), sample) ∧
  message (ModuleNotFound "cache" ["app"; "infra"])
  = "Module " +:+ dquote +:+ "cache" +:+ dquote
    +:+ " not found. All discovered modules: app, infra" ∧
  getService "cache" sample = (Throw (ServiceNotFound "cache"), sample) ∧
  message (ServiceNotFound "cache") = "Service " +:+ dquote +:+ "cache" +:+ dquote +:+ " not found.".
Proof. split_and!; reflexivity. Qed.

(** ** Value resolution *)

(** A truthy static value is returned as it is; nothing is staged, built
    or run. *)
Lemma provideValue_static collaborator (valueName serviceName providerName : string)
    (rest : list string) (module : ModRef) (service : Service.t) (s : BboxState) :
  split_dot valueName = serviceName :: providerName :: rest →
  getService serviceName s = (Ok (module, service), s) →
  has_static_value (Service.spec service) providerName = true →
  provideValue collaborator valueName s
  = (Ok (static_value (Service.spec service) providerName), s).
Proof.
  intros Hsplit Hsv Hst. unfold provideValue, try_catch. rewrite Hsplit. simpl.
  rewrite (bind_ok _ _ _ _ _ Hsv). simpl. by rewrite Hst.
Qed.

(** With no truthy static value and no truthy provider the lookup fails,
    the failure is wrapped with the identifier, and nothing else happens. *)
Lemma provideValue_no_provider collaborator (valueName serviceName providerName : string)
    (rest : list string) (module : ModRef) (service : Service.t) (s : BboxState) :
  split_dot valueName = serviceName :: providerName :: rest →
  getService serviceName s = (Ok (module, service), s) →
  has_static_value (Service.spec service) providerName = false →
  has_value_provider (Service.spec service) providerName = false →
  provideValue collaborator valueName s
  = (Throw (CouldNotGetValue valueName (ValueProviderNotFound providerName)), s).
Proof.
  intros Hsplit Hsv Hst Hvp. unfold provideValue, try_catch. rewrite Hsplit. simpl.
  rewrite (bind_ok _ _ _ _ _ Hsv). simpl. by rewrite Hst, Hvp.
Qed.

(** C7. The service [web] of the sample project declares the static value
    [0] under [port] and [localhost] under [host]. Resolving [web.host]
    returns the value with no call and nothing staged. Resolving
    [web.port] does not return [0]: the value is falsy, the lookup falls
    through to the providers, and fails with [Value provider port not found]. *)
Theorem provideValue_falsy_static_value :
  ServiceSpec.values (Service.spec web) ≫= (.!! "port") = Some (VNum 0) ∧
  provideValue all_return "web.port" sample
  = (Throw (CouldNotGetValue "web.port" (ValueProviderNotFound "port")), sample) ∧
  message (CouldNotGetValue "web.port" (ValueProviderNotFound "port"))
  = "Could not get web.port value: Value provider port not found" ∧
  provideValue all_return "web.host" sample = (Ok (VStr "localhost"), sample).
Proof. split_and!; reflexivity. Qed.

(** ** Runnables *)

Section runnables.
Variable collaborator : list Effect → Effect → Reply.

Lemma call_returns (e : Effect) (s : BboxState) (v : JsValue) :
  collaborator (trace s) e = Returns v →
  call collaborator e s = (Ok v, set_trace (trace s ++ [e]) s).
Proof. unfold call. by intros ->. Qed.

Lemma call_throws (e : Effect) (s : BboxState) (msg : string) :
  collaborator (trace s) e = Throws msg →
  call collaborator e s = (Throw (External msg), set_trace (trace s ++ [e]) s).
Proof. unfold call. by intros ->. Qed.

(** A sequence of collaborator calls stops at the first that throws. *)
Lemma calls_run (es : list Effect) (s : BboxState) :
  let r := for_of es (λ e, call collaborator e ;;; ret tt) s in
  heap r.2 = heap s ∧ modules r.2 = modules s ∧ stagedStates r.2 = stagedStates s ∧
  match r.1 with
  | Ok _ => trace r.2 = trace s ++ es
  | Throw e =>
      ∃ done_ failed rest msg,
        es = done_ ++ failed :: rest ∧
        trace r.2 = trace s ++ done_ ++ [failed] ∧
        collaborator (trace s ++ done_) failed = Throws msg ∧
        e = External msg
  | Diverge => False
  end.
Proof.
  cbv zeta. revert s. induction es as [|e0 es IH]; intros s.
  { simpl. split_and!; try done. by rewrite app_nil_r. }
  cbn [for_of].
  destruct (collaborator (trace s) e0) as [v|msg] eqn:Hc.
  - rewrite (bind_ok _ _ s tt (set_trace (trace s ++ [e0]) s));
      [|by rewrite (bind_ok _ _ _ _ _ (call_returns _ _ _ Hc))].
    destruct (IH (set_trace (trace s ++ [e0]) s)) as (Hh & Hm & Hq & Ht).
    cbn [trace set_trace] in Ht. split_and!; try done.
    destruct (for_of es _ _).1 as [[]|e|]; [| |done].
    + by rewrite Ht, <-app_assoc.
    + destruct Ht as (d & f & rest & msg & -> & Ht & Hf & ->).
      exists (e0 :: d), f, rest, msg. split_and!; try done.
      * by rewrite Ht, <-app_assoc.
      * by rewrite <-Hf, <-app_assoc.
  - rewrite (bind_throw _ _ s (External msg) (set_trace (trace s ++ [e0]) s));
      [|by rewrite (bind_throw _ _ _ _ _ (call_throws _ _ _ Hc))].
    split_and!; try done.
    exists [], e0, es, msg. split_and!; try done. by rewrite app_nil_r.
Qed.

Lemma runInteractive_calls (module : ModRef) (runnable : option RunnableSpec) s :
  runInteractive collaborator module runnable s
  = for_of (runnable_calls module runnable) (λ e, call collaborator e ;;; ret tt) s.
Proof.
  assert (Hone : ∀ r s, run_one collaborator module r s
                        = (call collaborator (runnable_call module r) ;;; ret tt) s).
  { by intros []. }
  assert (Hlast : ∀ (c : M unit) s, c s = (c ;;; ret tt) s).
  { intros c s'. unfold bind. by destruct (c s') as [[[]| |] ?]. }
  destruct runnable as [[r|rs]|]; simpl.
  - by rewrite Hone, <-Hlast.
  - rewrite for_of_fmap. by apply for_of_ext.
  - by rewrite <-Hlast.
Qed.

(** [runInteractive] makes the calls of the runnable in order, up to and
    including the first that throws; it writes nothing else. *)
Lemma runInteractive_run (module : ModRef) (runnable : option RunnableSpec) s :
  let r := runInteractive collaborator module runnable s in
  heap r.2 = heap s ∧ modules r.2 = modules s ∧ stagedStates r.2 = stagedStates s ∧
  match r.1 with
  | Ok _ => trace r.2 = trace s ++ runnable_calls module runnable
  | Throw e =>
      ∃ done_ failed rest msg,
        runnable_calls module runnable = done_ ++ failed :: rest ∧
        trace r.2 = trace s ++ done_ ++ [failed] ∧
        collaborator (trace s ++ done_) failed = Throws msg ∧
        e = External msg
  | Diverge => False
  end.
Proof. simpl. rewrite runInteractive_calls. apply calls_run. Qed.

End runnables.

(** ** Building *)

Section building.
Variable collaborator : list Effect → Effect → Reply.

(** A build that returns has made the calls of the build runnable, set
    [built] and written the state once. *)
Lemma runBuild_ok (module : ModRef) (s s' : BboxState) :
  runBuild collaborator module s = (Ok tt, s') →
  let build := ModuleSpec.build (Module_.spec (heap s module)) in
  let st := with_built true (Module_.state (heap s module)) in
  runnable_truthy build = true ∧
  trace s' = trace s ++ runnable_calls module build ++ [SaveState module st] ∧
  heap s' = set_state module st (heap s) ∧
  stagedStates s' = stagedStates s ∧
  modules s' = modules s.
Proof.
  cbv zeta. unfold runBuild. unfold bind at 1. unfold gets.
  destruct (runnable_truthy _) eqn:Htruthy; simpl; [|done].
  pose proof (runInteractive_run collaborator module
                (ModuleSpec.build (Module_.spec (heap s module))) s) as Hrun.
  cbv zeta in Hrun. unfold bind at 1.
  destruct (runInteractive _ _ _ _) as [[[]|e|] s1]; simpl in Hrun; [|done|done].
  destruct Hrun as (Hh & Hm & Hq & Htr).
  unfold update_state, saveState, modify, gets, call, bind. simpl.
  rewrite !set_state_eq.
  destruct (collaborator _ _); intros [= <-]; simpl.
  rewrite Hh, Hm, Hq, Htr. split_and!; try done. by rewrite <-app_assoc.
Qed.

(** On a fresh context [build] is: reset [built], stage [{built: true}],
    run the build. Whether [built] was set before plays no part. *)
Lemma build_runs_runBuild (name : string) (module : ModRef) (s : BboxState) :
  getModule name s = (Ok module, s) →
  stagedStates s = [] →
  build collaborator name s
  = runBuild collaborator module
      (set_stagedStates [module_entry module built_true]
         (set_heap (set_state module (with_built false (Module_.state (heap s module)))
                      (heap s)) s)).
Proof.
  intros Hm Hq. unfold build. rewrite (bind_ok _ _ _ _ _ Hm).
  unfold stageBuild, update_state, stageModuleState, executeStaged. run.
  cbn [stagedStates set_stagedStates set_heap]. rewrite Hq. cbn [app for_of].
  unfold apply_staged, apply_module. cbn. run. cbn. rewrite set_state_eq. cbn. by run.
Qed.

(** While [built] is set, the automatic staging of a build stages
    nothing. *)
Lemma stageBuildIfNeeded_built (module : ModRef) (s : BboxState) :
  ModuleState.built (Module_.state (heap s module)) = true →
  stageBuildIfNeeded module s = (Ok tt, s).
Proof. intros Hb. unfold stageBuildIfNeeded. run. by rewrite Hb. Qed.

End building.

(** C2, counterexample. In the sample project [build app] is called twice,
    each time with a fresh context. After the first call [built] is true;
    the second call runs [make] again: the trace holds the build command
    twice. The same happens when the second call reuses the context of
    the first. *)
Lemma build_twice_runs_make_twice :
  let s1 := (build all_return "app" sample).2 in
  let s2 := (build all_return "app" (fresh_context s1)).2 in
  let s2' := (build all_return "app" s1).2 in
  ModuleState.built (Module_.state (heap s1 0)) = true ∧
  trace s1 = [PmRunInteractive 0 (Some "make");
              SaveState 0 (with_built true fresh_state)] ∧
  trace s2 = [PmRunInteractive 0 (Some "make");
              SaveState 0 (with_built true fresh_state);
              PmRunInteractive 0 (Some "make");
              SaveState 0 (with_built true fresh_state)] ∧
  trace s2' = trace s2.
Proof. split_and!; reflexivity. Qed.

(** C2, as the code has it. [build] resets [built] and runs the build
    runnable whatever [built] was: of two calls in sequence that return,
    each makes the calls of the build runnable and writes the state once,
    so the build runnable is executed twice. It is the automatic staging
    ([stageBuildIfNeeded], used by start and value) that stages no build
    while [built] is true. *)
Theorem build_twice_builds_twice collaborator (name : string) (module : ModRef)
    (s s1 s2 : BboxState) :
  getModule name s = (Ok module, s) →
  stagedStates s = [] →
  build collaborator name s = (Ok tt, s1) →
  build collaborator name (fresh_context s1) = (Ok tt, s2) →
  let b := ModuleSpec.build (Module_.spec (heap s module)) in
  let saved := SaveState module (with_built true (Module_.state (heap s module))) in
  runnable_truthy b = true ∧
  ModuleState.built (Module_.state (heap s1 module)) = true ∧
  trace s2 = trace s ++ (runnable_calls module b ++ [saved])
                     ++ (runnable_calls module b ++ [saved]) ∧
  stageBuildIfNeeded module s1 = (Ok tt, s1).
Proof.
  intros Hm Hq H1 H2. cbv zeta.
  rewrite (build_runs_runBuild _ _ _ _ Hm Hq) in H1.
  apply runBuild_ok in H1. cbn [heap set_heap set_stagedStates trace stagedStates] in H1.
  rewrite set_state_spec, set_state_eq in H1.
  destruct H1 as (Htruthy & Ht1 & Hh1 & Hq1 & Hm1).
  assert (Hst1 : Module_.state (heap s1 module)
                 = with_built true (Module_.state (heap s module))).
  { by rewrite Hh1, set_state_eq. }
  assert (Hsp1 : Module_.spec (heap s1 module) = Module_.spec (heap s module)).
  { by rewrite Hh1, !set_state_spec. }
  assert (Hshape : shape_kept s (fresh_context s1)).
  { split; [done|]. intros r. simpl. rewrite Hh1, !set_state_lookup.
    repeat case_decide; by subst. }
  assert (Hm2 : getModule name (fresh_context s1) = (Ok module, fresh_context s1)).
  { rewrite (surjective_pairing (getModule _ _)), getModule_state.
    by rewrite (shape_kept_getModule s), Hm. }
  rewrite (build_runs_runBuild _ _ _ _ Hm2 eq_refl) in H2.
  apply runBuild_ok in H2. cbn [heap set_heap set_stagedStates trace stagedStates] in H2.
  rewrite set_state_spec, set_state_eq in H2.
  destruct H2 as (_ & Ht2 & _). cbn [fresh_context heap trace set_stagedStates] in Ht2.
  rewrite Hsp1, Hst1, Ht1 in Ht2.
  split_and!; [done|by rewrite Hst1| |apply stageBuildIfNeeded_built; by rewrite Hst1].
  by rewrite Ht2, <-!app_assoc.
Qed.

Lemma build_twice_builds_twice_witness :
  let s1 := (build all_return "app" sample).2 in
  let s2 := (build all_return "app" (fresh_context s1)).2 in
  ModuleState.built (Module_.state (heap s1 0)) = true ∧
  trace s2 = [] ++ ([PmRunInteractive 0 (Some "make")]
                      ++ [SaveState 0 (with_built true fresh_state)])
                ++ ([PmRunInteractive 0 (Some "make")]
                      ++ [SaveState 0 (with_built true fresh_state)]).
Proof.
  cbv zeta.
  pose proof (build_twice_builds_twice all_return "app" 0 sample
                (build all_return "app" sample).2
                (build all_return "app"
                   (fresh_context (build all_return "app" sample).2)).2
                eq_refl eq_refl eq_refl eq_refl) as H.
  cbv zeta in H. exact (conj (proj1 (proj2 H)) (proj1 (proj2 (proj2 H)))).
Defined.

(** ** Applying the staged queue *)

(** C5, counterexample. In the sample project [stop web] stages one change
    and applies it. The queue still holds that change afterwards, and a
    second [executeStaged] on the same context stops [web] once more. *)
Lemma executeStaged_does_not_drain :
  let s1 := (stop all_return "web" sample).2 in
  let s2 := (executeStaged all_return s1).2 in
  stagedStates s1 = [service_entry web (processStatus_is Offline)] ∧
  trace s1 = [PmStopAndWait web] ∧
  trace s2 = [PmStopAndWait web; PmStopAndWait web].
Proof. split_and!; reflexivity. Qed.

(** C5, as the code has it. [executeStaged] applies the entries of the
    queue one after the other in insertion order (a queue [q1 ++ q2] is
    [q1] applied, then [q2], unless an entry of [q1] throws), each once per
    call, and removes nothing: the queue after the call is the queue
    before, so a second call on the same context applies the same entries
    again, to the state the first call left. On an empty queue it does
    nothing. *)
Theorem executeStaged_walks_and_keeps_queue collaborator (s : BboxState) :
  stagedStates (executeStaged collaborator s).2 = stagedStates s ∧
  (∀ q1 q2, stagedStates s = q1 ++ q2 →
     executeStaged collaborator s
     = (for_of q1 (apply_staged collaborator) ;;;
        for_of q2 (apply_staged collaborator)) s) ∧
  executeStaged collaborator (executeStaged collaborator s).2
  = for_of (stagedStates s) (apply_staged collaborator) (executeStaged collaborator s).2 ∧
  (stagedStates s = [] → executeStaged collaborator s = (Ok tt, s)).
Proof.
  split_and!.
  - apply executeStaged_queue.
  - intros q1 q2 Hq. unfold executeStaged. run. rewrite Hq. apply for_of_app.
  - unfold executeStaged at 1. run. by rewrite executeStaged_queue.
  - intros Hq. unfold executeStaged. run. by rewrite Hq.
Qed.

(** ** Staged service changes are always handled *)

Section handled.
Variable collaborator : list Effect → Effect → Reply.

Lemma keeps_handled_ret {A} (a : A) : keeps_handled (ret a).
Proof. by intros s Hs. Qed.

Lemma keeps_handled_throw {A} e : ¬ from_default_branch e → keeps_handled (@throw A e).
Proof. intros He s Hs. split; [done|]. by intros e' [= <-]. Qed.

Lemma keeps_handled_diverge {A} : keeps_handled (@diverge A).
Proof. by intros s Hs. Qed.

Lemma keeps_handled_gets {A} (f : BboxState → A) : keeps_handled (gets f).
Proof. by intros s Hs. Qed.

Lemma keeps_handled_bind {A B} (c : M A) (k : A → M B) :
  keeps_handled c → (∀ a, keeps_handled (k a)) → keeps_handled (bind c k).
Proof.
  intros Hc Hk s Hs. unfold bind. destruct (Hc s Hs) as [Hq He].
  destruct (c s) as [[a|e|] s1]; simpl in *.
  - by apply Hk.
  - split; [done|]. intros e' [= <-]. by apply He.
  - by split.
Qed.

Lemma keeps_handled_for_of {A} (P : A → Prop) (l : list A) (body : A → M unit) :
  Forall P l → (∀ x, P x → keeps_handled (body x)) → keeps_handled (for_of l body).
Proof.
  intros Hl Hb. induction Hl as [|x l Hx Hl IH]; simpl; [apply keeps_handled_ret|].
  apply keeps_handled_bind; [by apply Hb|done].
Qed.

Lemma keeps_handled_try_catch {A} (c : M A) (h : Error → M A) :
  keeps_handled c → (∀ e, ¬ from_default_branch e → keeps_handled (h e)) →
  keeps_handled (try_catch c h).
Proof.
  intros Hc Hh s Hs. unfold try_catch. destruct (Hc s Hs) as [Hq He].
  destruct (c s) as [[a|e|] s1]; simpl in *; [by split| |by split].
  apply Hh; [by apply He|done].
Qed.

(** What keeps the queue and throws collaborator errors only. *)
Lemma keeps_handled_call e : keeps_handled (call collaborator e).
Proof.
  intros s Hs. unfold call. destruct (collaborator _ _); simpl; (split; [done|]).
  - done.
  - intros e' [= <-]. simpl. tauto.
Qed.

Lemma keeps_handled_update m f : keeps_handled (update_state m f).
Proof. by intros s Hs. Qed.

Lemma keeps_handled_stage_module m st : keeps_handled (stageModuleState m st).
Proof.
  intros s Hs. split; [|done]. simpl. apply Forall_app. split; [done|].
  by apply Forall_singleton.
Qed.

Lemma keeps_handled_stage_service sv st :
  st = Online ∨ st = Offline →
  keeps_handled (stageServiceState sv (processStatus_is st)).
Proof.
  intros Hst s Hs. split; [|done]. simpl. apply Forall_app. split; [done|].
  apply Forall_singleton. unfold handled_change. simpl.
  destruct Hst as [-> | ->]; auto.
Qed.

End handled.

Create HintDb handled.
#[local] Hint Resolve keeps_handled_call keeps_handled_update keeps_handled_stage_module
  : handled.

Ltac handled_go :=
  repeat match goal with
  | |- ∀ _, _ => intro
  | |- ¬ from_default_branch _ => solve [simpl; tauto]
  | |- keeps_handled (ret _) => apply keeps_handled_ret
  | |- keeps_handled (throw _) => apply keeps_handled_throw
  | |- keeps_handled diverge => apply keeps_handled_diverge
  | |- keeps_handled (gets _) => apply keeps_handled_gets
  | |- keeps_handled (bind _ _) => apply keeps_handled_bind
  | |- keeps_handled (try_catch _ _) => apply keeps_handled_try_catch
  | |- keeps_handled (for_of _ _) => apply (keeps_handled_for_of (λ _, True))
  | |- Forall (λ _, True) _ => by apply Forall_true
  | |- keeps_handled (stageServiceState _ (processStatus_is _)) =>
      apply keeps_handled_stage_service; solve [auto]
  | |- keeps_handled (match ?x with _ => _ end) => destruct x
  | |- keeps_handled (let _ := _ in _) => cbv zeta
  | |- keeps_handled _ => solve [eauto with handled]
  end.

Section handled_engine.
Variable collaborator : list Effect → Effect → Reply.

Lemma keeps_handled_getAllModules : keeps_handled getAllModules.
Proof. unfold getAllModules. handled_go. Qed.
#[local] Hint Resolve keeps_handled_getAllModules : handled.

Lemma keeps_handled_getModule name : keeps_handled (getModule name).
Proof. unfold getModule. handled_go. Qed.

Lemma keeps_handled_getService name : keeps_handled (getService name).
Proof. unfold getService. handled_go. Qed.
#[local] Hint Resolve keeps_handled_getModule keeps_handled_getService : handled.

Lemma keeps_handled_stageStart sv : keeps_handled (stageStart sv).
Proof.
  unfold stageStart, stageBuildIfNeeded, stageMigrationsIfNeeded. handled_go.
Qed.
#[local] Hint Resolve keeps_handled_stageStart : handled.

Lemma keeps_handled_stageStartDependenciesIfNeeded fuel sv :
  keeps_handled (stageStartDependenciesIfNeeded fuel sv).
Proof. revert sv. induction fuel as [|fuel IH]; intros sv; simpl; handled_go. Qed.
#[local] Hint Resolve keeps_handled_stageStartDependenciesIfNeeded : handled.

Lemma keeps_handled_runInteractive m r :
  keeps_handled (runInteractive collaborator m r).
Proof. unfold runInteractive, run_one. handled_go. Qed.
#[local] Hint Resolve keeps_handled_runInteractive : handled.

Lemma keeps_handled_saveState m : keeps_handled (saveState collaborator m).
Proof. unfold saveState. handled_go. Qed.
#[local] Hint Resolve keeps_handled_saveState : handled.

Lemma keeps_handled_runBuild m : keeps_handled (runBuild collaborator m).
Proof. unfold runBuild. handled_go. Qed.

Lemma keeps_handled_runMigrate m : keeps_handled (runMigrate collaborator m).
Proof. unfold runMigrate, migrate_one. handled_go. Qed.
#[local] Hint Resolve keeps_handled_runBuild keeps_handled_runMigrate : handled.

(** The one place where the default branch could be taken: it is not, for
    a handled change. *)
Lemma keeps_handled_apply_staged e :
  handled_change e → keeps_handled (apply_staged collaborator e).
Proof.
  intros He. unfold apply_staged, apply_module. apply keeps_handled_bind; [handled_go|].
  intros _. unfold handled_change in He.
  destruct (Staged.service e) as [[sv st]|]; [|handled_go].
  unfold apply_service. destruct He as [-> | ->]; handled_go.
Qed.

Lemma keeps_handled_executeStaged : keeps_handled (executeStaged collaborator).
Proof.
  intros s Hs. unfold executeStaged. rewrite bind_gets.
  apply (keeps_handled_for_of handled_change); [done| |done].
  apply keeps_handled_apply_staged.
Qed.
#[local] Hint Resolve keeps_handled_executeStaged : handled.

Lemma keeps_handled_provideValue v : keeps_handled (provideValue collaborator v).
Proof. unfold provideValue, stageBuildIfNeeded. handled_go. Qed.
#[local] Hint Resolve keeps_handled_provideValue : handled.

Lemma keeps_handled_perform fuel op : keeps_handled (perform collaborator fuel op).
Proof.
  destruct op; simpl;
    unfold start, stop, build, migrate, value, list_, run, stageBuild,
      stageMigrationsIfNeeded;
    handled_go.
Qed.

End handled_engine.

(** C10. Whatever top-level operation runs, on a context whose staged
    service changes all ask for [Online] or [Offline] (a fresh context in
    particular), the staged service changes still all ask for [Online] or
    [Offline] afterwards, none for [Unknown], and the operation does not
    fail with the error of the default branch of the [processStatus]
    switch. *)
Theorem staged_status_always_handled collaborator (fuel : nat) (op : Operation)
    (s : BboxState) :
  Forall handled_change (stagedStates s) →
  Forall handled_change (stagedStates (perform collaborator fuel op s).2) ∧
  ∀ e, (perform collaborator fuel op s).1 = Throw e → ¬ from_default_branch e.
Proof. apply keeps_handled_perform. Qed.

Lemma staged_status_always_handled_witness :
  Forall handled_change (stagedStates (perform all_return 3 (Start "web") sample).2) ∧
  ∀ e, (perform all_return 3 (Start "web") sample).1 = Throw e → ¬ from_default_branch e.
Proof.
  apply (staged_status_always_handled all_return 3 (Start "web") sample).
  constructor.
Defined.

(** ** Migrations *)

Lemma saves_app (t1 t2 : list Effect) : saves (t1 ++ t2) = saves t1 ++ saves t2.
Proof. apply omap_app. Qed.

Lemma saves_runnable_calls (module : ModRef) (runnable : option RunnableSpec) :
  saves (runnable_calls module runnable) = [].
Proof.
  destruct runnable as [[[]|rs]|]; try done. simpl.
  induction rs as [|[] rs IH]; done.
Qed.

Lemma saves_prefix_runnable_calls (module : ModRef) (runnable : option RunnableSpec)
    (t : list Effect) :
  t `prefix_of` runnable_calls module runnable → saves t = [].
Proof.
  intros [t' Ht]. pose proof (saves_runnable_calls module runnable) as Hs.
  rewrite Ht, saves_app in Hs. by apply app_eq_nil in Hs as [? _].
Qed.

Section migrations.
Variable collaborator : list Effect → Effect → Reply.

(** A round of the migration loop that returns has made the calls of the
    migration's runnable, appended its id to [ranMigrations] and written
    the state once. *)
Lemma migrate_one_ok (module : ModRef) (migrations : gmap string RunnableSpec)
    (migId : string) (s s' : BboxState) :
  migrate_one collaborator module migrations migId s = (Ok tt, s') →
  let st := push_ranMigration migId (Module_.state (heap s module)) in
  trace s' = trace s ++ runnable_calls module (migrations !! migId)
                     ++ [SaveState module st] ∧
  heap s' = set_state module st (heap s) ∧
  stagedStates s' = stagedStates s ∧
  modules s' = modules s.
Proof.
  cbv zeta. unfold migrate_one.
  pose proof (runInteractive_run collaborator module (migrations !! migId) s) as Hrun.
  cbv zeta in Hrun. unfold bind at 1.
  destruct (runInteractive _ _ _ _) as [[[]|e|] s1]; simpl in Hrun; [|done|done].
  destruct Hrun as (Hh & Hm & Hq & Htr).
  unfold update_state, saveState, modify, gets, call, bind. simpl.
  rewrite !set_state_eq.
  destruct (collaborator _ _); intros [= <-]; simpl.
  rewrite Hh, Hm, Hq, Htr. split_and!; try done. by rewrite <-app_assoc.
Qed.

(** On a fresh context, with something pending, [migrate] is: stage
    [{ranAllMigrations: true}], run the migrations. *)
Lemma migrate_runs_runMigrate (name : string) (module : ModRef) (s : BboxState) :
  getModule name s = (Ok module, s) →
  stagedStates s = [] →
  getNotAppliedMigrations (heap s module) ≠ [] →
  migrate collaborator name s
  = runMigrate collaborator module
      (set_stagedStates [module_entry module ranAllMigrations_true] s).
Proof.
  intros Hm Hq Hp. unfold migrate. rewrite (bind_ok _ _ _ _ _ Hm).
  unfold stageMigrationsIfNeeded, stageModuleState, executeStaged. run.
  destruct (getNotAppliedMigrations (heap s module)) as [|m1 rest]; [done|].
  run. cbn [stagedStates set_stagedStates]. rewrite Hq. cbn [app for_of].
  unfold apply_staged, apply_module. cbn. by run.
Qed.

(** The loop stops at the first round that throws: the round of [m1]
    returns, the runnable of [m2] throws, and that is how [runMigrate]
    ends. *)
Lemma runMigrate_second_throws (module : ModRef) (migrations : gmap string RunnableSpec)
    (m1 m2 : string) (later : list string) (s s1 s2 : BboxState) (e : Error) :
  ModuleSpec.migrations (Module_.spec (heap s module)) = Some migrations →
  getNotAppliedMigrations (heap s module) = m1 :: m2 :: later →
  migrate_one collaborator module migrations m1 s = (Ok tt, s1) →
  runInteractive collaborator module (migrations !! m2) s1 = (Throw e, s2) →
  runMigrate collaborator module s = (Throw e, s2).
Proof.
  intros Hmigs Hpending H1 H2.
  unfold runMigrate. run. rewrite Hmigs, Hpending. cbn [for_of]. run.
  rewrite (bind_ok _ _ _ _ _ H1).
  unfold migrate_one at 1. run. by rewrite (bind_throw _ _ _ _ _ H2).
Qed.

(** The same seen from the top-level operation, on a fresh context. *)
Lemma migrate_second_throws (name : string) (module : ModRef)
    (migrations : gmap string RunnableSpec) (m1 m2 : string) (later : list string)
    (s s1 s2 : BboxState) (e : Error) :
  getModule name s = (Ok module, s) →
  stagedStates s = [] →
  ModuleSpec.migrations (Module_.spec (heap s module)) = Some migrations →
  getNotAppliedMigrations (heap s module) = m1 :: m2 :: later →
  migrate_one collaborator module migrations m1
    (set_stagedStates [module_entry module ranAllMigrations_true] s) = (Ok tt, s1) →
  runInteractive collaborator module (migrations !! m2) s1 = (Throw e, s2) →
  migrate collaborator name s = (Throw e, s2).
Proof.
  intros Hm Hq Hmigs Hpending H1 H2.
  rewrite (migrate_runs_runMigrate _ _ _ Hm Hq) by by rewrite Hpending.
  by apply (runMigrate_second_throws _ migrations m1 m2 later _ s1).
Qed.

End migrations.

(** C3. The pending migrations of a module are [m1; m2; m3]; the round of
    [m1] returns and the runnable of [m2] throws [e]. Then [runMigrate]
    throws that same [e], and in the state it leaves [ranMigrations] is
    what it was plus [m1], [ranAllMigrations] is what it was (false if it
    was false), the trace has grown by the calls of [m1]'s runnable, one
    state write recording [m1], and the calls of [m2]'s runnable up to the
    one that threw: nothing of [m3] was run and nothing was written after
    the failure. Pending afterwards: [m2; m3]. *)
Theorem runMigrate_stops_at_failed_migration collaborator (module : ModRef)
    (migrations : gmap string RunnableSpec) (m1 m2 m3 : string)
    (s s1 s2 : BboxState) (e : Error) :
  ModuleSpec.migrations (Module_.spec (heap s module)) = Some migrations →
  getNotAppliedMigrations (heap s module) = [m1; m2; m3] →
  migrate_one collaborator module migrations m1 s = (Ok tt, s1) →
  runInteractive collaborator module (migrations !! m2) s1 = (Throw e, s2) →
  let st := Module_.state (heap s module) in
  let st' := Module_.state (heap s2 module) in
  runMigrate collaborator module s = (Throw e, s2) ∧
  ModuleState.ranMigrations st' = ModuleState.ranMigrations st ++ [m1] ∧
  ModuleState.ranAllMigrations st' = ModuleState.ranAllMigrations st ∧
  (ModuleState.ranAllMigrations st = false → ModuleState.ranAllMigrations st' = false) ∧
  saves (trace s2) = saves (trace s) ++ [(module, push_ranMigration m1 st)] ∧
  (∃ calls2,
     calls2 `prefix_of` runnable_calls module (migrations !! m2) ∧
     trace s2 = trace s ++ runnable_calls module (migrations !! m1)
                        ++ [SaveState module (push_ranMigration m1 st)] ++ calls2) ∧
  getNotAppliedMigrations (heap s2 module) = [m2; m3].
Proof.
  intros Hmigs Hpending H1 H2. cbv zeta.
  pose proof (migrate_one_ok _ _ _ _ _ _ H1) as (Ht1 & Hh1 & Hq1 & Hm1).
  pose proof (runInteractive_run collaborator module (migrations !! m2) s1) as Hrun.
  cbv zeta in Hrun. rewrite H2 in Hrun. simpl in Hrun.
  destruct Hrun as (Hh2 & Hm2 & Hq2 & done_ & failed & rest & msg & Hcalls & Ht2 & _ & ->).
  assert (Hst : Module_.state (heap s2 module)
                = push_ranMigration m1 (Module_.state (heap s module))).
  { by rewrite Hh2, Hh1, set_state_eq. }
  assert (Hprefix : (done_ ++ [failed]) `prefix_of` runnable_calls module (migrations !! m2)).
  { exists rest. by rewrite Hcalls, <-app_assoc. }
  split_and!.
  - by apply (runMigrate_second_throws _ _ migrations m1 m2 [m3] _ s1).
  - by rewrite Hst.
  - by rewrite Hst.
  - intros Hfalse. by rewrite Hst.
  - rewrite Ht2, Ht1, !saves_app, saves_runnable_calls.
    rewrite <-saves_app, (saves_prefix_runnable_calls _ _ _ Hprefix).
    by rewrite app_nil_r.
  - exists (done_ ++ [failed]). split; [done|]. by rewrite Ht2, Ht1, <-!app_assoc.
  - unfold getNotAppliedMigrations in *.
    rewrite Hh2, Hh1, set_state_spec, set_state_eq, Hmigs in *. simpl.
    unfold difference in *.
    assert (Hnodup : NoDup [m1; m2; m3]).
    { rewrite <-Hpending. apply NoDup_filter, NoDup_sorted_keys. }
    rewrite (list_filter_iff _ (λ x, x ≠ m1 ∧ x ∉ ModuleState.ranMigrations
                                                   (Module_.state (heap s module)))).
    2:{ intros x. rewrite not_elem_of_app, list_elem_of_singleton. tauto. }
    rewrite <-list_filter_filter, Hpending.
    apply NoDup_cons in Hnodup as [Hfirst _].
    rewrite !not_elem_of_cons in Hfirst. destruct Hfirst as (? & ? & _).
    rewrite filter_cons_False by tauto.
    rewrite filter_cons_True by done. by rewrite filter_cons_True by done.
Qed.

Lemma runMigrate_stops_at_failed_migration_witness :
  let s1 := (migrate_one fails_002b 0 app_migrations "001" sample).2 in
  let s2 := (runInteractive fails_002b 0 (app_migrations !! "002") s1).2 in
  runMigrate fails_002b 0 sample = (Throw (External "syntax error"), s2) ∧
  ModuleState.ranMigrations (Module_.state (heap s2 0)) = [] ++ ["001"] ∧
  ModuleState.ranAllMigrations (Module_.state (heap s2 0)) = false ∧
  saves (trace s2) = [] ++ [(0, push_ranMigration "001" fresh_state)] ∧
  getNotAppliedMigrations (heap s2 0) = ["002"; "003"].
Proof.
  cbv zeta.
  pose proof (runMigrate_stops_at_failed_migration fails_002b 0 app_migrations
                "001" "002" "003" sample
                (migrate_one fails_002b 0 app_migrations "001" sample).2
                (runInteractive fails_002b 0 (app_migrations !! "002")
                   (migrate_one fails_002b 0 app_migrations "001" sample).2).2
                (External "syntax error")
                eq_refl eq_refl eq_refl eq_refl) as H.
  cbv zeta in H. destruct H as (H1 & H2 & H3 & _ & H5 & _ & H7).
  exact (conj H1 (conj H2 (conj H3 (conj H5 H7)))).
Defined.

(** ** Applying never runs for ever *)

Create HintDb ends.

Lemma ends_ret {A} (a : A) : ends (ret a).
Proof. by intros s. Qed.

Lemma ends_throw {A} e : ends (@throw A e).
Proof. by intros s. Qed.

Lemma ends_gets {A} (f : BboxState → A) : ends (gets f).
Proof. by intros s. Qed.

Lemma ends_modify f : ends (modify f).
Proof. by intros s. Qed.

Lemma ends_call collaborator e : ends (call collaborator e).
Proof. intros s. unfold call. by destruct (collaborator _ _). Qed.

Lemma ends_bind {A B} (c : M A) (k : A → M B) :
  ends c → (∀ a, ends (k a)) → ends (bind c k).
Proof.
  intros Hc Hk s. unfold bind. specialize (Hc s).
  destruct (c s) as [[a|e|] s1]; simpl in *; [apply Hk|done|done].
Qed.

Lemma ends_for_of {A} (l : list A) (body : A → M unit) :
  (∀ x, ends (body x)) → ends (for_of l body).
Proof.
  intros Hb. induction l as [|x l IH]; simpl; [apply ends_ret|]. by apply ends_bind.
Qed.

#[local] Hint Resolve ends_call : ends.

Ltac ends_go :=
  repeat match goal with
  | |- ∀ _, _ => intro
  | |- ends (ret _) => apply ends_ret
  | |- ends (throw _) => apply ends_throw
  | |- ends (gets _) => apply ends_gets
  | |- ends (modify _) => apply ends_modify
  | |- ends (bind _ _) => apply ends_bind
  | |- ends (for_of _ _) => apply ends_for_of
  | |- ends (match ?x with _ => _ end) => destruct x
  | |- ends (let _ := _ in _) => cbv zeta
  | |- ends _ => solve [eauto with ends]
  end.

Lemma ends_executeStaged collaborator : ends (executeStaged collaborator).
Proof.
  unfold executeStaged, apply_staged, apply_module, apply_service, runBuild, runMigrate,
    migrate_one, runInteractive, run_one, saveState, update_state.
  ends_go.
Qed.

(** ** Which services a run starts *)

Lemma started_app (t1 t2 : list Effect) : started (t1 ++ t2) = started t1 ++ started t2.
Proof. apply omap_app. Qed.

#[local] Instance same_started_po : PreOrder same_started.
Proof. split; unfold same_started; [by intros s|intros s1 s2 s3; congruence]. Qed.

Lemma same_started_call s e :
  ¬ is_service_call e → same_started s (set_trace (trace s ++ [e]) s).
Proof.
  intros He. unfold same_started. simpl. rewrite started_app.
  destruct e; simpl in *; try tauto; by rewrite app_nil_r.
Qed.

(** Builds and migrations start no service. *)
Lemma apply_module_started collaborator m st s :
  started (trace (apply_module collaborator m st s).2) = started (trace s).
Proof. by apply (apply_module_steps collaborator same_started same_started_call). Qed.

(** Applying a queue starts the services the queue asks to start, in queue
    order, up to the entry that throws; all of them when it returns. *)
Lemma for_of_apply_staged_started collaborator (q : list Staged.t)
    (s s' : BboxState) (res : Result unit) :
  for_of q (apply_staged collaborator) s = (res, s') →
  ∃ now_started,
    now_started `prefix_of` starts_of q ∧
    started (trace s') = started (trace s) ++ now_started ∧
    (res = Ok tt → now_started = starts_of q).
Proof.
  revert s. induction q as [|entry q IH]; intros s H.
  { injection H as <- <-. exists []. by rewrite app_nil_r. }
  cbn [for_of] in H. unfold apply_staged at 1 in H. rewrite bind_assoc in H.
  assert (Hhead : ∃ res1 s1,
            (match Staged.module entry with
             | Some (module, state) => apply_module collaborator module state
             | None => ret tt
             end) s = (res1, s1) ∧ started (trace s1) = started (trace s)).
  { destruct (Staged.module entry) as [[m st]|]; [|by eexists _, _].
    eexists _, _. split; [apply surjective_pairing|apply apply_module_started]. }
  destruct Hhead as (res1 & s1 & Hrun & Hs1).
  destruct res1 as [[]|e|].
  2:{ rewrite (bind_throw _ _ _ _ _ Hrun) in H. injection H as <- <-.
      exists []. split_and!; [apply prefix_nil|by rewrite app_nil_r|done]. }
  2:{ rewrite (bind_diverge _ _ _ _ Hrun) in H. injection H as <- <-.
      exists []. split_and!; [apply prefix_nil|by rewrite app_nil_r|done]. }
  rewrite (bind_ok _ _ _ _ _ Hrun) in H. unfold starts_of. cbn [omap list_omap].
  fold (starts_of q).
  destruct (Staged.service entry) as [[sv [[[]|]]]|]; cbn; unfold apply_service in H;
    cbn [PartialServiceState.processStatus] in H.
  - (* Unknown *)
    rewrite (bind_throw _ _ s1 (UnhandledServiceProcessStatus Unknown) s1) in H by done.
    injection H as <- <-.
    exists []. split_and!; [apply prefix_nil|by rewrite app_nil_r|done].
  - (* Online *)
    rewrite !bind_assoc in H.
    destruct (collaborator (trace s1) (PmStartAndWait sv)) as [v|msg] eqn:Hc.
    + rewrite (bind_ok _ _ _ _ _ (call_returns _ _ _ _ Hc)) in H. run in H.
      apply IH in H as (X & HX & Ht & Hok).
      exists (sv :: X). split_and!.
      * by apply prefix_cons.
      * rewrite Ht. cbn [trace set_trace]. rewrite started_app, Hs1. cbn.
        by rewrite <-app_assoc.
      * intros Hr. by rewrite Hok.
    + rewrite (bind_throw _ _ _ _ _ (call_throws _ _ _ _ Hc)) in H. injection H as <- <-.
      exists [sv]. split_and!; [apply prefix_cons, prefix_nil| |done].
      cbn. by rewrite started_app, Hs1.
  - (* Offline *)
    rewrite !bind_assoc in H.
    destruct (collaborator (trace s1) (PmStopAndWait sv)) as [v|msg] eqn:Hc.
    + rewrite (bind_ok _ _ _ _ _ (call_returns _ _ _ _ Hc)) in H. run in H.
      apply IH in H as (X & HX & Ht & Hok).
      exists X. split_and!; [done| |done].
      rewrite Ht. cbn [trace set_trace]. rewrite started_app, Hs1. cbn.
      by rewrite app_nil_r.
    + rewrite (bind_throw _ _ _ _ _ (call_throws _ _ _ _ Hc)) in H. injection H as <- <-.
      exists []. split_and!; [apply prefix_nil| |done].
      cbn. by rewrite started_app, Hs1, !app_nil_r.
  - (* no status *)
    run in H. apply IH in H as (X & HX & Ht & Hok). exists X. by rewrite Ht, Hs1.
  - (* no service part *)
    run in H. apply IH in H as (X & HX & Ht & Hok). exists X. by rewrite Ht, Hs1.
Qed.

(** ** Starting a service and its dependencies *)

Lemma service_changes_app (q1 q2 : list Staged.t) :
  service_changes (q1 ++ q2) = service_changes q1 ++ service_changes q2.
Proof. apply omap_app. Qed.

Lemma starts_of_app (q1 q2 : list Staged.t) :
  starts_of (q1 ++ q2) = starts_of q1 ++ starts_of q2.
Proof. apply omap_app. Qed.

(** Of what [stageStart] pushes, the last entry is the start of the
    service; the entries before it concern its module. *)
Lemma service_changes_start_entries h service :
  service_changes (start_entries h service) = [(service, processStatus_is Online)].
Proof.
  unfold start_entries. cbv zeta. rewrite !service_changes_app.
  destruct (_ || _); destruct (getNotAppliedMigrations _); done.
Qed.

Lemma starts_of_start_entries h service :
  starts_of (start_entries h service) = [service].
Proof.
  unfold start_entries. cbv zeta. rewrite !starts_of_app.
  destruct (_ || _); destruct (getNotAppliedMigrations _); done.
Qed.

Lemma stageStart_run (service : Service.t) (s : BboxState) :
  stageStart service s
  = (Ok tt, set_stagedStates (stagedStates s ++ start_entries (heap s) service) s).
Proof.
  unfold stageStart, stageBuildIfNeeded, stageMigrationsIfNeeded, stageServiceState,
    stageModuleState, start_entries. cbv zeta. run.
  destruct (_ || _); run; cbn [heap set_stagedStates];
    destruct (getNotAppliedMigrations _); run; unfold modify, set_stagedStates;
    cbn; by rewrite <-?app_assoc.
Qed.

(** A service without dependencies: nothing to resolve. *)
Lemma stageStartDependenciesIfNeeded_none (fuel : nat) (service : Service.t) s :
  ServiceSpec.dependencies (Service.spec service) = None
  ∨ ServiceSpec.dependencies (Service.spec service) = Some [] →
  stageStartDependenciesIfNeeded (S fuel) service s = (Ok tt, s).
Proof. simpl. by intros [-> | ->]. Qed.

(** A service with one dependency: resolve the dependency's own
    dependencies, then stage its start. *)
Lemma stageStartDependenciesIfNeeded_one (fuel : nat) (service : Service.t)
    (name : string) (module : ModRef) (dependency : Service.t) s :
  ServiceSpec.dependencies (Service.spec service) = Some [name] →
  getService name s = (Ok (module, dependency), s) →
  stageStartDependenciesIfNeeded (S fuel) service s
  = (stageStartDependenciesIfNeeded fuel dependency ;;; stageStart dependency) s.
Proof.
  intros Hdeps Hsv. simpl. rewrite Hdeps. cbn [for_of]. rewrite bind_ret_unit.
  by rewrite (bind_ok _ _ _ _ _ Hsv).
Qed.

(** C1. [a] depends on [b], [b] on [c], and [c] on nothing. With fuel for
    the three levels of the recursion, [start a] does not run for ever and
    leaves a staged queue that is the queue before, then what starting [c]
    stages, then [b], then [a]: the service changes it adds are the starts
    of [c], [b], [a], in this order. On a context that was empty, the
    services started while the queue is applied are [c], [b], [a] in this
    order, up to the entry that throws; all three when [start] returns. *)
Theorem start_stages_chain_dependencies_first collaborator (fuel : nat)
    (a b c : string) (ma mb mc : ModRef) (sa sb sc : Service.t) (s : BboxState) :
  getService a s = (Ok (ma, sa), s) →
  ServiceSpec.dependencies (Service.spec sa) = Some [b] →
  getService b s = (Ok (mb, sb), s) →
  ServiceSpec.dependencies (Service.spec sb) = Some [c] →
  getService c s = (Ok (mc, sc), s) →
  ServiceSpec.dependencies (Service.spec sc) = None
  ∨ ServiceSpec.dependencies (Service.spec sc) = Some [] →
  3 ≤ fuel →
  let r := start collaborator fuel a s in
  r.1 ≠ Diverge ∧
  stagedStates r.2
  = stagedStates s ++ start_entries (heap s) sc ++ start_entries (heap s) sb
                   ++ start_entries (heap s) sa ∧
  service_changes (stagedStates r.2)
  = service_changes (stagedStates s)
    ++ [(sc, processStatus_is Online); (sb, processStatus_is Online);
        (sa, processStatus_is Online)] ∧
  (stagedStates s = [] →
   ∃ now_started,
     now_started `prefix_of` [sc; sb; sa] ∧
     started (trace r.2) = started (trace s) ++ now_started ∧
     (r.1 = Ok tt → now_started = [sc; sb; sa])).
Proof.
  intros Ha Hda Hb Hdb Hc Hdc Hfuel.
  destruct fuel as [|[|[|fuel]]]; [lia..|]. clear Hfuel.
  set (q := stagedStates s ++ start_entries (heap s) sc ++ start_entries (heap s) sb
                           ++ start_entries (heap s) sa).
  assert (Hrun : start collaborator (S (S (S fuel))) a s
                 = executeStaged collaborator (set_stagedStates q s)).
  { unfold start. rewrite (bind_ok _ _ _ _ _ Ha). cbn [snd].
    rewrite (bind_ok _ _ s tt (set_stagedStates
               (stagedStates s ++ start_entries (heap s) sc
                  ++ start_entries (heap s) sb) s)).
    - cbv beta. rewrite (bind_ok _ _ _ _ _ (stageStart_run _ _)).
      cbn [heap stagedStates set_stagedStates]. unfold q.
      by rewrite <-!app_assoc.
    - rewrite (stageStartDependenciesIfNeeded_one _ _ _ _ _ _ Hda Hb).
      rewrite (bind_ok _ _ s tt (set_stagedStates
                 (stagedStates s ++ start_entries (heap s) sc) s)).
      + rewrite stageStart_run. cbn [heap stagedStates set_stagedStates].
        by rewrite <-!app_assoc.
      + rewrite (stageStartDependenciesIfNeeded_one _ _ _ _ _ _ Hdb Hc).
        rewrite (bind_ok _ _ s tt s).
        * apply stageStart_run.
        * by apply stageStartDependenciesIfNeeded_none. }
  cbv zeta. rewrite Hrun.
  assert (Hq : stagedStates (executeStaged collaborator (set_stagedStates q s)).2 = q).
  { by rewrite executeStaged_queue. }
  split_and!.
  - apply ends_executeStaged.
  - done.
  - rewrite Hq. unfold q.
    by rewrite !service_changes_app, !service_changes_start_entries.
  - intros Hempty.
    destruct (for_of_apply_staged_started collaborator q (set_stagedStates q s)
                (executeStaged collaborator (set_stagedStates q s)).2
                (executeStaged collaborator (set_stagedStates q s)).1)
      as (X & HX & Ht & Hok).
    { unfold executeStaged. rewrite bind_gets. apply surjective_pairing. }
    assert (Hstarts : starts_of q = [sc; sb; sa]).
    { unfold q. rewrite Hempty. by rewrite !starts_of_app, !starts_of_start_entries. }
    rewrite Hstarts in HX, Hok. by exists X.
Qed.

Lemma start_stages_chain_dependencies_first_witness :
  let r := start all_return 3 "web" sample in
  r.1 ≠ Diverge ∧
  service_changes (stagedStates r.2)
  = [] ++ [(db, processStatus_is Online); (api, processStatus_is Online);
           (web, processStatus_is Online)] ∧
  ∃ now_started,
    now_started `prefix_of` [db; api; web] ∧
    started (trace r.2) = [] ++ now_started ∧
    (r.1 = Ok tt → now_started = [db; api; web]).
Proof.
  cbv zeta.
  pose proof (start_stages_chain_dependencies_first all_return 3 "web" "api" "db"
                0 0 1 web api db sample
                eq_refl eq_refl eq_refl eq_refl eq_refl (or_introl eq_refl)
                (le_n 3)) as H.
  cbv zeta in H. destruct H as (H1 & _ & H3 & H4).
  exact (conj H1 (conj H3 (H4 eq_refl))).
Defined.

Lemma getService_found (name : string) (mods : list ModRef) found (s : BboxState) :
  modules s = Some mods →
  find_service (heap s) mods name = Some found →
  getService name s = (Ok found, s).
Proof. intros Hm Hf. unfold getService, getAllModules. run. rewrite Hm. run. by rewrite Hf. Qed.

(** The general shape of the staging order: when every declared name is
    known and the recursion reaches the leaves, the dependency walk pushes,
    for each service of [staged_dependencies] in turn, what [stageStart]
    stages for it. *)
Lemma stageStartDependenciesIfNeeded_run (fuel : nat) (mods : list ModRef)
    (service : Service.t) (order : list Service.t) (s : BboxState) :
  modules s = Some mods →
  staged_dependencies fuel (heap s) mods service = Some order →
  stageStartDependenciesIfNeeded fuel service s
  = (Ok tt, set_stagedStates
              (stagedStates s ++ concat (map (start_entries (heap s)) order)) s).
Proof.
  revert service order s. induction fuel as [|fuel IH]; intros service order s Hm; [done|].
  simpl. destruct (ServiceSpec.dependencies (Service.spec service)) as [names|].
  2:{ intros [= <-]. simpl. by rewrite app_nil_r, set_stagedStates_same. }
  revert order s Hm. induction names as [|name names IHn]; intros order s Hm.
  { intros [= <-]. simpl. by rewrite app_nil_r, set_stagedStates_same. }
  simpl. destruct (find_service (heap s) mods name) as [[m dependency]|] eqn:Hf; [|done].
  destruct (staged_dependencies fuel (heap s) mods dependency) as [before|] eqn:Hb;
    [|done].
  simpl. destruct (foldr _ _ names) as [after|] eqn:Ha; [|done]. intros [= <-].
  rewrite bind_assoc, (bind_ok _ _ _ _ _ (getService_found _ _ _ _ Hm Hf)). cbn [snd].
  rewrite bind_assoc, (bind_ok _ _ _ _ _ (IH _ _ _ Hm Hb)).
  rewrite (bind_ok _ _ _ _ _ (stageStart_run _ _)).
  cbn [heap stagedStates set_stagedStates].
  rewrite (IHn after) by done. cbn [heap stagedStates set_stagedStates modules trace].
  unfold set_stagedStates. cbn. do 2 f_equal.
  rewrite map_app, concat_app. cbn [map concat]. by rewrite <-!app_assoc.
Qed.

(** A service that depends on itself: the walk never ends, whatever the
    fuel. *)
Lemma stageStartDependenciesIfNeeded_cycle (fuel : nat) :
  (stageStartDependenciesIfNeeded fuel loop sample_with_cycle).1 = Diverge.
Proof.
  induction fuel as [|fuel IH]; [done|].
  cbn [stageStartDependenciesIfNeeded loop sample_service Service.spec
       ServiceSpec.dependencies for_of].
  rewrite bind_ret_unit.
  rewrite (bind_ok _ _ _ (2, loop) sample_with_cycle) by reflexivity. cbn [snd].
  unfold bind. by destruct (stageStartDependenciesIfNeeded _ _ _) as [[| |] ?].
Qed.

(** * Further properties of the engine *)

(** ** Lookups: the first match wins *)

Lemma find_first {A} (f : A → bool) (l : list A) :
  match List.find f l with
  | Some x => ∃ before after,
                l = before ++ x :: after ∧ f x = true ∧ Forall (λ y, f y = false) before
  | None => Forall (λ y, f y = false) l
  end.
Proof.
  induction l as [|y l IH]; simpl; [constructor|].
  destruct (f y) eqn:Hy.
  - by exists [], l.
  - destruct (List.find f l) as [x|].
    + destruct IH as (before & after & -> & Hx & Hb).
      exists (y :: before), after. split_and!; [done|done|by constructor].
    + by constructor.
Qed.

(** X1. On an initialised registry [getModule] changes nothing and returns
    the first module of the registry, in registry order, whose name is the
    requested one; it fails exactly when no module of the registry has
    that name, and the error then lists the names of all of them. *)
Theorem getModule_first_match (name : string) (mods : list ModRef) (s : BboxState) :
  modules s = Some mods →
  (getModule name s).2 = s ∧
  match (getModule name s).1 with
  | Ok m =>
      ∃ before after,
        mods = before ++ m :: after ∧
        Module_.name (heap s m) = name ∧
        Forall (λ r, Module_.name (heap s r) ≠ name) before
  | Throw e =>
      e = ModuleNotFound name (map (λ m, Module_.name (heap s m)) mods) ∧
      Forall (λ r, Module_.name (heap s r) ≠ name) mods
  | Diverge => False
  end.
Proof.
  intros Hm. split; [apply getModule_state|].
  unfold getModule, getAllModules. run. rewrite Hm. run.
  pose proof (find_first (λ r, String.eqb (Module_.name (heap s r)) name) mods) as Hf.
  unfold find_module. destruct (List.find _ mods) as [m|]; simpl.
  - destruct Hf as (before & after & -> & Hx & Hb). exists before, after.
    split_and!; [done|by apply String.eqb_eq|].
    eapply Forall_impl; [done|]. intros r Hr. by apply String.eqb_neq.
  - split; [done|]. eapply Forall_impl; [done|]. intros r Hr. by apply String.eqb_neq.
Qed.

Lemma getModule_first_match_witness :
  (getModule "infra" sample).2 = sample ∧
  ∃ before after,
    [0; 1] = before ++ 1 :: after ∧
    Module_.name (heap sample 1) = "infra" ∧
    Forall (λ r, Module_.name (heap sample r) ≠ "infra") before.
Proof.
  exact (getModule_first_match "infra" [0; 1] sample eq_refl).
Defined.

Lemma find_service_first (h : ModRef → Module_.t) (mods : list ModRef) (name : string) :
  match find_service h mods name with
  | Some (m, sv) =>
      ∃ before after,
        mods = before ++ m :: after ∧
        sv ∈ map snd (Module_.services (h m)) ∧
        Service.name sv = name ∧
        Forall (λ r, Forall (λ sv', Service.name sv' ≠ name)
                       (map snd (Module_.services (h r)))) before
  | None =>
      Forall (λ r, Forall (λ sv', Service.name sv' ≠ name)
                     (map snd (Module_.services (h r)))) mods
  end.
Proof.
  induction mods as [|r mods IH]; simpl; [constructor|].
  pose proof (find_first (λ sv, String.eqb (Service.name sv) name)
                (map snd (Module_.services (h r)))) as Hf.
  destruct (List.find _ _) as [sv|].
  - destruct Hf as (b & a & Hba & Hx & _). exists [], mods.
    split_and!; [done| |by apply String.eqb_eq|constructor].
    rewrite Hba. apply elem_of_app. right. by left.
  - assert (Hr : Forall (λ sv', Service.name sv' ≠ name)
                   (map snd (Module_.services (h r)))).
    { eapply Forall_impl; [done|]. intros sv' Hsv'. by apply String.eqb_neq. }
    destruct (find_service h mods name) as [[m sv]|].
    + destruct IH as (before & after & -> & Hin & Hn & Hb).
      exists (r :: before), after. split_and!; [done|done|done|by constructor].
    + by constructor.
Qed.

(** X2. On an initialised registry [getService] changes nothing and returns
    a service of the requested name together with the module that owns it:
    the first module of the registry, in registry order, that has such a
    service. It fails exactly when no module of the registry has a
    service of that name. *)
Theorem getService_first_match (name : string) (mods : list ModRef) (s : BboxState) :
  modules s = Some mods →
  (getService name s).2 = s ∧
  match (getService name s).1 with
  | Ok (m, sv) =>
      ∃ before after,
        mods = before ++ m :: after ∧
        sv ∈ map snd (Module_.services (heap s m)) ∧
        Service.name sv = name ∧
        Forall (λ r, Forall (λ sv', Service.name sv' ≠ name)
                       (map snd (Module_.services (heap s r)))) before
  | Throw e =>
      e = ServiceNotFound name ∧
      Forall (λ r, Forall (λ sv', Service.name sv' ≠ name)
                     (map snd (Module_.services (heap s r)))) mods
  | Diverge => False
  end.
Proof.
  intros Hm. split; [apply getService_state|].
  unfold getService, getAllModules. run. rewrite Hm. run.
  pose proof (find_service_first (heap s) mods name) as Hf.
  destruct (find_service (heap s) mods name) as [[m sv]|]; simpl; [done|by split].
Qed.

Lemma getService_first_match_witness :
  (getService "db" sample).2 = sample ∧
  ∃ before after,
    [0; 1] = before ++ 1 :: after ∧
    db ∈ map snd (Module_.services (heap sample 1)) ∧
    Service.name db = "db" ∧
    Forall (λ r, Forall (λ sv', Service.name sv' ≠ "db")
                   (map snd (Module_.services (heap sample r)))) before.
Proof.
  exact (getService_first_match "db" [0; 1] sample eq_refl).
Defined.

(** ** What no operation changes *)

Lemma shape_kept_getService s s' name :
  shape_kept s s' → (getService name s').1 = (getService name s).1.
Proof.
  intros Hs. unfold getService, getAllModules, bind, gets. simpl.
  pose proof Hs as [Hm Hh]. rewrite Hm. destruct (modules s) as [mods|]; simpl; [|done].
  rewrite (shape_kept_find_service s s') by done.
  by destruct (find_service _ _ _).
Qed.

(** X3. No top-level operation changes the registry or the name, the spec
    or the services of any module: only module states, the staged queue
    and the outside world change. A name therefore resolves to the same
    module and the same service after the operation as before it. *)
Theorem operations_keep_registry collaborator (fuel : nat) (op : Operation)
    (s : BboxState) :
  let s' := (perform collaborator fuel op s).2 in
  modules s' = modules s ∧
  (∀ r, Module_.name (heap s' r) = Module_.name (heap s r) ∧
        Module_.spec (heap s' r) = Module_.spec (heap s r) ∧
        Module_.services (heap s' r) = Module_.services (heap s r)) ∧
  (∀ name, (getModule name s').1 = (getModule name s).1) ∧
  (∀ name, (getService name s').1 = (getService name s).1).
Proof.
  cbv zeta. pose proof (perform_shape collaborator fuel op s) as Hs.
  split_and!; [apply Hs|apply Hs| |].
  - intros name. by apply shape_kept_getModule.
  - intros name. by apply shape_kept_getService.
Qed.

#[local] Instance queue_extended_po : PreOrder queue_extended.
Proof. split; unfold queue_extended; [by intros s|intros s1 s2 s3; by etrans]. Qed.

(** X4. No top-level operation removes or reorders staged changes: the
    queue after the operation is the queue before it with the changes the
    operation staged, if any, at its end. *)
Theorem operations_only_append_to_queue collaborator (fuel : nat) (op : Operation)
    (s : BboxState) :
  stagedStates s `prefix_of` stagedStates (perform collaborator fuel op s).2.
Proof.
  apply (perform_steps collaborator queue_extended).
  - intros s0 e. by apply prefix_app_r.
  - intros s0 e. unfold queue_extended. by cbn.
  - intros s0 m st. unfold queue_extended. by cbn.
Qed.

(** ** What happens to module states *)

(** The only writes to a module state are: [built = true] after a build,
    a push to [ranMigrations] after a migration, [ranAllMigrations = true]
    after a batch, and [built = false] by [stageBuild]. *)
Section state_frames.
Variable collaborator : list Effect → Effect → Reply.
Context (R : relation BboxState) `{!PreOrder R}.
Hypothesis R_push : ∀ s e, R s (set_stagedStates (stagedStates s ++ [e]) s).
Hypothesis R_call : ∀ s e, R s (set_trace (trace s ++ [e]) s).
Hypothesis R_built : ∀ s m,
  R s (set_heap (set_state m (with_built true (Module_.state (heap s m))) (heap s)) s).
Hypothesis R_pushed : ∀ s m migId,
  R s (set_heap (set_state m (push_ranMigration migId (Module_.state (heap s m)))
                   (heap s)) s).
Hypothesis R_all : ∀ s m,
  R s (set_heap (set_state m (with_ranAllMigrations true (Module_.state (heap s m)))
                   (heap s)) s).

Lemma update_built_kept m : steps R (update_state m (with_built true)).
Proof. intros s. apply R_built. Qed.

Lemma update_pushed_kept m migId : steps R (update_state m (push_ranMigration migId)).
Proof. intros s. apply R_pushed. Qed.

Lemma update_all_kept m : steps R (update_state m (with_ranAllMigrations true)).
Proof. intros s. apply R_all. Qed.
#[local] Hint Resolve update_built_kept update_pushed_kept update_all_kept : steps.

Lemma runBuild_kept m : steps R (runBuild collaborator m).
Proof. unfold runBuild. steps_go. Qed.

Lemma migrate_one_kept m migs migId : steps R (migrate_one collaborator m migs migId).
Proof. unfold migrate_one. steps_go. Qed.
#[local] Hint Resolve runBuild_kept migrate_one_kept : steps.

Lemma runMigrate_kept m : steps R (runMigrate collaborator m).
Proof. unfold runMigrate. steps_go. Qed.
#[local] Hint Resolve runMigrate_kept : steps.

Lemma executeStaged_kept : steps R (executeStaged collaborator).
Proof. unfold executeStaged, apply_staged, apply_module, apply_service. steps_go. Qed.
#[local] Hint Resolve executeStaged_kept : steps.

Lemma provideValue_kept v : steps R (provideValue collaborator v).
Proof. unfold provideValue. steps_go. Qed.
#[local] Hint Resolve provideValue_kept : steps.

Lemma provideValues_from_kept filled values :
  steps R (provideValues_from collaborator filled values).
Proof. revert filled. induction values as [|[k v] values IH]; intros filled; simpl; steps_go. Qed.

Lemma perform_kept_but_build fuel op :
  (∀ name, op ≠ Build name) → steps R (perform collaborator fuel op).
Proof.
  intros Hop. destruct op; simpl; unfold start, stop, migrate, value, list_, run;
    try steps_go.
  by destruct (Hop module).
Qed.

Section with_reset.
Hypothesis R_reset : ∀ s m,
  R s (set_heap (set_state m (with_built false (Module_.state (heap s m))) (heap s)) s).

Lemma build_kept name : steps R (build collaborator name).
Proof.
  unfold build, stageBuild. steps_go. intros s. apply R_reset.
Qed.

Lemma perform_kept fuel op : steps R (perform collaborator fuel op).
Proof.
  destruct op; try (apply perform_kept_but_build; by intros name').
  apply build_kept.
Qed.

End with_reset.

End state_frames.

#[local] Instance migrations_kept_po : PreOrder migrations_kept.
Proof.
  split.
  - intros s r. by split.
  - intros s1 s2 s3 H12 H23 r. destruct (H12 r) as [Hp Ha], (H23 r) as [Hp' Ha'].
    split; [by etrans|auto].
Qed.

#[local] Instance built_kept_po : PreOrder built_kept.
Proof.
  split.
  - by intros s r.
  - intros s1 s2 s3 H12 H23 r Hb. by apply H23, H12.
Qed.

Lemma migrations_kept_state s m st :
  ModuleState.ranMigrations (Module_.state (heap s m))
    `prefix_of` ModuleState.ranMigrations st →
  (ModuleState.ranAllMigrations (Module_.state (heap s m)) = true →
   ModuleState.ranAllMigrations st = true) →
  migrations_kept s (set_heap (set_state m st (heap s)) s).
Proof.
  intros Hp Ha r. cbn [heap set_heap]. rewrite set_state_lookup.
  case_decide as Hr; [subst; by cbn|by split].
Qed.

(** X5. No top-level operation removes or reorders an id of
    [ranMigrations]: for every module the list after the operation is the
    list before it with the newly applied ids, if any, at its end. And no
    operation resets [ranAllMigrations]: once true it stays true, also
    when migrations are pending again. *)
Theorem operations_keep_migration_progress collaborator (fuel : nat) (op : Operation)
    (s : BboxState) (r : ModRef) :
  let st := Module_.state (heap s r) in
  let st' := Module_.state (heap (perform collaborator fuel op s).2 r) in
  ModuleState.ranMigrations st `prefix_of` ModuleState.ranMigrations st' ∧
  (ModuleState.ranAllMigrations st = true → ModuleState.ranAllMigrations st' = true).
Proof.
  cbv zeta. revert r. apply (perform_kept collaborator migrations_kept).
  - by intros s0 e r.
  - by intros s0 e r.
  - intros s0 m. by apply migrations_kept_state.
  - intros s0 m migId. apply migrations_kept_state; [by apply prefix_app_r|done].
  - intros s0 m. by apply migrations_kept_state.
  - intros s0 m. by apply migrations_kept_state.
Qed.

Lemma built_kept_state s m st :
  (ModuleState.built (Module_.state (heap s m)) = true → ModuleState.built st = true) →
  built_kept s (set_heap (set_state m st (heap s)) s).
Proof.
  intros Hb r. cbn [heap set_heap]. rewrite set_state_lookup.
  case_decide as Hr; [subst; by cbn|done].
Qed.

(** X6. Only [build] resets [built]: under start, stop, migrate, value,
    list and run a module that is built stays built. *)
Theorem only_build_resets_built collaborator (fuel : nat) (op : Operation)
    (s : BboxState) (r : ModRef) :
  (∀ name, op ≠ Build name) →
  ModuleState.built (Module_.state (heap s r)) = true →
  ModuleState.built (Module_.state (heap (perform collaborator fuel op s).2 r)) = true.
Proof.
  intros Hop. revert r. apply (perform_kept_but_build collaborator built_kept); [..|done].
  - by intros s0 e r.
  - by intros s0 e r.
  - intros s0 m. by apply built_kept_state.
  - intros s0 m migId. by apply built_kept_state.
  - intros s0 m. by apply built_kept_state.
Qed.

Lemma only_build_resets_built_witness :
  ModuleState.built
    (Module_.state
       (heap (perform all_return 0 (Migrate "app") (build all_return "app" sample).2).2 0))
  = true.
Proof.
  apply (only_build_resets_built all_return 0 (Migrate "app")
           (build all_return "app" sample).2 0).
  - intros name. discriminate.
  - reflexivity.
Defined.

(** ** Building: the edges *)

(** How a runnable runs depends on the calls made so far, not on the
    module objects or the staged queue. *)
Lemma calls_trace_only collaborator (es : list Effect) (s1 s2 : BboxState) :
  trace s1 = trace s2 →
  let r1 := for_of es (λ e, call collaborator e ;;; ret tt) s1 in
  let r2 := for_of es (λ e, call collaborator e ;;; ret tt) s2 in
  r1.1 = r2.1 ∧ trace r1.2 = trace r2.2.
Proof.
  cbv zeta. revert s1 s2. induction es as [|e es IH]; intros s1 s2 Ht; [by split|].
  cbn [for_of]. rewrite !bind_assoc.
  destruct (collaborator (trace s2) e) as [v|msg] eqn:Hc.
  - rewrite (bind_ok _ _ s1 _ _ (call_returns collaborator e s1 v ltac:(by rewrite Ht))).
    rewrite (bind_ok _ _ s2 _ _ (call_returns collaborator e s2 v Hc)).
    rewrite !bind_ret. apply IH. cbn. by rewrite Ht.
  - rewrite (bind_throw _ _ s1 _ _ (call_throws collaborator e s1 msg ltac:(by rewrite Ht))).
    rewrite (bind_throw _ _ s2 _ _ (call_throws collaborator e s2 msg Hc)).
    cbn. by rewrite Ht.
Qed.

Lemma runInteractive_trace_only collaborator m runnable (s1 s2 : BboxState) :
  trace s1 = trace s2 →
  (runInteractive collaborator m runnable s1).1
  = (runInteractive collaborator m runnable s2).1 ∧
  trace (runInteractive collaborator m runnable s1).2
  = trace (runInteractive collaborator m runnable s2).2.
Proof. intros Ht. rewrite !runInteractive_calls. by apply calls_trace_only. Qed.

(** X7. [build] on a module without a build action (none declared, or the
    empty command) fails with [Module has not build action specified]
    and calls no collaborator; but it has already reset [built]: the
    module is left unbuilt in memory, whatever it was, and this is not
    written to the persisted state. *)
Theorem build_without_build_action collaborator (name : string) (module : ModRef)
    (s : BboxState) :
  getModule name s = (Ok module, s) →
  stagedStates s = [] →
  runnable_truthy (ModuleSpec.build (Module_.spec (heap s module))) = false →
  let r := build collaborator name s in
  r.1 = Throw NoBuildAction ∧
  trace r.2 = trace s ∧
  Module_.state (heap r.2 module) = with_built false (Module_.state (heap s module)).
Proof.
  intros Hm Hq Hb. cbv zeta. rewrite (build_runs_runBuild _ _ _ _ Hm Hq).
  unfold runBuild. run. cbn [heap set_heap set_stagedStates].
  rewrite set_state_spec, Hb. cbn. by rewrite set_state_eq.
Qed.

Lemma build_without_build_action_witness :
  let r := build all_return "infra" sample in
  r.1 = Throw NoBuildAction ∧
  trace r.2 = trace sample ∧
  Module_.state (heap r.2 1) = with_built false (Module_.state (heap sample 1)).
Proof.
  exact (build_without_build_action all_return "infra" 1 sample eq_refl eq_refl eq_refl).
Defined.

(** X8. When the build runnable throws, [build] throws the same error; the
    module is left unbuilt in memory and no state is written: the trace
    has grown by calls of the build runnable only. *)
Theorem build_failure_is_not_persisted collaborator (name : string) (module : ModRef)
    (s : BboxState) (e : Error) :
  getModule name s = (Ok module, s) →
  stagedStates s = [] →
  runnable_truthy (ModuleSpec.build (Module_.spec (heap s module))) = true →
  (runInteractive collaborator module
     (ModuleSpec.build (Module_.spec (heap s module))) s).1 = Throw e →
  let r := build collaborator name s in
  r.1 = Throw e ∧
  ModuleState.built (Module_.state (heap r.2 module)) = false ∧
  saves (trace r.2) = saves (trace s) ∧
  ∃ calls,
    calls `prefix_of` runnable_calls module
                        (ModuleSpec.build (Module_.spec (heap s module))) ∧
    trace r.2 = trace s ++ calls.
Proof.
  intros Hm Hq Hb Hrun. cbv zeta. rewrite (build_runs_runBuild _ _ _ _ Hm Hq).
  set (s0 := set_stagedStates _ _).
  assert (Hspec : Module_.spec (heap s0 module) = Module_.spec (heap s module)).
  { unfold s0. cbn. by rewrite set_state_spec. }
  unfold runBuild. run. rewrite Hspec, Hb. cbn [negb].
  destruct (runInteractive_trace_only collaborator module
              (ModuleSpec.build (Module_.spec (heap s module))) s0 s eq_refl)
    as [Hres Htr].
  pose proof (runInteractive_run collaborator module
                (ModuleSpec.build (Module_.spec (heap s module))) s0) as Hrun0.
  cbv zeta in Hrun0. rewrite Hres, Hrun in Hrun0.
  destruct Hrun0 as (Hh & _ & _ & done_ & failed & rest & msg & Hcalls & Ht & _ & _).
  rewrite (bind_throw _ _ s0 e (runInteractive collaborator module
             (ModuleSpec.build (Module_.spec (heap s module))) s0).2).
  2:{ rewrite (surjective_pairing (runInteractive _ _ _ s0)). by rewrite Hres, Hrun. }
  cbn [fst snd].
  assert (Hprefix : (done_ ++ [failed])
                      `prefix_of` runnable_calls module
                                    (ModuleSpec.build (Module_.spec (heap s module)))).
  { exists rest. by rewrite Hcalls, <-app_assoc. }
  split_and!.
  - done.
  - rewrite Hh. unfold s0. cbn. by rewrite set_state_eq.
  - rewrite Ht, saves_app, (saves_prefix_runnable_calls _ _ _ Hprefix).
    by rewrite app_nil_r.
  - by exists (done_ ++ [failed]).
Qed.

Lemma build_failure_is_not_persisted_witness :
  let r := build fails_make "app" sample in
  r.1 = Throw (External "make: error") ∧
  ModuleState.built (Module_.state (heap r.2 0)) = false ∧
  saves (trace r.2) = saves (trace sample).
Proof.
  cbv zeta.
  pose proof (build_failure_is_not_persisted fails_make "app" 0 sample
                (External "make: error") eq_refl eq_refl eq_refl eq_refl) as H.
  cbv zeta in H. destruct H as (H1 & H2 & H3 & _). exact (conj H1 (conj H2 H3)).
Defined.

(** ** Migrations: the whole batch *)

Lemma with_ran_nil st : with_ran [] st = st.
Proof. destruct st. unfold with_ran. cbn. by rewrite app_nil_r. Qed.

Lemma with_ran_cons migId ids st :
  with_ran (migId :: ids) st = with_ran ids (push_ranMigration migId st).
Proof. unfold with_ran, push_ranMigration. cbn. by rewrite <-app_assoc. Qed.

(** The loop of [runMigrate] over any list of ids: the rounds that pushed
    their id are a front part of the list, and nothing but [ranMigrations]
    of this module has been written. *)
Lemma migrate_loop_run collaborator (module : ModRef)
    (migrations : gmap string RunnableSpec) (ids : list string) (s : BboxState) :
  let r := for_of ids (migrate_one collaborator module migrations) s in
  ∃ done_ rest,
    ids = done_ ++ rest ∧
    Module_.state (heap r.2 module) = with_ran done_ (Module_.state (heap s module)) ∧
    (∀ m, Module_.spec (heap r.2 m) = Module_.spec (heap s m)) ∧
    (∀ m, m ≠ module → heap r.2 m = heap s m) ∧
    stagedStates r.2 = stagedStates s ∧
    match r.1 with
    | Ok _ =>
        rest = [] ∧
        trace r.2 = trace s ++ batch_calls module migrations
                                 (Module_.state (heap s module)) ids
    | Throw e => ∃ msg, e = External msg
    | Diverge => False
    end.
Proof.
  cbv zeta. revert s. induction ids as [|migId ids IH]; intros s.
  { exists [], []. cbn. by rewrite with_ran_nil, app_nil_r. }
  assert (Hstep : for_of (migId :: ids) (migrate_one collaborator module migrations) s
                  = (runInteractive collaborator module (migrations !! migId) ;;;
                     update_state module (push_ranMigration migId) ;;;
                     saveState collaborator module ;;;
                     for_of ids (migrate_one collaborator module migrations)) s).
  { cbn [for_of]. unfold migrate_one at 1. by rewrite !bind_assoc. }
  rewrite Hstep. clear Hstep.
  pose proof (runInteractive_run collaborator module (migrations !! migId) s) as Hrun.
  cbv zeta in Hrun.
  destruct (runInteractive collaborator module (migrations !! migId) s)
    as [[[]|e|] s1] eqn:Hr; cbn [fst snd] in Hrun; [| |by destruct Hrun as (_&_&_&[])].
  2:{ rewrite (bind_throw _ _ _ _ _ Hr). cbn [fst snd].
      destruct Hrun as (Hh & _ & Hq & d & f & rs & msg & _ & _ & _ & ->).
      exists [], (migId :: ids). rewrite Hh, with_ran_nil.
      split_and!; try done. cbn. by exists msg. }
  destruct Hrun as (Hh & _ & Hq & Ht).
  rewrite (bind_ok _ _ _ _ _ Hr). unfold update_state, saveState. run.
  cbn [heap set_heap]. rewrite set_state_eq, Hh.
  set (st := Module_.state (heap s module)).
  set (s2 := set_heap _ s1).
  destruct (collaborator (trace s2) (SaveState module (push_ranMigration migId st)))
    as [v|msg] eqn:Hc.
  - rewrite (bind_ok _ _ _ _ _ (call_returns _ _ _ _ Hc)). run.
    set (s3 := set_trace _ s2).
    destruct (IH s3) as (done_ & rest & -> & Hst & Hspec & Hother & Hq' & Hres).
    exists (migId :: done_), rest.
    assert (Hst3 : Module_.state (heap s3 module) = push_ranMigration migId st).
    { unfold s3, s2. cbn. by rewrite set_state_eq. }
    split_and!.
    + done.
    + by rewrite Hst, Hst3, with_ran_cons.
    + intros m. rewrite Hspec. unfold s3, s2. cbn. by rewrite set_state_spec.
    + intros m Hm. rewrite Hother by done. unfold s3, s2. cbn.
      rewrite set_state_lookup. by rewrite decide_False.
    + by rewrite Hq'.
    + destruct (for_of _ _ s3).1 as [[]|e|]; [|done|done].
      destruct Hres as [-> Ht']. split; [done|].
      rewrite Ht', Hst3. unfold s3, s2. cbn [trace set_trace set_heap].
      rewrite Ht. cbn [batch_calls]. unfold round_calls. by rewrite <-!app_assoc.
  - rewrite (bind_throw _ _ _ _ _ (call_throws _ _ _ _ Hc)). cbn [fst snd].
    exists [migId], ids. split_and!; cbn [fst snd].
    + done.
    + unfold s2. cbn. by rewrite set_state_eq, with_ran_cons, with_ran_nil.
    + intros m. unfold s2. cbn. by rewrite set_state_spec.
    + intros m Hm. unfold s2. cbn. rewrite set_state_lookup. by rewrite decide_False.
    + done.
    + by exists msg.
Qed.

Lemma difference_all (l k : list string) :
  (∀ x, x ∈ l → x ∈ k) → difference l k = [].
Proof.
  unfold difference. intros Hl. induction l as [|x l IH]; [done|].
  rewrite filter_cons_False.
  - apply IH. intros y Hy. apply Hl. by right.
  - intros Hx. apply Hx, Hl. by left.
Qed.

Lemma difference_none (l k : list string) :
  (∀ x, x ∈ l → x ∉ k) → difference l k = l.
Proof.
  unfold difference. intros Hl. induction l as [|x l IH]; [done|].
  rewrite filter_cons_True by (apply Hl; by left).
  rewrite IH; [done|]. intros y Hy. apply Hl. by right.
Qed.

(** What is pending once a front part of the pending ids has been pushed:
    the rest. *)
Lemma difference_after (keys ran done_ rest : list string) :
  NoDup keys →
  difference keys ran = done_ ++ rest →
  difference keys (ran ++ done_) = rest.
Proof.
  intros Hkeys Hd.
  assert (Hnodup : NoDup (done_ ++ rest)).
  { rewrite <-Hd. by apply NoDup_filter. }
  assert (Hsplit : difference keys (ran ++ done_) = difference (difference keys ran) done_).
  { unfold difference. rewrite list_filter_filter. apply list_filter_iff.
    intros x. rewrite not_elem_of_app. tauto. }
  rewrite Hsplit, Hd. unfold difference. rewrite filter_app.
  fold (difference done_ done_). fold (difference rest done_).
  apply NoDup_app in Hnodup as (_ & Hdisj & _).
  rewrite difference_all by done.
  rewrite difference_none; [done|]. intros x Hx Hx'. by apply (Hdisj x).
Qed.

Lemma getNotAppliedMigrations_ext (m1 m2 : Module_.t) :
  Module_.spec m1 = Module_.spec m2 →
  ModuleState.ranMigrations (Module_.state m1)
  = ModuleState.ranMigrations (Module_.state m2) →
  getNotAppliedMigrations m1 = getNotAppliedMigrations m2.
Proof. unfold getNotAppliedMigrations. by intros -> ->. Qed.

Lemma getNotAppliedMigrations_after (h h' : ModRef → Module_.t) (module : ModRef)
    (done_ rest : list string) :
  Module_.spec (h' module) = Module_.spec (h module) →
  ModuleState.ranMigrations (Module_.state (h' module))
  = ModuleState.ranMigrations (Module_.state (h module)) ++ done_ →
  getNotAppliedMigrations (h module) = done_ ++ rest →
  getNotAppliedMigrations (h' module) = rest.
Proof.
  unfold getNotAppliedMigrations. intros -> ->.
  destruct (ModuleSpec.migrations (Module_.spec (h module))) as [migrations|].
  - apply difference_after, NoDup_sorted_keys.
  - intros Hnil. symmetry in Hnil. by apply app_eq_nil in Hnil as [_ ->].
Qed.

(** How [runMigrate] ends, in every case. *)
Lemma runMigrate_run collaborator (module : ModRef) (s : BboxState) :
  let r := runMigrate collaborator module s in
  let pending := getNotAppliedMigrations (heap s module) in
  let st := Module_.state (heap s module) in
  let st' := Module_.state (heap r.2 module) in
  ∃ done_ rest,
    pending = done_ ++ rest ∧
    ModuleState.ranMigrations st' = ModuleState.ranMigrations st ++ done_ ∧
    ModuleState.built st' = ModuleState.built st ∧
    getNotAppliedMigrations (heap r.2 module) = rest ∧
    (ModuleState.ranAllMigrations st' = ModuleState.ranAllMigrations st
     ∨ (rest = [] ∧ pending ≠ [] ∧ ModuleState.ranAllMigrations st' = true)) ∧
    (r.1 = Ok tt →
     rest = [] ∧ (pending ≠ [] → ModuleState.ranAllMigrations st' = true)) ∧
    (∀ m, m ≠ module → heap r.2 m = heap s m) ∧
    stagedStates r.2 = stagedStates s ∧
    r.1 ≠ Diverge.
Proof.
  cbv zeta. unfold runMigrate. run.
  destruct (ModuleSpec.migrations (Module_.spec (heap s module))) as [migrations|] eqn:Hmigs.
  2:{ exists [], []. cbn. rewrite app_nil_r.
      split_and!; try done; try (by left);
        unfold getNotAppliedMigrations; by rewrite Hmigs. }
  destruct (getNotAppliedMigrations (heap s module)) as [|first others] eqn:Hpending.
  { exists [], []. cbn. rewrite app_nil_r. split_and!; try done. by left. }
  rewrite <-Hpending.
  destruct (migrate_loop_run collaborator module migrations
              (getNotAppliedMigrations (heap s module)) s)
    as (done_ & rest & Hsplit & Hst & Hspec & Hother & Hq & Hres).
  destruct (for_of (getNotAppliedMigrations (heap s module)) _ s) as [res s1] eqn:Hloop.
  cbn [fst snd] in *.
  assert (Hafter : getNotAppliedMigrations (heap s1 module) = rest).
  { apply (getNotAppliedMigrations_after (heap s) (heap s1) module done_ rest);
      [done|by rewrite Hst|done]. }
  destruct res as [[]|e|]; [|clear Hres|done].
  - destruct Hres as [-> Htrace]. rewrite app_nil_r in Hsplit.
    rewrite (bind_ok _ _ _ _ _ Hloop). unfold update_state, saveState. run.
    cbn [heap set_heap]. rewrite set_state_eq.
    set (s2 := set_heap _ s1).
    assert (Hfinal : ∀ res s3, heap s3 = heap s2 → stagedStates s3 = stagedStates s1 →
              res ≠ Diverge →
              ∃ done_0 rest0,
                getNotAppliedMigrations (heap s module) = done_0 ++ rest0 ∧
                ModuleState.ranMigrations (Module_.state (heap (res, s3).2 module))
                = ModuleState.ranMigrations (Module_.state (heap s module)) ++ done_0 ∧
                ModuleState.built (Module_.state (heap (res, s3).2 module))
                = ModuleState.built (Module_.state (heap s module)) ∧
                getNotAppliedMigrations (heap (res, s3).2 module) = rest0 ∧
                (ModuleState.ranAllMigrations (Module_.state (heap (res, s3).2 module))
                 = ModuleState.ranAllMigrations (Module_.state (heap s module))
                 ∨ (rest0 = [] ∧ getNotAppliedMigrations (heap s module) ≠ [] ∧
                    ModuleState.ranAllMigrations
                      (Module_.state (heap (res, s3).2 module)) = true)) ∧
                ((res, s3).1 = Ok tt →
                 rest0 = [] ∧
                 (getNotAppliedMigrations (heap s module) ≠ [] →
                  ModuleState.ranAllMigrations
                    (Module_.state (heap (res, s3).2 module)) = true)) ∧
                (∀ m, m ≠ module → heap (res, s3).2 m = heap s m) ∧
                stagedStates (res, s3).2 = stagedStates s ∧
                (res, s3).1 ≠ Diverge).
    { intros res s3 Hh3 Hq3 Hres. exists done_, []. cbn [fst snd].
      rewrite Hh3. unfold s2. cbn [heap set_heap]. rewrite set_state_eq, Hst.
      rewrite app_nil_r. split_and!; try done.
      - apply (getNotAppliedMigrations_after (heap s) _ module done_ []).
        + by rewrite set_state_spec.
        + by rewrite set_state_eq.
        + by rewrite app_nil_r.
      - right. by rewrite Hpending.
      - intros m Hm. rewrite set_state_lookup, decide_False by done. by apply Hother.
      - by rewrite Hq3. }
    destruct (collaborator (trace s2)
                (SaveState module (with_ranAllMigrations true (Module_.state (heap s1 module)))))
      as [v|msg] eqn:Hc.
    + rewrite (bind_ok _ _ _ _ _ (call_returns _ _ _ _ Hc)). run. by apply Hfinal.
    + rewrite (bind_throw _ _ _ _ _ (call_throws _ _ _ _ Hc)). by apply Hfinal.
  - rewrite (bind_throw _ _ _ _ _ Hloop). cbn [fst snd].
    exists done_, rest. rewrite Hst. split_and!; try done. by left.
Qed.

(** X9. However [runMigrate] ends, the migrations it has recorded are a
    front part of the pending list, in order: [ranMigrations] has grown
    by exactly these, the rest of the list is what is pending afterwards
    (a retry resumes there), [built] and every other module are untouched,
    and [ranAllMigrations] is set only when nothing is left pending. When
    it returns, nothing is left pending. *)
Theorem runMigrate_keeps_progress collaborator (module : ModRef) (s : BboxState) :
  let r := runMigrate collaborator module s in
  let pending := getNotAppliedMigrations (heap s module) in
  let st := Module_.state (heap s module) in
  let st' := Module_.state (heap r.2 module) in
  ∃ done_ rest,
    pending = done_ ++ rest ∧
    ModuleState.ranMigrations st' = ModuleState.ranMigrations st ++ done_ ∧
    ModuleState.built st' = ModuleState.built st ∧
    getNotAppliedMigrations (heap r.2 module) = rest ∧
    (ModuleState.ranAllMigrations st' = ModuleState.ranAllMigrations st
     ∨ (rest = [] ∧ pending ≠ [] ∧ ModuleState.ranAllMigrations st' = true)) ∧
    (r.1 = Ok tt →
     rest = [] ∧ (pending ≠ [] → ModuleState.ranAllMigrations st' = true)) ∧
    (∀ m, m ≠ module → heap r.2 m = heap s m) ∧
    stagedStates r.2 = stagedStates s ∧
    r.1 ≠ Diverge.
Proof. apply runMigrate_run. Qed.

(** A batch that returns: every pending migration ran, in order, each
    followed by one write of the state; one more write records
    [ranAllMigrations]. *)
Lemma runMigrate_ok collaborator (module : ModRef) (migrations : gmap string RunnableSpec)
    (s s' : BboxState) :
  ModuleSpec.migrations (Module_.spec (heap s module)) = Some migrations →
  getNotAppliedMigrations (heap s module) ≠ [] →
  runMigrate collaborator module s = (Ok tt, s') →
  let st := Module_.state (heap s module) in
  let pending := getNotAppliedMigrations (heap s module) in
  Module_.state (heap s' module) = with_ranAllMigrations true (with_ran pending st) ∧
  trace s' = trace s ++ batch_calls module migrations st pending
                     ++ [SaveState module (with_ranAllMigrations true (with_ran pending st))].
Proof.
  intros Hmigs Hpending. cbv zeta. unfold runMigrate. run. rewrite Hmigs.
  destruct (getNotAppliedMigrations (heap s module)) as [|first others] eqn:Hp; [done|].
  rewrite <-Hp. clear Hpending.
  destruct (migrate_loop_run collaborator module migrations
              (getNotAppliedMigrations (heap s module)) s)
    as (done_ & rest & Hsplit & Hst & _ & _ & _ & Hres).
  destruct (for_of (getNotAppliedMigrations (heap s module)) _ s) as [res s1] eqn:Hloop.
  cbn [fst snd] in *.
  destruct res as [[]|e|]; [|by rewrite (bind_throw _ _ _ _ _ Hloop)|done].
  destruct Hres as [-> Htrace]. rewrite app_nil_r in Hsplit. subst done_.
  rewrite (bind_ok _ _ _ _ _ Hloop). unfold update_state, saveState. run.
  cbn [heap set_heap]. rewrite set_state_eq, Hst.
  unfold call, bind. destruct (collaborator _ _); intros [= <-]; cbn.
  rewrite set_state_eq, Htrace. split; [done|]. by rewrite <-app_assoc.
Qed.

(** X10. A [migrate] that returns, on a fresh context and with something
    pending, has run every pending migration in sorted order, each
    followed by one write of the state with its id pushed, and after the
    last one has written the state once more with [ranAllMigrations]
    true. Nothing is pending afterwards. *)
Theorem migrate_applies_every_pending collaborator (name : string) (module : ModRef)
    (migrations : gmap string RunnableSpec) (s s' : BboxState) :
  getModule name s = (Ok module, s) →
  stagedStates s = [] →
  ModuleSpec.migrations (Module_.spec (heap s module)) = Some migrations →
  getNotAppliedMigrations (heap s module) ≠ [] →
  migrate collaborator name s = (Ok tt, s') →
  let st := Module_.state (heap s module) in
  let pending := getNotAppliedMigrations (heap s module) in
  Module_.state (heap s' module) = with_ranAllMigrations true (with_ran pending st) ∧
  trace s' = trace s ++ batch_calls module migrations st pending
                     ++ [SaveState module (with_ranAllMigrations true (with_ran pending st))] ∧
  getNotAppliedMigrations (heap s' module) = [].
Proof.
  intros Hm Hq Hmigs Hpending Hrun. cbv zeta.
  rewrite (migrate_runs_runMigrate _ _ _ _ Hm Hq Hpending) in Hrun.
  pose proof (runMigrate_ok collaborator module migrations
                (set_stagedStates [module_entry module ranAllMigrations_true] s) s'
                Hmigs Hpending Hrun) as [Hst Htrace].
  cbn [heap trace set_stagedStates] in Hst, Htrace. split_and!; [done|done|].
  pose proof (runMigrate_run collaborator module
                (set_stagedStates [module_entry module ranAllMigrations_true] s)) as Hr.
  cbv zeta in Hr. rewrite Hrun in Hr. cbn [fst snd] in Hr.
  destruct Hr as (done_ & rest & _ & _ & _ & Hafter & _ & Hok & _).
  destruct (Hok eq_refl) as [-> _]. done.
Qed.

Lemma migrate_applies_every_pending_witness :
  let s' := (migrate all_return "app" sample).2 in
  let st := Module_.state (heap sample 0) in
  let pending := getNotAppliedMigrations (heap sample 0) in
  Module_.state (heap s' 0) = with_ranAllMigrations true (with_ran pending st) ∧
  trace s' = trace sample ++ batch_calls 0 app_migrations st pending
                ++ [SaveState 0 (with_ranAllMigrations true (with_ran pending st))] ∧
  getNotAppliedMigrations (heap s' 0) = [].
Proof.
  apply (migrate_applies_every_pending all_return "app" 0 app_migrations sample
           (migrate all_return "app" sample).2).
  - reflexivity.
  - reflexivity.
  - reflexivity.
  - vm_compute. discriminate.
  - vm_compute. reflexivity.
Defined.

Lemma getModule_same_lookup (name : string) (s s' : BboxState) (module : ModRef) :
  shape_kept s s' →
  getModule name s = (Ok module, s) →
  getModule name s' = (Ok module, s').
Proof.
  intros Hs Hm. rewrite (surjective_pairing (getModule name s')), getModule_state.
  by rewrite (shape_kept_getModule s s'), Hm.
Qed.

(** X11. [migrate] is idempotent once it has returned: after a [migrate]
    that returned on a fresh context nothing is pending, and a second
    [migrate], with a fresh context or with the context of the first,
    returns without calling any collaborator and without writing
    anything. *)
Theorem migrate_twice_second_does_nothing collaborator (name : string) (module : ModRef)
    (s s1 : BboxState) :
  getModule name s = (Ok module, s) →
  stagedStates s = [] →
  migrate collaborator name s = (Ok tt, s1) →
  getNotAppliedMigrations (heap s1 module) = [] ∧
  migrate collaborator name s1 = (Ok tt, s1) ∧
  migrate collaborator name (fresh_context s1) = (Ok tt, fresh_context s1).
Proof.
  intros Hm Hq Hrun.
  assert (Hshape : shape_kept s s1).
  { pose proof (perform_shape collaborator 0 (Migrate name) s) as Hs. cbn in Hs.
    by rewrite Hrun in Hs. }
  assert (Hshape' : shape_kept s (fresh_context s1)).
  { destruct Hshape as [? ?]. by split. }
  pose proof (getModule_same_lookup _ _ _ _ Hshape Hm) as Hm1.
  pose proof (getModule_same_lookup _ _ _ _ Hshape' Hm) as Hm1'.
  assert (Hnone : ∀ s2, getModule name s2 = (Ok module, s2) →
            getNotAppliedMigrations (heap s2 module) = [] →
            migrate collaborator name s2 = executeStaged collaborator s2).
  { intros s2 Hm2 Hp2. unfold migrate. rewrite (bind_ok _ _ _ _ _ Hm2).
    unfold stageMigrationsIfNeeded. run. by rewrite Hp2. }
  assert (Hafter : getNotAppliedMigrations (heap s1 module) = [] ∧
                   executeStaged collaborator s1 = (Ok tt, s1)).
  { destruct (getNotAppliedMigrations (heap s module)) as [|first others] eqn:Hp.
    - rewrite (Hnone s Hm Hp) in Hrun. unfold executeStaged in Hrun. run in Hrun.
      rewrite Hq in Hrun. injection Hrun as <-. split; [done|].
      unfold executeStaged. run. by rewrite Hq.
    - rewrite (migrate_runs_runMigrate _ _ _ _ Hm Hq) in Hrun by by rewrite Hp.
      pose proof (runMigrate_run collaborator module
                    (set_stagedStates [module_entry module ranAllMigrations_true] s)) as Hr.
      cbv zeta in Hr. rewrite Hrun in Hr. cbn [fst snd heap stagedStates set_stagedStates] in Hr.
      destruct Hr as (done_ & rest & _ & _ & _ & Hafter & _ & Hok & _ & Hq1 & _).
      destruct (Hok eq_refl) as [-> _]. split; [done|].
      unfold executeStaged. run. rewrite Hq1. cbn [for_of].
      unfold apply_staged, apply_module. cbn. run.
      unfold runMigrate. run. rewrite Hafter.
      destruct Hshape as [_ Hh]. destruct (Hh module) as (_ & -> & _).
      unfold getNotAppliedMigrations in Hp.
      by destruct (ModuleSpec.migrations (Module_.spec (heap s module))). }
  destruct Hafter as [Hafter Hexec]. split_and!; [done| |].
  - by rewrite (Hnone s1 Hm1 Hafter).
  - rewrite (Hnone _ Hm1' Hafter). unfold executeStaged. by run.
Qed.

Lemma migrate_twice_second_does_nothing_witness :
  let s1 := (migrate all_return "app" sample).2 in
  getNotAppliedMigrations (heap s1 0) = [] ∧
  migrate all_return "app" s1 = (Ok tt, s1) ∧
  migrate all_return "app" (fresh_context s1) = (Ok tt, fresh_context s1).
Proof.
  apply (migrate_twice_second_does_nothing all_return "app" 0 sample
           (migrate all_return "app" sample).2).
  - reflexivity.
  - reflexivity.
  - vm_compute. reflexivity.
Defined.

(** ** Stop, run, list *)

(** X12. [stop] of a known service, on a fresh context, stages the one
    change [{processStatus: Offline}] and makes the one call
    [stopAndWait]: it never builds or migrates the owning module, whatever
    its state, and writes no module state. It returns when the call
    returns and throws what the call throws. *)
Theorem stop_only_stops collaborator (name : string) (module : ModRef)
    (service : Service.t) (s : BboxState) :
  getService name s = (Ok (module, service), s) →
  stagedStates s = [] →
  let r := stop collaborator name s in
  stagedStates r.2 = [service_entry service (processStatus_is Offline)] ∧
  trace r.2 = trace s ++ [PmStopAndWait service] ∧
  heap r.2 = heap s ∧
  r.1 = match collaborator (trace s) (PmStopAndWait service) with
        | Returns _ => Ok tt
        | Throws msg => Throw (External msg)
        end.
Proof.
  intros Hsv Hq. cbv zeta. unfold stop. rewrite (bind_ok _ _ _ _ _ Hsv). cbn [snd].
  unfold stageServiceState, executeStaged. run.
  cbn [stagedStates set_stagedStates]. rewrite Hq. cbn [app for_of].
  unfold apply_staged, apply_service. cbn. run. unfold call, bind. cbn.
  by destruct (collaborator (trace s) (PmStopAndWait service)).
Qed.

Lemma stop_only_stops_witness :
  let r := stop all_return "web" sample in
  stagedStates r.2 = [service_entry web (processStatus_is Offline)] ∧
  trace r.2 = trace sample ++ [PmStopAndWait web] ∧
  heap r.2 = heap sample ∧
  r.1 = match all_return (trace sample) (PmStopAndWait web) with
        | Returns _ => Ok tt
        | Throws msg => Throw (External msg)
        end.
Proof. exact (stop_only_stops all_return "web" 0 web sample eq_refl eq_refl). Defined.

(** X13. [run] on a known module hands the given string to the process
    manager as a command, in one call, and does nothing else: it stages
    nothing, applies none of the changes already staged in the context,
    and writes no module state, built or not. It returns when the call
    returns and throws what the call throws. *)
Theorem run_makes_one_call collaborator (module runnable : string) (m : ModRef)
    (s : BboxState) :
  getModule module s = (Ok m, s) →
  let r := run collaborator module runnable s in
  trace r.2 = trace s ++ [PmRunInteractive m (Some runnable)] ∧
  heap r.2 = heap s ∧
  stagedStates r.2 = stagedStates s ∧
  r.1 = match collaborator (trace s) (PmRunInteractive m (Some runnable)) with
        | Returns _ => Ok tt
        | Throws msg => Throw (External msg)
        end.
Proof.
  intros Hm. cbv zeta. unfold run. rewrite (bind_ok _ _ _ _ _ Hm).
  unfold runInteractive, run_one, call, bind. cbn.
  by destruct (collaborator (trace s) (PmRunInteractive m (Some runnable))).
Qed.

Lemma run_makes_one_call_witness :
  let r := run all_return "infra" "psql" (stop all_return "web" sample).2 in
  trace r.2 = trace (stop all_return "web" sample).2 ++ [PmRunInteractive 1 (Some "psql")] ∧
  heap r.2 = heap (stop all_return "web" sample).2 ∧
  stagedStates r.2 = stagedStates (stop all_return "web" sample).2 ∧
  r.1 = match all_return (trace (stop all_return "web" sample).2)
                (PmRunInteractive 1 (Some "psql")) with
        | Returns _ => Ok tt
        | Throws msg => Throw (External msg)
        end.
Proof.
  exact (run_makes_one_call all_return "infra" "psql" 1 (stop all_return "web" sample).2
           eq_refl).
Defined.

Lemma for_of_concat {A} (ls : list (list A)) (body : A → M unit) s :
  for_of (concat ls) body s = for_of ls (λ l, for_of l body) s.
Proof.
  revert s. induction ls as [|l ls IH]; intros s; [done|].
  cbn [concat for_of]. rewrite for_of_app. unfold bind.
  destruct (for_of l body s) as [[[]| |] s1]; [apply IH|done|done].
Qed.

(** X14. [list] asks the process manager about every service of the
    registry, once each, module by module in registry order and within a
    module in the enumeration order of its services, and stops at the
    first question that throws. It changes no module state and stages
    nothing. *)
Theorem list_asks_about_every_service collaborator (mods : list ModRef) (s : BboxState) :
  modules s = Some mods →
  let r := list_ collaborator s in
  let questions := map PmFindServiceProcess (all_services (heap s) mods) in
  heap r.2 = heap s ∧
  stagedStates r.2 = stagedStates s ∧
  r.1 ≠ Diverge ∧
  ∃ asked,
    asked `prefix_of` questions ∧
    trace r.2 = trace s ++ asked ∧
    (r.1 = Ok tt → asked = questions).
Proof.
  intros Hm. cbv zeta.
  assert (Hrun : list_ collaborator s
                 = for_of (map PmFindServiceProcess (all_services (heap s) mods))
                     (λ e, call collaborator e ;;; ret tt) s).
  { unfold list_, getAllModules. run. rewrite Hm. run.
    rewrite for_of_fmap. unfold all_services. rewrite for_of_concat, for_of_fmap.
    apply for_of_ext. intros m s0. by rewrite for_of_fmap. }
  rewrite Hrun.
  pose proof (calls_run collaborator
                (map PmFindServiceProcess (all_services (heap s) mods)) s) as Hc.
  cbv zeta in Hc. destruct Hc as (Hh & _ & Hq & Hres).
  split_and!; [done|done| |].
  - intros Hd. by rewrite Hd in Hres.
  - destruct (for_of _ _ s).1 as [[]|e|]; [| |done].
    + eexists. by split_and!.
    + destruct Hres as (done_ & failed & rest & msg & -> & Ht & _ & _).
      exists (done_ ++ [failed]). split_and!; [|done|done].
      exists rest. by rewrite <-app_assoc.
Qed.

Lemma list_asks_about_every_service_witness :
  let r := list_ all_return sample in
  let questions := map PmFindServiceProcess (all_services (heap sample) [0; 1]) in
  heap r.2 = heap sample ∧
  stagedStates r.2 = stagedStates sample ∧
  r.1 ≠ Diverge ∧
  ∃ asked,
    asked `prefix_of` questions ∧
    trace r.2 = trace sample ++ asked ∧
    (r.1 = Ok tt → asked = questions).
Proof. exact (list_asks_about_every_service all_return [0; 1] sample eq_refl). Defined.

(** ** Value resolution: identifiers, providers, several values *)

(** X15. Whatever goes wrong in [provideValue] (an unknown service, a
    missing provider, a failed build, a failed provider), the error thrown
    carries the identifier that was asked for: its message is
    [Could not get <identifier> value: ] followed by the message of the
    cause. *)
Theorem provideValue_errors_are_wrapped collaborator (valueName : string)
    (s : BboxState) (e : Error) :
  (provideValue collaborator valueName s).1 = Throw e →
  ∃ cause,
    e = CouldNotGetValue valueName cause ∧
    message e = "Could not get " +:+ valueName +:+ " value: " +:+ message cause.
Proof.
  unfold provideValue, try_catch.
  match goal with |- context [match ?c s with _ => _ end] => destruct (c s) as [[v|e0|] s'] end;
    cbn; intros [= <-]. by exists e0.
Qed.

Lemma provideValue_errors_are_wrapped_witness :
  ∃ cause,
    CouldNotGetValue "cache.port" (ServiceNotFound "cache")
    = CouldNotGetValue "cache.port" cause ∧
    message (CouldNotGetValue "cache.port" (ServiceNotFound "cache"))
    = "Could not get " +:+ "cache.port" +:+ " value: " +:+ message cause.
Proof.
  exact (provideValue_errors_are_wrapped all_return "cache.port" sample
           (CouldNotGetValue "cache.port" (ServiceNotFound "cache")) eq_refl).
Defined.

Lemma split_dot_dotless (a : string) : dotless a = true → split_dot a = [a].
Proof.
  induction a as [|c a IH]; [done|]. cbn. intros [Hc Ha]%andb_prop.
  destruct (Ascii.eqb c "."); [done|]. by rewrite IH.
Qed.

Lemma split_dot_dotted (a rest : string) :
  dotless a = true → split_dot (dotted a rest) = a :: split_dot rest.
Proof.
  unfold dotted. induction a as [|c a IH]; [done|]. intros [Hc Ha]%andb_prop.
  specialize (IH Ha).
  change (String c a +:+ "." +:+ rest) with (String c (a +:+ "." +:+ rest)).
  cbn [split_dot]. rewrite IH. by destruct (Ascii.eqb c ".").
Qed.

(** X16. [provideValue] reads the first two segments of the identifier and
    ignores the others: [service.provider.anything] resolves exactly as
    [service.provider] does, with the same effects and the same value or
    the same cause of failure; only the identifier quoted in the error
    differs. *)
Theorem provideValue_reads_two_segments collaborator (serviceName providerName rest : string)
    (s : BboxState) :
  dotless serviceName = true →
  dotless providerName = true →
  let long := provideValue collaborator (dotted serviceName (dotted providerName rest)) s in
  let short := provideValue collaborator (dotted serviceName providerName) s in
  long.2 = short.2 ∧
  match long.1, short.1 with
  | Ok v, Ok v' => v = v'
  | Throw e, Throw e' =>
      ∃ cause,
        e = CouldNotGetValue (dotted serviceName (dotted providerName rest)) cause ∧
        e' = CouldNotGetValue (dotted serviceName providerName) cause
  | Diverge, Diverge => True
  | _, _ => False
  end.
Proof.
  intros Hs Hp. cbv zeta. unfold provideValue, try_catch.
  rewrite !split_dot_dotted by done. rewrite (split_dot_dotless providerName) by done.
  cbn [nth].
  match goal with |- context [match ?c s with _ => _ end] => destruct (c s) as [[v|e0|] s'] end;
    cbn; [done| |done].
  split; [done|]. by exists e0.
Qed.

Lemma provideValue_reads_two_segments_witness :
  let long := provideValue all_return (dotted "web" (dotted "host" "name")) sample in
  let short := provideValue all_return (dotted "web" "host") sample in
  long.2 = short.2 ∧
  match long.1, short.1 with
  | Ok v, Ok v' => v = v'
  | Throw e, Throw e' =>
      ∃ cause,
        e = CouldNotGetValue (dotted "web" (dotted "host" "name")) cause ∧
        e' = CouldNotGetValue (dotted "web" "host") cause
  | Diverge, Diverge => True
  | _, _ => False
  end.
Proof.
  exact (provideValue_reads_two_segments all_return "web" "host" "name" sample
           eq_refl eq_refl).
Defined.

(** With a provider declared and no static value, [provideValue] is:
    stage a build if one is needed, apply the queue, call the provider. *)
Lemma provideValue_provider collaborator (valueName serviceName providerName : string)
    (rest : list string) (module : ModRef) (service : Service.t) (s : BboxState) :
  split_dot valueName = serviceName :: providerName :: rest →
  getService serviceName s = (Ok (module, service), s) →
  has_static_value (Service.spec service) providerName = false →
  has_value_provider (Service.spec service) providerName = true →
  provideValue collaborator valueName s
  = try_catch
      (stageBuildIfNeeded module ;;;
       executeStaged collaborator ;;;
       call collaborator (PmRun module (value_provider (Service.spec service) providerName)
                            (ServiceSpec.env (Service.spec service))))
      (λ e, throw (CouldNotGetValue valueName e)) s.
Proof.
  intros Hsplit Hsv Hst Hp. unfold provideValue, try_catch. rewrite Hsplit. cbn [nth].
  rewrite (bind_ok _ _ _ _ _ Hsv). cbn [fst snd]. by rewrite Hst, Hp.
Qed.



(** Every outcome of [runBuild] on a module with a build action: the
    calls of the runnable, then the save, up to the first that throws. *)
Lemma runBuild_run collaborator (module : ModRef) (s : BboxState) :
  runnable_truthy (ModuleSpec.build (Module_.spec (heap s module))) = true →
  let r := runBuild collaborator module s in
  let st := with_built true (Module_.state (heap s module)) in
  let full := runnable_calls module (ModuleSpec.build (Module_.spec (heap s module)))
              ++ [SaveState module st] in
  modules r.2 = modules s ∧ stagedStates r.2 = stagedStates s ∧
  ∃ calls,
    calls `prefix_of` full ∧ trace r.2 = trace s ++ calls ∧
    match r.1 with
    | Ok _ => calls = full ∧ heap r.2 = set_state module st (heap s)
    | Throw e => ∃ msg, e = External msg
    | Diverge => False
    end.
Proof.
  intros Hb. cbv zeta. unfold runBuild. run. rewrite Hb. cbn [negb].
  pose proof (runInteractive_run collaborator module
                (ModuleSpec.build (Module_.spec (heap s module))) s) as Hrun.
  cbv zeta in Hrun.
  destruct (runInteractive _ _ _ _) as [[[]|e|] s1] eqn:Hri; cbn [fst snd] in Hrun;
    destruct Hrun as (Hh & Hm & Hq & Htr); [| |done].
  - rewrite (bind_ok _ _ _ _ _ Hri). unfold update_state, saveState. run.
    cbn [heap set_heap]. rewrite set_state_eq, Hh.
    unfold call, bind, ret. cbn beta. cbn [trace set_heap]. rewrite Htr.
    destruct (collaborator _ _) as [v|msg]; cbn; rewrite Hm, Hq; (split_and!; [done..|]).
    + eexists. split_and!; [done|by rewrite <-app_assoc|done..].
    + eexists. split_and!; [done|by rewrite <-app_assoc|by eexists].
  - rewrite (bind_throw _ _ _ _ _ Hri). cbn [fst snd].
    destruct Htr as (d & f & rest & msg & Hcalls & Htr & _ & ->).
    split_and!; [done..|]. exists (d ++ [f]). split_and!; [|done|by eexists].
    rewrite Hcalls. rewrite <-app_assoc. cbn. apply prefix_app, prefix_cons, prefix_nil.
Qed.

(** A queue that holds one staged build: applying it builds the module
    unless [built] is set already. *)
Lemma executeStaged_build_entry collaborator (module : ModRef) (s : BboxState) :
  stagedStates s = [module_entry module built_true] →
  executeStaged collaborator s
  = if ModuleState.built (Module_.state (heap s module)) then (Ok tt, s)
    else runBuild collaborator module s.
Proof.
  intros Hq. unfold executeStaged. run. rewrite Hq. cbn [for_of].
  unfold apply_staged, apply_module. cbn. run. cbn.
  by destruct (ModuleState.built _); cbn; run.
Qed.

(** The provider route on a fresh context, for a module that has a build
    action and is not built. *)
Lemma provider_route_builds collaborator (valueName : string) (module : ModRef)
    (provider : Effect) (s : BboxState) :
  stagedStates s = [] →
  ModuleState.built (Module_.state (heap s module)) = false →
  runnable_truthy (ModuleSpec.build (Module_.spec (heap s module))) = true →
  let st := with_built true (Module_.state (heap s module)) in
  let building := runnable_calls module (ModuleSpec.build (Module_.spec (heap s module)))
                  ++ [SaveState module st] in
  let r := try_catch
             (stageBuildIfNeeded module ;;;
              executeStaged collaborator ;;;
              call collaborator provider)
             (λ e, throw (CouldNotGetValue valueName e)) s in
  modules r.2 = modules s ∧
  ∃ calls,
    calls `prefix_of` building ++ [provider] ∧ trace r.2 = trace s ++ calls ∧
    match r.1 with
    | Ok v =>
        calls = building ++ [provider] ∧
        collaborator (trace s ++ building) provider = Returns v ∧
        heap r.2 = set_state module st (heap s) ∧
        stagedStates r.2 = [module_entry module built_true]
    | Throw e => ∃ msg, e = CouldNotGetValue valueName (External msg)
    | Diverge => False
    end.
Proof.
  intros Hq Hbuilt Hb. cbv zeta.
  set (s0 := set_stagedStates [module_entry module built_true] s).
  assert (Hstage : stageBuildIfNeeded module s = (Ok tt, s0)).
  { unfold stageBuildIfNeeded, stageModuleState. run. rewrite Hbuilt, Hb. cbn.
    unfold modify, s0. by rewrite Hq. }
  unfold try_catch. rewrite (bind_ok _ _ _ _ _ Hstage).
  pose proof (runBuild_run collaborator module s0 Hb) as Hrun. cbv zeta in Hrun.
  assert (Hexec : executeStaged collaborator s0 = runBuild collaborator module s0).
  { rewrite (executeStaged_build_entry _ module) by done.
    cbn [s0 heap set_stagedStates]. by rewrite Hbuilt. }
  destruct (runBuild collaborator module s0) as [[[]|e|] s1] eqn:Hrb;
    cbn [fst snd] in Hrun; destruct Hrun as (Hm & Hqs & calls & Hpre & Htr & Hres);
    [| |done].
  - rewrite (bind_ok _ _ _ _ _ Hexec). destruct Hres as [-> Hh].
    unfold call. rewrite Htr. cbn [s0 trace heap set_stagedStates] in *.
    destruct (collaborator _ _) as [v|msg] eqn:Hc; cbn; (split; [done|]).
    + eexists. split_and!; [done|by rewrite <-app_assoc|done..].
    + eexists. split_and!; [done|by rewrite <-app_assoc|by eexists].
  - rewrite (bind_throw _ _ _ _ _ Hexec). cbn. destruct Hres as [msg ->].
    split; [done|].
    exists calls. split_and!; [by apply prefix_app_r|done|by eexists].
Qed.



Lemma ends_try_catch {A} (c : M A) (h : Error → M A) :
  ends c → (∀ e, ends (h e)) → ends (try_catch c h).
Proof.
  intros Hc Hh s. unfold try_catch. specialize (Hc s).
  destruct (c s) as [[a|e|] s1]; simpl in *; [done|apply Hh|done].
Qed.

Lemma ends_provideValue collaborator valueName : ends (provideValue collaborator valueName).
Proof.
  unfold provideValue, getService, getAllModules, stageBuildIfNeeded, stageModuleState.
  apply ends_try_catch; ends_go. apply ends_executeStaged.
Qed.

(** X19. [provideValues] resolves the values in enumeration order and
    stops at the first that fails, with the error of that lookup: the
    later values are not touched. When it returns, the object it returns
    has exactly the keys of its argument. It always ends. *)
Theorem provideValues_stops_at_first_failure collaborator (values : list (string * string))
    (s : BboxState) :
  let r := provideValues collaborator values s in
  match r.1 with
  | Ok filled => dom filled = list_to_set values.*1
  | Throw e =>
      ∃ before envName valueName after filled,
        values = before ++ (envName, valueName) :: after ∧
        (provideValues collaborator before s).1 = Ok filled ∧
        provideValue collaborator valueName (provideValues collaborator before s).2
        = (Throw e, r.2)
  | Diverge => False
  end.
Proof.
  cbv zeta. unfold provideValues.
  enough (∀ filled0,
    match (provideValues_from collaborator filled0 values s).1 with
    | Ok filled => dom filled = dom filled0 ∪ list_to_set values.*1
    | Throw e =>
        ∃ before envName valueName after filled,
          values = before ++ (envName, valueName) :: after ∧
          (provideValues_from collaborator filled0 before s).1 = Ok filled ∧
          provideValue collaborator valueName
            (provideValues_from collaborator filled0 before s).2
          = (Throw e, (provideValues_from collaborator filled0 values s).2)
    | Diverge => False
    end) as Hgen.
  { specialize (Hgen ∅). destruct (provideValues_from _ _ _ _).1; [|done..].
    by rewrite Hgen, dom_empty_L, (left_id_L ∅ (∪)). }
  revert s. induction values as [|[envName valueName] values IH]; intros s filled0.
  { cbn. by rewrite (right_id_L ∅ (∪)). }
  cbn [provideValues_from].
  destruct (provideValue collaborator valueName s) as [[v|e|] s1] eqn:Hpv.
  - rewrite (bind_ok _ _ _ _ _ Hpv). specialize (IH s1 (<[envName:=v]> filled0)).
    destruct (provideValues_from _ _ values s1) as [[filled|e|] s2] eqn:Hrest;
      cbn [fst snd] in *; [| |done].
    + rewrite IH, dom_insert_L. cbn.
      by rewrite (comm_L (∪) {[envName]}), (assoc_L (∪)).
    + destruct IH as (before & k & x & after & filled & -> & Hok & Hfail).
      exists ((envName, valueName) :: before), k, x, after, filled.
      cbn [provideValues_from]. rewrite (bind_ok _ _ _ _ _ Hpv). by split_and!.
  - rewrite (bind_throw _ _ _ _ _ Hpv). cbn [fst snd].
    by exists [], envName, valueName, values, filled0.
  - by destruct (ends_provideValue collaborator valueName s); rewrite Hpv.
Qed.

Lemma provideValue_provider_call collaborator (valueName : string) (mods : list ModRef)
    (module : ModRef) (provider : Effect) (s : BboxState) :
  modules s = Some mods →
  provider_call (heap s) mods valueName = Some (module, provider) →
  provideValue collaborator valueName s
  = try_catch
      (stageBuildIfNeeded module ;;;
       executeStaged collaborator ;;;
       call collaborator provider)
      (λ e, throw (CouldNotGetValue valueName e)) s.
Proof.
  intros Hmods Hcall. unfold provideValue, provider_call, try_catch in *.
  cbv zeta in *. unfold getService, getAllModules. run. rewrite Hmods. run.
  destruct (find_service _ _ _) as [[m sv]|]; [|done]. run. cbn [fst snd].
  destruct (has_static_value _ _); [done|].
  destruct (has_value_provider _ _); [|done]. by injection Hcall as -> ->.
Qed.

Lemma provider_call_shape s s' mods valueName :
  shape_kept s s' →
  provider_call (heap s') mods valueName = provider_call (heap s) mods valueName.
Proof. intros Hs. unfold provider_call. by rewrite (shape_kept_find_service s s'). Qed.

(** Once the module is built and the queue holds at most the staged
    build, each further value costs its provider call and nothing else. *)
Lemma provideValues_from_built collaborator (mods : list ModRef) (module : ModRef)
    (values : list (string * string)) (providers : list Effect)
    (filled0 : gmap string JsValue) (s : BboxState) :
  modules s = Some mods →
  stagedStates s = [] ∨ stagedStates s = [module_entry module built_true] →
  ModuleState.built (Module_.state (heap s module)) = true →
  Forall2 (λ kv provider, provider_call (heap s) mods kv.2 = Some (module, provider))
          values providers →
  let r := provideValues_from collaborator filled0 values s in
  ∃ calls,
    calls `prefix_of` providers ∧ trace r.2 = trace s ++ calls ∧
    match r.1 with
    | Ok _ => calls = providers
    | Throw _ => True
    | Diverge => False
    end.
Proof.
  intros Hmods Hq Hbuilt Hall. cbv zeta. revert filled0 s Hmods Hq Hbuilt Hall.
  revert providers. induction values as [|[envName valueName] values IH];
    intros providers filled0 s Hmods Hq Hbuilt Hall.
  { apply Forall2_nil_inv_l in Hall as ->. exists []. cbn. by rewrite app_nil_r. }
  apply Forall2_cons_inv_l in Hall as (provider & rest & Hcall & Hall & ->).
  cbn [provideValues_from snd] in *.
  assert (Hexec : executeStaged collaborator s = (Ok tt, s)).
  { destruct Hq as [Hq|Hq].
    - unfold executeStaged. run. by rewrite Hq.
    - by rewrite (executeStaged_build_entry _ module), Hbuilt. }
  assert (Hone : provideValue collaborator valueName s
                 = match collaborator (trace s) provider with
                   | Returns v => (Ok v, set_trace (trace s ++ [provider]) s)
                   | Throws msg => (Throw (CouldNotGetValue valueName (External msg)),
                                    set_trace (trace s ++ [provider]) s)
                   end).
  { rewrite (provideValue_provider_call _ _ _ _ _ _ Hmods Hcall). unfold try_catch.
    rewrite (bind_ok _ _ _ _ _ (stageBuildIfNeeded_built module s Hbuilt)).
    rewrite (bind_ok _ _ _ _ _ Hexec). unfold call. by destruct (collaborator _ _). }
  destruct (collaborator (trace s) provider) as [v|msg].
  - rewrite (bind_ok _ _ _ _ _ Hone).
    destruct (IH rest (<[envName:=v]> filled0) (set_trace (trace s ++ [provider]) s))
      as (calls & Hpre & Htr & Hres); [done..|].
    exists (provider :: calls). split_and!; [by apply prefix_cons| |].
    + rewrite Htr. cbn. by rewrite <-app_assoc.
    + destruct (provideValues_from _ _ _ _).1; [by subst|done..].
  - rewrite (bind_throw _ _ _ _ _ Hone). exists [provider].
    split_and!; [apply prefix_cons, prefix_nil|done..].
Qed.



(** ** Starting: when the dependency walk ends *)

Lemma elem_of_all_services (h : ModRef → Module_.t) (mods : list ModRef) (m : ModRef)
    (service : Service.t) :
  m ∈ mods → service ∈ map snd (Module_.services (h m)) → service ∈ all_services h mods.
Proof.
  intros Hm Hsv. unfold all_services. apply list_elem_of_In, in_concat.
  exists (map snd (Module_.services (h m))). split; [|by apply list_elem_of_In].
  apply in_map_iff. exists m. split; [done|]. by apply list_elem_of_In.
Qed.

Lemma find_service_in (h : ModRef → Module_.t) (mods : list ModRef) (name : string)
    (m : ModRef) (service : Service.t) :
  find_service h mods name = Some (m, service) →
  service ∈ all_services h mods ∧ Service.name service = name.
Proof.
  intros Hf. pose proof (find_service_first h mods name) as Hfirst. rewrite Hf in Hfirst.
  destruct Hfirst as (before & after & -> & Hin & Hname & _). split; [|done].
  apply (elem_of_all_services h _ m); [|done]. apply elem_of_app. right. by left.
Qed.

Lemma all_services_shape s s' mods :
  shape_kept s s' → all_services (heap s') mods = all_services (heap s) mods.
Proof.
  intros [_ Hh]. unfold all_services. f_equal. apply map_ext. intros r.
  by destruct (Hh r) as (_ & _ & ->).
Qed.

Lemma for_of_ends_within {A} (I : BboxState → Prop) (P : A → Prop) (l : list A)
    (body : A → M unit) :
  (∀ x s, P x → I s → (body x s).1 ≠ Diverge ∧ I (body x s).2) →
  Forall P l → ∀ s, I s → (for_of l body s).1 ≠ Diverge.
Proof.
  intros Hbody Hl. induction Hl as [|x l Hx Hl IH]; intros s Hs; [done|].
  cbn [for_of]. unfold bind. destruct (Hbody x s Hx Hs) as [Hend Hinv].
  destruct (body x s) as [[[]|e|] s1]; [by apply IH|done..].
Qed.

Lemma ends_stageStart service : ends (stageStart service).
Proof.
  unfold stageStart, stageBuildIfNeeded, stageMigrationsIfNeeded, stageServiceState,
    stageModuleState. ends_go.
Qed.

Lemma stageStartDependenciesIfNeeded_ends (rank : string → nat) (mods : list ModRef)
    (s0 : BboxState) :
  modules s0 = Some mods →
  ranked rank (heap s0) mods →
  ∀ fuel service s,
    shape_kept s0 s →
    service ∈ all_services (heap s0) mods →
    rank (Service.name service) < fuel →
    (stageStartDependenciesIfNeeded fuel service s).1 ≠ Diverge.
Proof.
  intros Hmods Hranked. induction fuel as [|fuel IH]; intros service s Hs Hin Hrank; [lia|].
  cbn [stageStartDependenciesIfNeeded].
  assert (Hdeps : Forall (λ d, rank d < fuel)
                    (default [] (ServiceSpec.dependencies (Service.spec service)))).
  { unfold ranked in Hranked. rewrite Forall_forall in Hranked.
    eapply Forall_impl; [by apply Hranked|]. intros d Hd. cbn beta in Hd. lia. }
  destruct (ServiceSpec.dependencies (Service.spec service)) as [deps|]; [|done].
  cbn [default] in Hdeps.
  apply (for_of_ends_within (shape_kept s0) (λ d, rank d < fuel)); [|done..].
  intros d s1 Hd Hs1. split.
  - pose proof Hs1 as [Hm1 _]. rewrite Hmods in Hm1.
    destruct (find_service (heap s1) mods d) as [[m dependency]|] eqn:Hf.
    + rewrite (bind_ok _ _ _ _ _ (getService_found _ _ _ _ Hm1 Hf)). cbn [snd].
      rewrite (shape_kept_find_service s0 s1) in Hf by done.
      apply find_service_in in Hf as [Hdin Hname].
      specialize (IH dependency s1 Hs1 Hdin ltac:(by rewrite Hname)).
      unfold bind. destruct (stageStartDependenciesIfNeeded fuel dependency s1)
        as [[[]|e|] s2]; [apply ends_stageStart|done..].
    + destruct (getService_not_found d mods s1 Hm1 Hf) as [Hthrow _].
      by rewrite (bind_throw _ _ _ _ _ Hthrow).
  - etrans; [done|].
    assert (Hsteps : steps shape_kept
              (found <- getService d ;;
               stageStartDependenciesIfNeeded fuel (snd found) ;;;
               stageStart (snd found))).
    { pose proof shape_kept_push as Hpush. pose proof shape_kept_po as Hpo. steps_go. }
    apply Hsteps.
Qed.

(** X21. When the declared dependencies of the registry have no cycle (a
    rank goes down along each of them), [start] ends: with fuel beyond
    the rank of the service it returns or throws, whatever the
    collaborators answer. *)
Theorem start_ends_without_cycles collaborator (rank : string → nat) (mods : list ModRef)
    (fuel : nat) (name : string) (s : BboxState) :
  modules s = Some mods →
  ranked rank (heap s) mods →
  rank name < fuel →
  (start collaborator fuel name s).1 ≠ Diverge.
Proof.
  intros Hmods Hranked Hrank. unfold start.
  destruct (find_service (heap s) mods name) as [[m service]|] eqn:Hf.
  - rewrite (bind_ok _ _ _ _ _ (getService_found _ _ _ _ Hmods Hf)). cbn [snd].
    apply find_service_in in Hf as [Hin Hname].
    pose proof (stageStartDependenciesIfNeeded_ends rank mods s Hmods Hranked fuel service s
                  ltac:(reflexivity) Hin ltac:(by rewrite Hname)) as Hend.
    unfold bind at 1. destruct (stageStartDependenciesIfNeeded fuel service s)
      as [[[]|e|] s1]; [|done..].
    apply ends_bind; [apply ends_stageStart|]. intros _. apply ends_executeStaged.
  - destruct (getService_not_found name mods s Hmods Hf) as [Hthrow _].
    by rewrite (bind_throw _ _ _ _ _ Hthrow).
Qed.

Lemma start_ends_without_cycles_witness :
  (start all_return 3 "web" sample).1 ≠ Diverge.
Proof.
  apply (start_ends_without_cycles all_return
           (λ name, if String.eqb name "web" then 2 else if String.eqb name "api" then 1 else 0)
           [0; 1] 3 "web" sample).
  - reflexivity.
  - unfold ranked. vm_compute. repeat constructor.
  - vm_compute. lia.
Defined.

Lemma tc_cycle_next {A} (R : relation A) (x : A) : tc R x x → ∃ y, R x y ∧ tc R y y.
Proof.
  intros Hc. inversion Hc as [? ? Hxx|? y ? Hxy Hyx]; subst.
  - by exists x.
  - exists y. split; [done|]. by eapply tc_r.
Qed.

Lemma for_of_ok_each {A} (I : BboxState → Prop) (l : list A) (body : A → M unit)
    (s : BboxState) :
  (∀ x s, I s → I (body x s).2) →
  I s →
  (for_of l body s).1 = Ok tt →
  ∀ x, x ∈ l → ∃ s', I s' ∧ (body x s').1 = Ok tt.
Proof.
  intros Hinv. revert s. induction l as [|y l IH]; intros s Hs Hok x Hx.
  { by apply elem_of_nil in Hx. }
  cbn [for_of] in Hok. unfold bind in Hok. specialize (Hinv y s Hs).
  destruct (body y s) as [[[]|e|] s1] eqn:Hy; [|done..].
  apply elem_of_cons in Hx as [->|Hx].
  - exists s. by rewrite Hy.
  - by apply (IH s1).
Qed.

Lemma stageStartDependenciesIfNeeded_cycle_fails (mods : list ModRef) (s0 : BboxState) :
  modules s0 = Some mods →
  ∀ fuel name m service s,
    shape_kept s0 s →
    find_service (heap s0) mods name = Some (m, service) →
    tc (depends (heap s0) mods) name name →
    (stageStartDependenciesIfNeeded fuel service s).1 ≠ Ok tt.
Proof.
  intros Hmods. induction fuel as [|fuel IH]; intros name m service s Hs Hf Hcycle; [done|].
  apply tc_cycle_next in Hcycle as (d & (m' & service' & deps & Hf' & Hdeps & Hd) & Hcycle).
  rewrite Hf in Hf'. injection Hf' as <- <-.
  cbn [stageStartDependenciesIfNeeded]. rewrite Hdeps. intros Hok.
  eapply (for_of_ok_each (shape_kept s0)) in Hok as (s1 & Hs1 & Hbody); [| |done|done].
  2:{ intros x s' Hs'. etrans; [done|].
      assert (Hsteps : steps shape_kept
                (found <- getService x ;;
                 stageStartDependenciesIfNeeded fuel (snd found) ;;;
                 stageStart (snd found))).
      { pose proof shape_kept_push as Hpush. pose proof shape_kept_po as Hpo. steps_go. }
      apply Hsteps. }
  pose proof Hcycle as Hnext.
  apply tc_cycle_next in Hnext as (_ & (md & dependency & _ & Hfd & _) & _).
  pose proof Hs1 as [Hm1 _]. rewrite Hmods in Hm1.
  rewrite (bind_ok _ _ _ (md, dependency) s1) in Hbody.
  2:{ apply (getService_found _ mods); [done|].
      by rewrite (shape_kept_find_service s0 s1). }
  cbn [snd] in Hbody. specialize (IH d md dependency s1 Hs1 Hfd Hcycle).
  unfold bind in Hbody.
  by destruct (stageStartDependenciesIfNeeded fuel dependency s1) as [[[]|e|] s2].
Qed.

(** X22. A service on a dependency cycle (it depends, through declared
    dependencies of services of the registry, on itself) can never be
    started: whatever the fuel and whatever the collaborators answer,
    [start] does not return normally. There is no cycle detection. *)
Theorem start_on_cycle_never_returns collaborator (mods : list ModRef) (fuel : nat)
    (name : string) (s : BboxState) :
  modules s = Some mods →
  tc (depends (heap s) mods) name name →
  (start collaborator fuel name s).1 ≠ Ok tt.
Proof.
  intros Hmods Hcycle. unfold start.
  pose proof Hcycle as Hnext.
  apply tc_cycle_next in Hnext as (_ & (m & service & _ & Hf & _) & _).
  rewrite (bind_ok _ _ _ _ _ (getService_found _ _ _ _ Hmods Hf)). cbn [snd].
  pose proof (stageStartDependenciesIfNeeded_cycle_fails mods s Hmods fuel name m service s
                ltac:(reflexivity) Hf Hcycle) as Hfail.
  unfold bind at 1.
  by destruct (stageStartDependenciesIfNeeded fuel service s) as [[[]|e|] s1].
Qed.

Lemma start_on_cycle_never_returns_witness :
  (start all_return 100 "loop" sample_with_cycle).1 ≠ Ok tt.
Proof.
  apply (start_on_cycle_never_returns all_return [0; 1; 2] 100 "loop" sample_with_cycle).
  - reflexivity.
  - apply tc_once. exists 2, loop, ["loop"]. split_and!; [reflexivity|reflexivity|].
    apply list_elem_of_here.
Defined.

(** ** Starting: lookups come first *)

Section throws.
Context (P : Error → Prop).

Lemma throws_ret {A} (a : A) : throws P (ret a).
Proof. by intros s e. Qed.

Lemma throws_gets {A} (f : BboxState → A) : throws P (gets f).
Proof. by intros s e. Qed.

Lemma throws_modify f : throws P (modify f).
Proof. by intros s e. Qed.

Lemma throws_throw {A} e : P e → throws P (@throw A e).
Proof. by intros He s e' [= <-]. Qed.

Lemma throws_bind {A B} (c : M A) (k : A → M B) :
  throws P c → (∀ a, throws P (k a)) → throws P (bind c k).
Proof.
  intros Hc Hk s e. unfold bind. specialize (Hc s).
  destruct (c s) as [[a|e0|] s1]; cbn in *; [apply Hk|intros [= <-]; by apply Hc|done].
Qed.

Lemma throws_for_of {A} (l : list A) (body : A → M unit) :
  (∀ x, throws P (body x)) → throws P (for_of l body).
Proof.
  intros Hb. induction l as [|x l IH]; cbn; [apply throws_ret|]. by apply throws_bind.
Qed.

Lemma throws_call collaborator e : (∀ msg, P (External msg)) → throws P (call collaborator e).
Proof. intros HP s e'. unfold call. destruct (collaborator _ _); [done|]. by intros [= <-]. Qed.

End throws.

Ltac throws_go :=
  repeat match goal with
  | |- ∀ _, _ => intro
  | |- throws _ (ret _) => apply throws_ret
  | |- throws _ (gets _) => apply throws_gets
  | |- throws _ (modify _) => apply throws_modify
  | |- throws _ (throw _) => apply throws_throw; cbn; tauto
  | |- throws _ (call _ _) => apply throws_call; cbn; tauto
  | |- throws _ (bind _ _) => apply throws_bind
  | |- throws _ (for_of _ _) => apply throws_for_of
  | |- throws _ (match ?x with _ => _ end) => destruct x
  | |- throws _ (let _ := _ in _) => cbv zeta
  end.

(** What goes wrong while the queue is applied is never a failed lookup. *)
Lemma executeStaged_throws collaborator :
  throws (λ e, ¬ lookup_error e) (executeStaged collaborator).
Proof.
  unfold executeStaged, apply_staged, apply_module, apply_service, runBuild, runMigrate,
    migrate_one, runInteractive, run_one, saveState, update_state.
  throws_go.
Qed.

#[local] Instance nothing_done_po : PreOrder nothing_done.
Proof.
  split; [done|]. intros s1 s2 s3 (? & ? & ?) (? & ? & ?). unfold nothing_done. by split_and!; etrans.
Qed.

Lemma nothing_done_push s e : nothing_done s (set_stagedStates (stagedStates s ++ [e]) s).
Proof. done. Qed.

(** X23. When [start] fails because the service, or a dependency at any
    depth, is not in the registry, nothing has been done: no collaborator
    was called and no module object was written. Every lookup happens
    while staging, before the first staged change is applied. *)
Theorem start_lookup_failure_does_nothing collaborator (fuel : nat) (name : string)
    (s : BboxState) (e : Error) :
  (start collaborator fuel name s).1 = Throw e →
  lookup_error e →
  nothing_done s (start collaborator fuel name s).2.
Proof.
  pose proof nothing_done_push as Hpush. pose proof nothing_done_po as Hpo.
  unfold start. pose proof (getService_state name s) as Hg.
  destruct (getService name s) as [[found|e0|] s0] eqn:Hget; cbn [snd] in Hg; subst s0.
  - rewrite (bind_ok _ _ _ _ _ Hget).
    assert (Hdeps : steps nothing_done (stageStartDependenciesIfNeeded fuel (snd found)))
      by steps_go.
    specialize (Hdeps s).
    destruct (stageStartDependenciesIfNeeded fuel (snd found) s) as [[[]|e1|] s1] eqn:Hd;
      cbn [snd] in Hdeps.
    + rewrite (bind_ok _ _ _ _ _ Hd).
      assert (Hstage : steps nothing_done (stageStart (snd found))) by steps_go.
      specialize (Hstage s1).
      destruct (stageStart (snd found) s1) as [[[]|e2|] s2] eqn:Hs; cbn [snd] in Hstage.
      * rewrite (bind_ok _ _ _ _ _ Hs). intros Hthrow Hlookup.
        by destruct (executeStaged_throws collaborator s2 e Hthrow).
      * rewrite (bind_throw _ _ _ _ _ Hs). intros _ _. cbn. by etrans.
      * by rewrite (bind_diverge _ _ _ _ Hs).
    + by rewrite (bind_throw _ _ _ _ _ Hd).
    + by rewrite (bind_diverge _ _ _ _ Hd).
  - by rewrite (bind_throw _ _ _ _ _ Hget).
  - by rewrite (bind_diverge _ _ _ _ Hget).
Qed.

Lemma start_lookup_failure_does_nothing_witness :
  let s := {| heap := sample_heap; modules := Some [0]; stagedStates := []; trace := [] |} in
  nothing_done s (start all_return 5 "web" s).2.
Proof.
  apply (start_lookup_failure_does_nothing all_return 5 "web"
           {| heap := sample_heap; modules := Some [0]; stagedStates := []; trace := [] |}
           (ServiceNotFound "db")).
  - reflexivity.
  - exact I.
Defined.

(** ** Starting: build, migrate, start *)

Lemma apply_staged_build collaborator (module : ModRef) (s : BboxState) :
  ModuleState.built (Module_.state (heap s module)) = false →
  apply_staged collaborator (module_entry module built_true) s
  = runBuild collaborator module s.
Proof. intros Hb. unfold apply_staged, apply_module. cbn. run. rewrite Hb. cbn. by run. Qed.

Lemma apply_staged_migrate collaborator (module : ModRef) (s : BboxState) :
  apply_staged collaborator (module_entry module ranAllMigrations_true) s
  = runMigrate collaborator module s.
Proof. unfold apply_staged, apply_module. cbn. by run. Qed.

Lemma apply_staged_start collaborator (service : Service.t) (s : BboxState) :
  apply_staged collaborator (service_entry service (processStatus_is Online)) s
  = (call collaborator (PmStartAndWait service) ;;; ret tt) s.
Proof. unfold apply_staged, apply_service. cbn. by run. Qed.

(** X24. The first start of a service without dependencies whose module
    has a build action, is not built and has migrations pending: a
    [start] that returns has built the module and written its state,
    then run every pending migration in sorted order (each followed by a
    write of the state), then written [ranAllMigrations], and only then
    started the service. Nothing else was called. *)
Theorem start_builds_migrates_then_starts collaborator (fuel : nat) (name : string)
    (module : ModRef) (service : Service.t) (migrations : gmap string RunnableSpec)
    (s s' : BboxState) :
  getService name s = (Ok (module, service), s) →
  default [] (ServiceSpec.dependencies (Service.spec service)) = [] →
  fuel ≠ 0 →
  stagedStates s = [] →
  let m := Service.module service in
  ModuleState.built (Module_.state (heap s m)) = false →
  runnable_truthy (ModuleSpec.build (Module_.spec (heap s m))) = true →
  ModuleSpec.migrations (Module_.spec (heap s m)) = Some migrations →
  getNotAppliedMigrations (heap s m) ≠ [] →
  start collaborator fuel name s = (Ok tt, s') →
  let st := with_built true (Module_.state (heap s m)) in
  let pending := getNotAppliedMigrations (heap s m) in
  let migrated := with_ranAllMigrations true (with_ran pending st) in
  trace s' = trace s
             ++ runnable_calls m (ModuleSpec.build (Module_.spec (heap s m)))
             ++ [SaveState m st]
             ++ batch_calls m migrations st pending
             ++ [SaveState m migrated; PmStartAndWait service] ∧
  Module_.state (heap s' m) = migrated.
Proof.
  intros Hsv Hnodeps Hfuel Hq m Hbuilt Hb Hmigs Hpending Hrun. cbv zeta.
  unfold start in Hrun. rewrite (bind_ok _ _ _ _ _ Hsv) in Hrun. cbn [snd] in Hrun.
  assert (Hdeps : stageStartDependenciesIfNeeded fuel service s = (Ok tt, s)).
  { destruct fuel as [|fuel]; [done|]. cbn.
    by destruct (ServiceSpec.dependencies (Service.spec service)) as [[|d ds]|]. }
  rewrite (bind_ok _ _ _ _ _ Hdeps), (bind_ok _ _ _ _ _ (stageStart_run _ _)) in Hrun.
  unfold executeStaged in Hrun. run in Hrun.
  cbn [stagedStates set_stagedStates] in Hrun. rewrite Hq in Hrun.
  unfold start_entries in Hrun. cbv zeta in Hrun. fold m in Hrun.
  rewrite Hbuilt, Hb in Hrun.
  destruct (getNotAppliedMigrations (heap s m)) as [|first others] eqn:Hp; [done|].
  rewrite <-Hp in *. cbn [orb negb] in Hrun. rewrite !app_nil_l in Hrun.
  set (s0 := set_stagedStates _ s) in Hrun.
  change (for_of [module_entry m built_true; module_entry m ranAllMigrations_true;
                  service_entry service (processStatus_is Online)]
            (apply_staged collaborator) s0 = (Ok tt, s')) in Hrun.
  cbn [for_of] in Hrun.
  (* the build *)
  destruct (runBuild collaborator m s0) as [[[]|e|] s1] eqn:Hbuild;
    [|by rewrite (bind_throw _ _ s0 e s1) in Hrun by (by rewrite apply_staged_build)
     |by rewrite (bind_diverge _ _ s0 s1) in Hrun by (by rewrite apply_staged_build)].
  rewrite (bind_ok _ _ s0 tt s1) in Hrun by (by rewrite apply_staged_build).
  apply runBuild_ok in Hbuild as (_ & Htr1 & Hh1 & _ & _).
  cbn [s0 heap trace set_stagedStates] in Htr1, Hh1.
  (* the migrations *)
  assert (Hspec1 : Module_.spec (heap s1 m) = Module_.spec (heap s m)).
  { by rewrite Hh1, set_state_spec. }
  assert (Hst1 : Module_.state (heap s1 m) = with_built true (Module_.state (heap s m))).
  { by rewrite Hh1, set_state_eq. }
  assert (Hp1 : getNotAppliedMigrations (heap s1 m) = getNotAppliedMigrations (heap s m)).
  { apply getNotAppliedMigrations_ext; [done|]. by rewrite Hst1. }
  destruct (runMigrate collaborator m s1) as [[[]|e|] s2] eqn:Hmigrate;
    [|by rewrite (bind_throw _ _ s1 e s2) in Hrun by (by rewrite apply_staged_migrate)
     |by rewrite (bind_diverge _ _ s1 s2) in Hrun by (by rewrite apply_staged_migrate)].
  rewrite (bind_ok _ _ s1 tt s2) in Hrun by (by rewrite apply_staged_migrate).
  apply (runMigrate_ok _ _ migrations) in Hmigrate as [Hst2 Htr2];
    [|by rewrite Hspec1|by rewrite Hp1].
  rewrite Hp1, Hst1 in Hst2, Htr2.
  (* the start *)
  rewrite bind_ret_unit, apply_staged_start in Hrun. unfold call, bind, ret in Hrun.
  destruct (collaborator (trace s2) (PmStartAndWait service)); [|done].
  injection Hrun as <-. cbn [trace heap set_trace]. split; [|done].
  rewrite Htr2, Htr1. rewrite <-!app_assoc. by cbn.
Qed.

Lemma start_builds_migrates_then_starts_witness :
  let s' := (start all_return 1 "worker" sample_solo).2 in
  let st := with_built true (Module_.state (heap sample_solo 3)) in
  let pending := getNotAppliedMigrations (heap sample_solo 3) in
  let migrated := with_ranAllMigrations true (with_ran pending st) in
  trace s' = trace sample_solo
             ++ runnable_calls 3 (ModuleSpec.build (Module_.spec (heap sample_solo 3)))
             ++ [SaveState 3 st]
             ++ batch_calls 3 app_migrations st pending
             ++ [SaveState 3 migrated; PmStartAndWait worker] ∧
  Module_.state (heap s' 3) = migrated.
Proof.
  apply (start_builds_migrates_then_starts all_return 1 "worker" 3 worker app_migrations
           sample_solo (start all_return 1 "worker" sample_solo).2).
  - reflexivity.
  - reflexivity.
  - discriminate.
  - reflexivity.
  - reflexivity.
  - reflexivity.
  - reflexivity.
  - vm_compute. discriminate.
  - vm_compute. reflexivity.
Defined.

(** X25. On a module that is built (or has no build action) and has no
    migration pending, [start] of a service without dependencies, on a
    fresh context, makes the one call [startAndWait]: nothing is built,
    no migration runs, no module state is written. It returns when the
    call returns and throws what the call throws. *)
Theorem start_up_to_date_only_starts collaborator (fuel : nat) (name : string)
    (module : ModRef) (service : Service.t) (s : BboxState) :
  getService name s = (Ok (module, service), s) →
  default [] (ServiceSpec.dependencies (Service.spec service)) = [] →
  fuel ≠ 0 →
  stagedStates s = [] →
  let m := Service.module service in
  ModuleState.built (Module_.state (heap s m))
  || negb (runnable_truthy (ModuleSpec.build (Module_.spec (heap s m)))) = true →
  getNotAppliedMigrations (heap s m) = [] →
  let r := start collaborator fuel name s in
  stagedStates r.2 = [service_entry service (processStatus_is Online)] ∧
  trace r.2 = trace s ++ [PmStartAndWait service] ∧
  heap r.2 = heap s ∧
  r.1 = match collaborator (trace s) (PmStartAndWait service) with
        | Returns _ => Ok tt
        | Throws msg => Throw (External msg)
        end.
Proof.
  intros Hsv Hnodeps Hfuel Hq m Hbuilt Hpending. cbv zeta.
  unfold start. rewrite (bind_ok _ _ _ _ _ Hsv). cbn [snd].
  assert (Hdeps : stageStartDependenciesIfNeeded fuel service s = (Ok tt, s)).
  { destruct fuel as [|fuel]; [done|]. cbn.
    by destruct (ServiceSpec.dependencies (Service.spec service)) as [[|d ds]|]. }
  rewrite (bind_ok _ _ _ _ _ Hdeps), (bind_ok _ _ _ _ _ (stageStart_run _ _)).
  unfold executeStaged. run. cbn [stagedStates set_stagedStates]. rewrite Hq.
  unfold start_entries. cbv zeta. fold m. rewrite Hbuilt, Hpending.
  change (for_of _ (apply_staged collaborator))
    with (for_of [service_entry service (processStatus_is Online)]
            (apply_staged collaborator)).
  cbn [for_of]. rewrite bind_ret_unit, apply_staged_start. unfold call, bind, ret. cbn.
  by destruct (collaborator (trace s) (PmStartAndWait service)).
Qed.

Lemma start_up_to_date_only_starts_witness :
  let r := start all_return 1 "db" sample in
  stagedStates r.2 = [service_entry db (processStatus_is Online)] ∧
  trace r.2 = trace sample ++ [PmStartAndWait db] ∧
  heap r.2 = heap sample ∧
  r.1 = match all_return (trace sample) (PmStartAndWait db) with
        | Returns _ => Ok tt
        | Throws msg => Throw (External msg)
        end.
Proof.
  apply (start_up_to_date_only_starts all_return 1 "db" 1 db sample);
    [reflexivity|reflexivity|discriminate|reflexivity|reflexivity|reflexivity].
Defined.

(** ** Runnables *)

(** X26. [runInteractive] runs a runnable that is an array step by step in
    array order, a function by calling it on the module, anything else
    by handing it to the process manager. It stops at the first step
    that throws, with the error of that step: the steps before it have
    run, the steps after it have not. It touches neither the module
    objects nor the staged queue. *)
Theorem runInteractive_stops_at_first_failure collaborator (module : ModRef)
    (runnable : option RunnableSpec) (s : BboxState) :
  let r := runInteractive collaborator module runnable s in
  heap r.2 = heap s ∧ modules r.2 = modules s ∧ stagedStates r.2 = stagedStates s ∧
  match r.1 with
  | Ok _ => trace r.2 = trace s ++ runnable_calls module runnable
  | Throw e =>
      ∃ done_ failed rest msg,
        runnable_calls module runnable = done_ ++ failed :: rest ∧
        trace r.2 = trace s ++ done_ ++ [failed] ∧
        collaborator (trace s ++ done_) failed = Throws msg ∧
        e = External msg
  | Diverge => False
  end.
Proof. apply runInteractive_run. Qed.

(** ** What is persisted *)

Section keeps.
Context (I : BboxState → Prop).

Lemma keeps_ret {A} (a : A) : keeps I (ret a).
Proof. by intros s. Qed.

Lemma keeps_throw {A} e : keeps I (@throw A e).
Proof. by intros s. Qed.

Lemma keeps_diverge {A} : keeps I (@diverge A).
Proof. by intros s. Qed.

Lemma keeps_gets {A} (f : BboxState → A) : keeps I (gets f).
Proof. by intros s. Qed.

Lemma keeps_bind {A B} (c : M A) (k : A → M B) :
  keeps I c → (∀ a, keeps I (k a)) → keeps I (bind c k).
Proof.
  intros Hc Hk s Hs. unfold bind. specialize (Hc s Hs).
  destruct (c s) as [[a|e|] s1]; cbn in *; [by apply Hk|done..].
Qed.

Lemma keeps_for_of {A} (l : list A) (body : A → M unit) :
  (∀ x, keeps I (body x)) → keeps I (for_of l body).
Proof.
  intros Hb. induction l as [|x l IH]; cbn; [apply keeps_ret|]. by apply keeps_bind.
Qed.

Lemma keeps_rethrow {A} (c : M A) (f : Error → Error) :
  keeps I c → keeps I (try_catch c (λ e, throw (f e))).
Proof.
  intros Hc s Hs. unfold try_catch. specialize (Hc s Hs).
  by destruct (c s) as [[a|e|] s1].
Qed.

End keeps.

Lemma persisted_save (t : list Effect) (m m' : ModRef) (st : ModuleState.t) :
  persisted (t ++ [SaveState m st]) m' = if decide (m = m') then Some st else persisted t m'.
Proof.
  unfold persisted. rewrite omap_app. cbn. case_decide; [by rewrite last_snoc|].
  by rewrite app_nil_r.
Qed.

Lemma persisted_other (t : list Effect) (e : Effect) (m : ModRef) :
  (∀ m' st, e ≠ SaveState m' st) → persisted (t ++ [e]) m = persisted t m.
Proof.
  intros He. unfold persisted. rewrite omap_app. cbn.
  destruct e as [| | | | | |m0 st0]; try by rewrite app_nil_r. by destruct (He m0 st0).
Qed.

Section synced.
Variable collaborator : list Effect → Effect → Reply.
Variable dirty : option ModRef.

Lemma keeps_staging (f : BboxState → BboxState) :
  (∀ s, heap (f s) = heap s ∧ trace (f s) = trace s) → keeps (synced dirty) (modify f).
Proof.
  intros Hf s Hs m. cbn. destruct (Hf s) as [Hh Ht]. unfold sync_at. rewrite Hh, Ht.
  apply Hs.
Qed.

Lemma keeps_call (e : Effect) :
  (∀ m st, e ≠ SaveState m st) → keeps (synced dirty) (call collaborator e).
Proof.
  intros He s Hs. unfold call. destruct (collaborator _ _); [|done]. cbn. intros m.
  unfold sync_at. cbn. rewrite persisted_other by done. apply Hs.
Qed.

(** A change of a module state directly followed by its save. *)
Lemma keeps_update_save (m : ModRef) (f : ModuleState.t → ModuleState.t) :
  keeps (synced dirty) (update_state m f ;;; saveState collaborator m).
Proof.
  intros s Hs. unfold update_state, saveState, call, bind, modify, gets, ret. cbn.
  rewrite set_state_eq. destruct (collaborator _ _); [|done]. cbn. intros m'.
  unfold sync_at. cbn. rewrite persisted_save, set_state_lookup.
  destruct (decide (m = m')) as [<-|Hne]; [left; by intros ? [= <-]|]. apply Hs.
Qed.

Lemma keeps_runInteractive (m : ModRef) (runnable : option RunnableSpec) :
  keeps (synced dirty) (runInteractive collaborator m runnable).
Proof.
  assert (Hone : ∀ r, keeps (synced dirty) (run_one collaborator m r)).
  { intros [cmd|fn]; cbn; (apply keeps_bind; [by apply keeps_call|intros; apply keeps_ret]). }
  destruct runnable as [[r|rs]|]; cbn; [done|by apply keeps_for_of|].
  apply keeps_bind; [by apply keeps_call|intros; apply keeps_ret].
Qed.

Lemma keeps_runBuild (m : ModRef) : keeps (synced dirty) (runBuild collaborator m).
Proof.
  unfold runBuild. apply keeps_bind; [apply keeps_gets|]. intros h.
  destruct (negb _); [apply keeps_throw|].
  apply keeps_bind; [apply keeps_runInteractive|]. intros _. apply keeps_update_save.
Qed.

Lemma keeps_runMigrate (m : ModRef) : keeps (synced dirty) (runMigrate collaborator m).
Proof.
  unfold runMigrate. apply keeps_bind; [apply keeps_gets|]. intros h.
  destruct (ModuleSpec.migrations _); [|apply keeps_throw].
  destruct (getNotAppliedMigrations _); [apply keeps_ret|].
  apply keeps_bind; [|intros _; apply keeps_update_save].
  apply keeps_for_of. intros migId. unfold migrate_one.
  apply keeps_bind; [apply keeps_runInteractive|]. intros _. apply keeps_update_save.
Qed.

Lemma keeps_apply_staged (e : Staged.t) :
  keeps (synced dirty) (apply_staged collaborator e).
Proof.
  unfold apply_staged, apply_module, apply_service.
  apply keeps_bind.
  - destruct (Staged.module e) as [[m st]|]; [|apply keeps_ret].
    apply keeps_bind.
    + destruct (PartialModuleState.built st); [|apply keeps_ret].
      apply keeps_bind; [apply keeps_gets|]. intros h.
      destruct (_ && _); [apply keeps_runBuild|apply keeps_ret].
    + intros _. destruct (PartialModuleState.ranAllMigrations st);
        [apply keeps_runMigrate|apply keeps_ret].
  - intros _. destruct (Staged.service e) as [[sv st]|]; [|apply keeps_ret].
    destruct (PartialServiceState.processStatus st) as [[| |]|];
      try apply keeps_throw; try apply keeps_ret;
      (apply keeps_bind; [by apply keeps_call|intros; apply keeps_ret]).
Qed.

Lemma keeps_executeStaged : keeps (synced dirty) (executeStaged collaborator).
Proof.
  unfold executeStaged. apply keeps_bind; [apply keeps_gets|]. intros q.
  apply keeps_for_of, keeps_apply_staged.
Qed.

Lemma keeps_getAllModules : keeps (synced dirty) getAllModules.
Proof.
  unfold getAllModules. apply keeps_bind; [apply keeps_gets|].
  intros [mods|]; [apply keeps_ret|apply keeps_throw].
Qed.

Lemma keeps_getModule name : keeps (synced dirty) (getModule name).
Proof.
  unfold getModule. apply keeps_bind; [apply keeps_getAllModules|]. intros mods.
  apply keeps_bind; [apply keeps_gets|]. intros h.
  destruct (find_module _ _ _); [apply keeps_ret|apply keeps_throw].
Qed.

Lemma keeps_getService name : keeps (synced dirty) (getService name).
Proof.
  unfold getService. apply keeps_bind; [apply keeps_getAllModules|]. intros mods.
  apply keeps_bind; [apply keeps_gets|]. intros h.
  destruct (find_service _ _ _); [apply keeps_ret|apply keeps_throw].
Qed.

Lemma keeps_stageModuleState m st : keeps (synced dirty) (stageModuleState m st).
Proof. by apply keeps_staging. Qed.

Lemma keeps_stageServiceState sv st : keeps (synced dirty) (stageServiceState sv st).
Proof. by apply keeps_staging. Qed.

Lemma keeps_stageBuildIfNeeded m : keeps (synced dirty) (stageBuildIfNeeded m).
Proof.
  unfold stageBuildIfNeeded. apply keeps_bind; [apply keeps_gets|]. intros h.
  destruct (_ || _); [apply keeps_ret|apply keeps_stageModuleState].
Qed.

Lemma keeps_stageMigrationsIfNeeded m : keeps (synced dirty) (stageMigrationsIfNeeded m).
Proof.
  unfold stageMigrationsIfNeeded. apply keeps_bind; [apply keeps_gets|]. intros h.
  destruct (getNotAppliedMigrations _); [apply keeps_ret|apply keeps_stageModuleState].
Qed.

Lemma keeps_stageStart sv : keeps (synced dirty) (stageStart sv).
Proof.
  unfold stageStart. apply keeps_bind; [apply keeps_stageBuildIfNeeded|]. intros _.
  apply keeps_bind; [apply keeps_stageMigrationsIfNeeded|]. intros _.
  apply keeps_stageServiceState.
Qed.

Lemma keeps_stageStartDependenciesIfNeeded fuel sv :
  keeps (synced dirty) (stageStartDependenciesIfNeeded fuel sv).
Proof.
  revert sv. induction fuel as [|fuel IH]; intros sv; cbn; [apply keeps_diverge|].
  destruct (ServiceSpec.dependencies _); [|apply keeps_ret].
  apply keeps_for_of. intros d. apply keeps_bind; [apply keeps_getService|]. intros found.
  apply keeps_bind; [apply IH|]. intros _. apply keeps_stageStart.
Qed.

Lemma keeps_provideValue valueName : keeps (synced dirty) (provideValue collaborator valueName).
Proof.
  unfold provideValue. apply keeps_rethrow. cbv zeta.
  apply keeps_bind; [apply keeps_getService|]. intros found.
  destruct (has_static_value _ _); [apply keeps_ret|].
  destruct (negb _); [apply keeps_throw|].
  apply keeps_bind; [apply keeps_stageBuildIfNeeded|]. intros _.
  apply keeps_bind; [apply keeps_executeStaged|]. intros _. by apply keeps_call.
Qed.

End synced.

Lemma in_sync_synced (s : BboxState) : in_sync s ↔ synced None s.
Proof.
  split; [intros Hs m; by left|]. intros Hs m. by destruct (Hs m) as [?|[? _]].
Qed.

(** [build]: the reset of [built] is not written, but the staged build
    that follows it writes the state again before [build] returns. *)
Lemma keeps_build collaborator (name : string) :
  keeps (synced None) (build collaborator name).
Proof.
  intros s Hs. unfold build.
  pose proof (keeps_getModule None name s Hs) as Hget.
  pose proof (getModule_state name s) as Hstate.
  destruct (getModule name s) as [[m|e|] s0] eqn:Hm; cbn [fst snd] in *; subst s0;
    [|by rewrite (bind_throw _ _ _ _ _ Hm)|by rewrite (bind_diverge _ _ _ _ Hm)].
  rewrite (bind_ok _ _ _ _ _ Hm). unfold stageBuild, update_state, stageModuleState.
  run. unfold executeStaged. run. cbn [stagedStates set_stagedStates set_heap].
  set (s1 := set_stagedStates _ _).
  assert (Hs1 : synced (Some m) s1).
  { intros m'. destruct (decide (m' = m)) as [->|Hne].
    - right. split; [done|]. cbn. by rewrite set_state_eq.
    - destruct (Hs m') as [Hsync|[? _]]; [|done]. left. unfold sync_at. cbn.
      rewrite set_state_lookup, decide_False by done. apply Hsync. }
  rewrite for_of_app.
  pose proof (keeps_for_of _ (stagedStates s) _ (keeps_apply_staged collaborator (Some m))
                s1 Hs1) as Hq.
  destruct (for_of (stagedStates s) (apply_staged collaborator) s1) as [[[]|e|] s2] eqn:Hwalk;
    cbn [fst snd] in Hq;
    [|by rewrite (bind_throw _ _ _ _ _ Hwalk)|by rewrite (bind_diverge _ _ _ _ Hwalk)].
  rewrite (bind_ok _ _ _ _ _ Hwalk). cbn [for_of]. rewrite bind_ret_unit.
  destruct (ModuleState.built (Module_.state (heap s2 m))) eqn:Hbuilt.
  - assert (Hs2 : synced None s2).
    { intros m'. destruct (Hq m') as [?|[[= ->] Hb]]; [by left|congruence]. }
    apply (keeps_apply_staged collaborator None _ s2 Hs2).
  - rewrite apply_staged_build by done.
    pose proof (keeps_runBuild collaborator (Some m) m s2 Hq) as Hbuild.
    pose proof (runBuild_ok collaborator m s2) as Hok.
    destruct (runBuild collaborator m s2) as [[[]|e|] s3]; cbn [fst snd] in *; [|done..].
    destruct (Hok s3 eq_refl) as (_ & _ & Hh & _). cbv zeta in Hh.
    intros m'. destruct (Hbuild m') as [?|[[= ->] Hb]]; [by left|].
    rewrite Hh, set_state_eq in Hb. done.
Qed.

(** X27. An operation that returns leaves nothing unwritten: if what was
    last written for each module was its state in memory before the
    operation, it is so after it. Between the two the states may differ
    (while a build or a migration runs), and they may be left different
    when the operation throws. *)
Theorem returned_operation_leaves_state_persisted collaborator (fuel : nat)
    (op : Operation) (s : BboxState) :
  in_sync s →
  (perform collaborator fuel op s).1 = Ok tt →
  in_sync (perform collaborator fuel op s).2.
Proof.
  intros Hs Hok. apply in_sync_synced. apply in_sync_synced in Hs.
  assert (Hkeeps : keeps (synced None) (perform collaborator fuel op)).
  { destruct op; cbn [perform].
    - unfold start. apply keeps_bind; [apply keeps_getService|]. intros found.
      apply keeps_bind; [apply keeps_stageStartDependenciesIfNeeded|]. intros _.
      apply keeps_bind; [apply keeps_stageStart|]. intros _. apply keeps_executeStaged.
    - unfold stop. apply keeps_bind; [apply keeps_getService|]. intros found.
      apply keeps_bind; [apply keeps_stageServiceState|]. intros _.
      apply keeps_executeStaged.
    - apply keeps_build.
    - unfold migrate. apply keeps_bind; [apply keeps_getModule|]. intros m.
      apply keeps_bind; [apply keeps_stageMigrationsIfNeeded|]. intros _.
      apply keeps_executeStaged.
    - unfold value. apply keeps_bind; [apply keeps_provideValue|]. intros _.
      apply keeps_ret.
    - unfold list_. apply keeps_bind; [apply keeps_getAllModules|]. intros mods.
      apply keeps_bind; [apply keeps_gets|]. intros h.
      apply keeps_for_of. intros m. apply keeps_for_of. intros sv.
      apply keeps_bind; [by apply keeps_call|]. intros _. apply keeps_ret.
    - unfold run. apply keeps_bind; [apply keeps_getModule|]. intros m.
      apply keeps_runInteractive. }
  specialize (Hkeeps s Hs). by rewrite Hok in Hkeeps.
Qed.

Lemma returned_operation_leaves_state_persisted_witness :
  in_sync (perform all_return 3 (Start "web") sample).2.
Proof.
  apply (returned_operation_leaves_state_persisted all_return 3 (Start "web") sample).
  - intros m st. cbn. discriminate.
  - vm_compute. reflexivity.
Defined.

(** ** Which operation can miss an action *)

Section actions.
Variable collaborator : list Effect → Effect → Reply.
Variable build_too : bool.

Lemma finds_actions_ret {A} (a : A) : finds_actions build_too (ret a).
Proof. by intros s Hs. Qed.

Lemma finds_actions_throw {A} e :
  ¬ missing_action build_too e → finds_actions build_too (@throw A e).
Proof. intros He s Hs. split; [done|]. by intros e' [= <-]. Qed.

Lemma finds_actions_diverge {A} : finds_actions build_too (@diverge A).
Proof. by intros s Hs. Qed.

Lemma finds_actions_gets {A} (f : BboxState → A) : finds_actions build_too (gets f).
Proof. by intros s Hs. Qed.

Lemma finds_actions_bind {A B} (c : M A) (k : A → M B) :
  finds_actions build_too c → (∀ a, finds_actions build_too (k a)) →
  finds_actions build_too (bind c k).
Proof.
  intros Hc Hk s Hs. unfold bind. destruct (Hc s Hs) as [Hq He].
  destruct (c s) as [[a|e|] s1]; cbn in *; [by apply Hk|split; [done|]|done].
  intros e' [= <-]. by apply He.
Qed.

Lemma finds_actions_for_of {A} (l : list A) (body : A → M unit) :
  (∀ x, finds_actions build_too (body x)) → finds_actions build_too (for_of l body).
Proof.
  intros Hb. induction l as [|x l IH]; cbn; [apply finds_actions_ret|].
  by apply finds_actions_bind.
Qed.

Lemma finds_actions_wrapped {A} (c : M A) (valueName : string) :
  finds_actions build_too c →
  finds_actions build_too (try_catch c (λ e, throw (CouldNotGetValue valueName e))).
Proof.
  intros Hc s Hs. unfold try_catch. destruct (Hc s Hs) as [Hq He].
  destruct (c s) as [[a|e|] s1]; cbn in *; [done| |done]. split; [done|].
  intros e' [= <-]. cbn. by apply He.
Qed.

Lemma has_action_shape (s s' : BboxState) (e : Staged.t) :
  shape_kept s s' → has_action build_too (heap s) e → has_action build_too (heap s') e.
Proof.
  intros [_ Hh]. unfold has_action. destruct (Staged.module e) as [[m st]|]; [|done].
  by destruct (Hh m) as (_ & -> & _).
Qed.

(** What keeps the queue and the specs keeps the staged changes with their
    actions. *)
Lemma finds_actions_frame {A} (c : M A) (P : Error → Prop) :
  steps shape_kept c → steps queue_kept c → throws P c →
  (∀ e, P e → ¬ missing_action build_too e) →
  finds_actions build_too c.
Proof.
  intros Hshape Hqueue Hthrows HP s Hs. split; [|intros e He; by eapply HP, Hthrows].
  rewrite (Hqueue s). eapply Forall_impl; [done|]. intros e. apply has_action_shape, Hshape.
Qed.

Lemma finds_actions_call e : finds_actions build_too (call collaborator e).
Proof.
  apply (finds_actions_frame _ (λ e, match e with External _ => True | _ => False end)).
  - intros s. unfold call. by destruct (collaborator _ _).
  - intros s. unfold call. by destruct (collaborator _ _).
  - by apply throws_call.
  - intros []; cbn; tauto.
Qed.

Lemma finds_actions_getAllModules : finds_actions build_too getAllModules.
Proof.
  unfold getAllModules. apply finds_actions_bind; [apply finds_actions_gets|].
  intros [mods|]; [apply finds_actions_ret|apply finds_actions_throw; cbn; tauto].
Qed.

Lemma finds_actions_getModule name : finds_actions build_too (getModule name).
Proof.
  unfold getModule. apply finds_actions_bind; [apply finds_actions_getAllModules|].
  intros mods. apply finds_actions_bind; [apply finds_actions_gets|]. intros h.
  destruct (find_module _ _ _); [apply finds_actions_ret|apply finds_actions_throw; cbn; tauto].
Qed.

Lemma finds_actions_getService name : finds_actions build_too (getService name).
Proof.
  unfold getService. apply finds_actions_bind; [apply finds_actions_getAllModules|].
  intros mods. apply finds_actions_bind; [apply finds_actions_gets|]. intros h.
  destruct (find_service _ _ _); [apply finds_actions_ret|apply finds_actions_throw; cbn; tauto].
Qed.

Lemma finds_actions_push (e : Staged.t) (s : BboxState) :
  has_action build_too (heap s) e →
  Forall (has_action build_too (heap s)) (stagedStates s) →
  Forall (has_action build_too (heap s)) (stagedStates s ++ [e]).
Proof. intros He Hs. apply Forall_app. split; [done|]. by constructor. Qed.

Lemma finds_actions_stageServiceState sv st :
  finds_actions build_too (stageServiceState sv st).
Proof. intros s Hs. split; [|done]. cbn. by apply finds_actions_push. Qed.

(** A build is staged automatically only for a module that has a build
    action; migrations only for a module that has some pending. *)
Lemma finds_actions_stageBuildIfNeeded m : finds_actions build_too (stageBuildIfNeeded m).
Proof.
  intros s Hs. unfold stageBuildIfNeeded, stageModuleState. run.
  destruct (ModuleState.built _); [done|]. cbn [orb].
  destruct (runnable_truthy _) eqn:Hb; [|done]. cbn. split; [|done].
  apply finds_actions_push; [|done]. by split.
Qed.

Lemma finds_actions_stageMigrationsIfNeeded m :
  finds_actions build_too (stageMigrationsIfNeeded m).
Proof.
  intros s Hs. unfold stageMigrationsIfNeeded, stageModuleState. run.
  destruct (getNotAppliedMigrations (heap s m)) as [|first others] eqn:Hp; [done|].
  cbn. split; [|done]. apply finds_actions_push; [|done]. split; [|done]. intros _.
  unfold getNotAppliedMigrations in Hp. by destruct (ModuleSpec.migrations _).
Qed.

Lemma finds_actions_stageStart sv : finds_actions build_too (stageStart sv).
Proof.
  unfold stageStart. apply finds_actions_bind; [apply finds_actions_stageBuildIfNeeded|].
  intros _. apply finds_actions_bind; [apply finds_actions_stageMigrationsIfNeeded|].
  intros _. apply finds_actions_stageServiceState.
Qed.

Lemma finds_actions_stageStartDependenciesIfNeeded fuel sv :
  finds_actions build_too (stageStartDependenciesIfNeeded fuel sv).
Proof.
  revert sv. induction fuel as [|fuel IH]; intros sv; cbn; [apply finds_actions_diverge|].
  destruct (ServiceSpec.dependencies _); [|apply finds_actions_ret].
  apply finds_actions_for_of. intros d.
  apply finds_actions_bind; [apply finds_actions_getService|]. intros found.
  apply finds_actions_bind; [apply IH|]. intros _. apply finds_actions_stageStart.
Qed.

Lemma finds_actions_runInteractive m runnable :
  finds_actions build_too (runInteractive collaborator m runnable).
Proof.
  assert (Hone : ∀ r, finds_actions build_too (run_one collaborator m r)).
  { intros [cmd|fn]; cbn;
      (apply finds_actions_bind; [apply finds_actions_call|intros; apply finds_actions_ret]). }
  destruct runnable as [[r|rs]|]; cbn; [done|by apply finds_actions_for_of|].
  apply finds_actions_bind; [apply finds_actions_call|intros; apply finds_actions_ret].
Qed.

End actions.

Section applied_actions.
Variable collaborator : list Effect → Effect → Reply.
Variable build_too : bool.

Lemma update_save_throws (m : ModRef) (f : ModuleState.t → ModuleState.t) :
  throws (λ e, match e with External _ => True | _ => False end)
    (update_state m f ;;; saveState collaborator m).
Proof. unfold update_state, saveState. throws_go. Qed.

Lemma runInteractive_throws (m : ModRef) (runnable : option RunnableSpec) :
  throws (λ e, match e with External _ => True | _ => False end)
    (runInteractive collaborator m runnable).
Proof. unfold runInteractive, run_one. throws_go. Qed.

(** [runBuild] fails for want of a build action, or as a collaborator
    does. *)
Lemma runBuild_throws (m : ModRef) (s : BboxState) (e : Error) :
  (runBuild collaborator m s).1 = Throw e →
  (e = NoBuildAction
   ∧ runnable_truthy (ModuleSpec.build (Module_.spec (heap s m))) = false)
  ∨ match e with External _ => True | _ => False end.
Proof.
  unfold runBuild. run. destruct (runnable_truthy _); cbn [negb].
  - intros He. right.
    eapply (throws_bind (λ e, match e with External _ => True | _ => False end));
      [apply runInteractive_throws|intros ?; apply update_save_throws|exact He].
  - intros [= <-]. by left.
Qed.

(** [runMigrate] fails for want of migrations, or as a collaborator
    does. *)
Lemma runMigrate_throws (m : ModRef) (s : BboxState) (e : Error) :
  (runMigrate collaborator m s).1 = Throw e →
  (e = NoMigrations ∧ ModuleSpec.migrations (Module_.spec (heap s m)) = None)
  ∨ match e with External _ => True | _ => False end.
Proof.
  unfold runMigrate. run. destruct (ModuleSpec.migrations _) as [migrations|].
  - intros He. right. destruct (getNotAppliedMigrations _); [done|].
    eapply (throws_bind (λ e, match e with External _ => True | _ => False end));
      [|intros ?; apply update_save_throws|exact He].
    apply throws_for_of. intros migId. unfold migrate_one.
    apply throws_bind; [apply runInteractive_throws|]. intros _. apply update_save_throws.
  - intros [= <-]. by left.
Qed.

Lemma apply_module_finds (m : ModRef) (st : PartialModuleState.t) (s : BboxState)
    (e : Error) :
  has_action build_too (heap s) (module_entry m st) →
  (apply_module collaborator m st s).1 = Throw e →
  ¬ missing_action build_too e.
Proof.
  intros [Hmig Hbuild]. cbn in Hmig, Hbuild. unfold apply_module. unfold bind at 1.
  set (building := match PartialModuleState.built st with
                   | Some built => _
                   | None => ret tt
                   end).
  assert (Hshape : shape_kept s (building s).2).
  { subst building. destruct (PartialModuleState.built st) as [built|]; [|done].
    run. destruct (_ && _); [|done].
    apply (runBuild_steps collaborator shape_kept (λ s e _, shape_kept_call s e)
             shape_kept_set_state). }
  assert (Hthrow : ∀ e1, (building s).1 = Throw e1 → ¬ missing_action build_too e1).
  { subst building. intros e1. destruct (PartialModuleState.built st) as [built|]; [|done].
    run. destruct (_ && _); [|done]. intros [[-> Hno]|He]%runBuild_throws.
    - cbn. intros Htoo. by rewrite Hbuild in Hno.
    - destruct e1; cbn in *; tauto. }
  destruct (building s) as [[[]|e1|] s1]; cbn [fst snd] in *; [| |done].
  - destruct (PartialModuleState.ranAllMigrations st); [|done].
    intros [[-> Hno]|He]%runMigrate_throws.
    + destruct Hshape as [_ Hh]. destruct (Hh m) as (_ & Hspec & _).
      rewrite Hspec in Hno. by destruct Hmig.
    + destruct e; cbn in *; tauto.
  - intros [= <-]. by apply Hthrow.
Qed.

Lemma apply_staged_finds (entry : Staged.t) (s : BboxState) (e : Error) :
  has_action build_too (heap s) entry →
  (apply_staged collaborator entry s).1 = Throw e →
  ¬ missing_action build_too e.
Proof.
  intros Ha. unfold apply_staged. unfold bind at 1.
  assert (Hservice : ∀ s1, (match Staged.service entry with
                            | Some (service, state) => apply_service collaborator service state
                            | None => ret tt
                            end s1).1 = Throw e → ¬ missing_action build_too e).
  { intros s1. destruct (Staged.service entry) as [[sv st]|]; [|done].
    assert (Hthrows : throws (λ e, ¬ missing_action build_too e)
                        (apply_service collaborator sv st)).
    { unfold apply_service. throws_go. }
    apply Hthrows. }
  unfold has_action in Ha.
  destruct (Staged.module entry) as [[m st]|] eqn:Hmod; [|apply Hservice].
  pose proof (apply_module_finds m st s) as Hmodule.
  destruct (apply_module collaborator m st s) as [[[]|e1|] s1]; cbn [fst snd] in *;
    [apply Hservice| |done].
  intros [= <-]. by apply Hmodule.
Qed.

Lemma for_of_apply_staged_finds (q : list Staged.t) (s : BboxState) (e : Error) :
  Forall (has_action build_too (heap s)) q →
  (for_of q (apply_staged collaborator) s).1 = Throw e →
  ¬ missing_action build_too e.
Proof.
  revert s. induction q as [|entry q IH]; intros s Hq; [done|].
  apply Forall_cons in Hq as [Hentry Hq]. cbn [for_of]. unfold bind.
  pose proof (apply_staged_finds entry s) as Hone.
  pose proof (apply_staged_steps collaborator shape_kept (λ s e _, shape_kept_call s e)
                shape_kept_set_state (λ s e _, shape_kept_call s e) entry s) as Hshape.
  destruct (apply_staged collaborator entry s) as [[[]|e1|] s1]; cbn [fst snd] in *;
    [|by intros [= <-]; apply Hone|done].
  apply IH. eapply Forall_impl; [done|]. intros x. by apply has_action_shape.
Qed.

Lemma finds_actions_executeStaged : finds_actions build_too (executeStaged collaborator).
Proof.
  intros s Hs. split.
  - rewrite executeStaged_queue. eapply Forall_impl; [done|]. intros x.
    apply has_action_shape.
    apply (executeStaged_steps collaborator shape_kept (λ s e _, shape_kept_call s e)
             shape_kept_set_state (λ s e _, shape_kept_call s e)).
  - intros e. unfold executeStaged. run. by apply for_of_apply_staged_finds.
Qed.

Lemma finds_actions_provideValue valueName :
  finds_actions build_too (provideValue collaborator valueName).
Proof.
  unfold provideValue. apply finds_actions_wrapped. cbv zeta.
  apply finds_actions_bind; [apply finds_actions_getService|]. intros found.
  destruct (has_static_value _ _); [apply finds_actions_ret|].
  destruct (negb _); [apply finds_actions_throw; cbn; tauto|].
  apply finds_actions_bind; [apply finds_actions_stageBuildIfNeeded|]. intros _.
  apply finds_actions_bind; [apply finds_actions_executeStaged|]. intros _.
  apply finds_actions_call.
Qed.

Lemma finds_actions_but_build fuel op :
  (∀ name, op ≠ Build name) → finds_actions build_too (perform collaborator fuel op).
Proof.
  intros Hop. destruct op as [name|name|name|name|valueName| |module runnable];
    cbn [perform].
  - unfold start. apply finds_actions_bind; [apply finds_actions_getService|].
    intros found.
    apply finds_actions_bind; [apply finds_actions_stageStartDependenciesIfNeeded|].
    intros _. apply finds_actions_bind; [apply finds_actions_stageStart|]. intros _.
    apply finds_actions_executeStaged.
  - unfold stop. apply finds_actions_bind; [apply finds_actions_getService|].
    intros found. apply finds_actions_bind; [apply finds_actions_stageServiceState|].
    intros _. apply finds_actions_executeStaged.
  - by destruct (Hop name).
  - unfold migrate. apply finds_actions_bind; [apply finds_actions_getModule|].
    intros m. apply finds_actions_bind; [apply finds_actions_stageMigrationsIfNeeded|].
    intros _. apply finds_actions_executeStaged.
  - unfold value. apply finds_actions_bind; [apply finds_actions_provideValue|].
    intros _. apply finds_actions_ret.
  - unfold list_. apply finds_actions_bind; [apply finds_actions_getAllModules|].
    intros mods. apply finds_actions_bind; [apply finds_actions_gets|]. intros h.
    apply finds_actions_for_of. intros m. apply finds_actions_for_of. intros sv.
    apply finds_actions_bind; [apply finds_actions_call|]. intros _.
    apply finds_actions_ret.
  - unfold run. apply finds_actions_bind; [apply finds_actions_getModule|]. intros m.
    apply finds_actions_runInteractive.
Qed.

End applied_actions.

(** [build] stages its build whether or not the module has a build
    action, but never a migration. *)
Lemma finds_actions_build collaborator name : finds_actions false (build collaborator name).
Proof.
  unfold build. apply finds_actions_bind; [apply finds_actions_getModule|]. intros m.
  apply finds_actions_bind; [|intros _; apply finds_actions_executeStaged].
  intros s Hs. split; [|done]. unfold stageBuild, update_state, stageModuleState. run.
  cbn. apply Forall_app. split; [|by repeat constructor].
  eapply Forall_impl; [done|]. intros x.
  apply (has_action_shape false s
           (set_heap (set_state m (with_built false (Module_.state (heap s m))) (heap s)) s)
           x (shape_kept_set_state s m _)).
Qed.

(** X28. On a fresh context no operation fails with [Module has not
    migrations specified]: migrations are staged only for a module that
    has some pending. And no operation but [build] fails with [Module has
    not build action specified]: [start] and [value] stage a build only
    for a module that has a build action. *)
Theorem fresh_operations_find_their_actions collaborator (fuel : nat) (op : Operation)
    (s : BboxState) (e : Error) :
  stagedStates s = [] →
  (perform collaborator fuel op s).1 = Throw e →
  ¬ missing_action false e ∧ ((∀ name, op ≠ Build name) → ¬ missing_action true e).
Proof.
  intros Hq He. split.
  - assert (Hfinds : finds_actions false (perform collaborator fuel op)).
    { destruct op; try (by apply finds_actions_but_build). apply finds_actions_build. }
    apply (Hfinds s); [|done]. rewrite Hq. constructor.
  - intros Hop. apply (finds_actions_but_build collaborator true fuel op Hop s); [|done].
    rewrite Hq. constructor.
Qed.

Lemma fresh_operations_find_their_actions_witness :
  ¬ missing_action false (External "make: error")
  ∧ ((∀ name, Start "web" ≠ Build name) → ¬ missing_action true (External "make: error")).
Proof.
  apply (fresh_operations_find_their_actions fails_make 3 (Start "web") sample
           (External "make: error")).
  - reflexivity.
  - vm_compute. reflexivity.
Defined.
